(** * The [custom:docker-compose] scaffolder action of [runDockerCompose.ts]

    A shallow embedding of the handler of [createDockerComposeAction]:
    the manifest reader, the conflict resolver, the stack launcher and the
    port discovery, with the JavaScript values, strings and objects they
    work on, followed by the properties of the handler. *)

From Stdlib Require Import Bool Arith ZArith NArith Lia List String Ascii.
From Stdlib Require Import DecimalString DecimalNat DecimalN DecimalZ.
Import ListNotations.

#[local] Set Warnings "-register-all".

Local Open Scope list_scope.
Local Open Scope string_scope.

(* ================================================================== *)
(** * JavaScript strings *)
(* ================================================================== *)

(** Strings are texts in UTF-8, one [ascii] per byte.  The delimiters
    the handler looks for are ASCII, and a search for ASCII text finds
    the same places in the bytes as in the code units of the source.
    White space is what ECMAScript strips: the ASCII blanks and the
    encodings of the other white space and line terminator code points. *)

Module JsString.

(** [s.startsWith(p)] *)
Fixpoint starts_with (p s : string) : bool :=
  match p, s with
  | EmptyString, _ => true
  | String _ _, EmptyString => false
  | String a p', String b s' => Ascii.eqb a b && starts_with p' s'
  end.

(** [s.includes(sub)] *)
Fixpoint includes (s sub : string) : bool :=
  starts_with sub s
  || match s with
     | EmptyString => false
     | String _ s' => includes s' sub
     end.

(** [s.endsWith(p)] *)
Fixpoint ends_with (p s : string) : bool :=
  String.eqb p s
  || match s with
     | EmptyString => false
     | String _ s' => ends_with p s'
     end.

(** [s.split(sep)] for a non-empty separator: the text between the
    successive occurrences of [sep], found from left to right.  [skip]
    counts the characters of a separator that are still to be passed. *)
Fixpoint split_go (sep : string) (skip : nat) (s : string) : list string :=
  match s with
  | EmptyString => [EmptyString]
  | String c s' =>
      match skip with
      | S k => split_go sep k s'
      | O =>
          if starts_with sep s
          then EmptyString :: split_go sep (String.length sep - 1) s'
          else match split_go sep 0 s' with
               | h :: t => String c h :: t
               | [] => [String c EmptyString]
               end
      end
  end.

Definition split (s sep : string) : list string := split_go sep 0 s.

(** [l.join(sep)] on an array of strings *)
Fixpoint join (sep : string) (l : list string) : string :=
  match l with
  | [] => EmptyString
  | [x] => x
  | x :: tl => x ++ sep ++ join sep tl
  end.

(** TAB, LF, VT, FF, CR and the space *)
Definition is_space (c : ascii) : bool :=
  let n := nat_of_ascii c in
  ((n =? 32) || ((9 <=? n) && (n <=? 13)))%nat.

(** U+00A0, the no-break space *)
Definition is_space2 (c1 c2 : ascii) : bool :=
  ((nat_of_ascii c1 =? 194) && (nat_of_ascii c2 =? 160))%nat.

(** U+1680, U+2000 to U+200A, U+2028, U+2029, U+202F, U+205F, U+3000 and
    U+FEFF *)
Definition is_space3 (c1 c2 c3 : ascii) : bool :=
  let n1 := nat_of_ascii c1 in
  let n2 := nat_of_ascii c2 in
  let n3 := nat_of_ascii c3 in
  (((n1 =? 225) && (n2 =? 154) && (n3 =? 128))
   || ((n1 =? 226) && (n2 =? 128)
       && (((128 <=? n3) && (n3 <=? 138))
           || (n3 =? 168) || (n3 =? 169) || (n3 =? 175)))
   || ((n1 =? 226) && (n2 =? 129) && (n3 =? 159))
   || ((n1 =? 227) && (n2 =? 128) && (n3 =? 128))
   || ((n1 =? 239) && (n2 =? 187) && (n3 =? 191)))%nat.

(** The white space code points, as the bytes of each *)
Definition white_space : list string :=
  let b (n : nat) := String (ascii_of_nat n) EmptyString in
  let b2 (n1 n2 : nat) := String (ascii_of_nat n1) (b n2) in
  let b3 (n1 n2 n3 : nat) := String (ascii_of_nat n1) (b2 n2 n3) in
  (map b [9; 10; 11; 12; 13; 32]
   ++ [b2 194 160; b3 225 154 128]
   ++ map (b3 226 128) [128; 129; 130; 131; 132; 133; 134; 135; 136; 137; 138]
   ++ [b3 226 128 168; b3 226 128 169; b3 226 128 175; b3 226 129 159;
       b3 227 128 128; b3 239 187 191])%list.

(** [s.trimStart()] *)
Fixpoint trim_start (s : string) : string :=
  match s with
  | EmptyString => EmptyString
  | String c1 r1 =>
      if is_space c1 then trim_start r1 else
      match r1 with
      | EmptyString => s
      | String c2 r2 =>
          if is_space2 c1 c2 then trim_start r2 else
          match r2 with
          | EmptyString => s
          | String c3 r3 => if is_space3 c1 c2 c3 then trim_start r3 else s
          end
      end
  end.

(** A text of white space only *)
Definition all_space (s : string) : bool :=
  match trim_start s with
  | EmptyString => true
  | String _ _ => false
  end.

(** [s.trimEnd()]: the text up to where only white space follows *)
Fixpoint trim_end (s : string) : string :=
  match s with
  | EmptyString => EmptyString
  | String c s' => if all_space s then EmptyString else String c (trim_end s')
  end.

(** [s.trim()] *)
Definition trim (s : string) : string := trim_end (trim_start s).

(** A text made of white space only *)
Inductive blank : string -> Prop :=
| blank_nil : blank EmptyString
| blank_cons (w s : string) : In w white_space -> blank s -> blank (w ++ s).

(** No white space at either end *)
Definition trimmed (s : string) : bool :=
  forallb (fun w => negb (starts_with w s) && negb (ends_with w s)) white_space.

Definition is_digit (c : ascii) : bool :=
  let n := nat_of_ascii c in ((48 <=? n) && (n <=? 57))%nat.

Definition is_colon (c : ascii) : bool := Ascii.eqb c ":"%char.

Fixpoint all_chars (p : ascii -> bool) (s : string) : bool :=
  match s with
  | EmptyString => true
  | String c s' => p c && all_chars p s'
  end.

Definition all_digits (s : string) : bool := all_chars is_digit s.

Definition no_colon (s : string) : bool :=
  all_chars (fun c => negb (is_colon c)) s.

(** A byte that continues a code point *)
Definition is_continuation (c : ascii) : bool :=
  let n := nat_of_ascii c in ((128 <=? n) && (n <? 192))%nat.

(** The code points of a text, each as a text of its own, as a
    [for ... of] loop over a string sees them: a byte goes with the
    continuation bytes after it. *)
Fixpoint chars (s : string) : list string :=
  match s with
  | EmptyString => []
  | String c s' =>
      match chars s' with
      | String d h :: t =>
          if is_continuation d then String c (String d h) :: t
          else String c EmptyString :: String d h :: t
      | rest => String c EmptyString :: rest
      end
  end.

(** The code units of a text, which its indices and its [length] count:
    a code point of four bytes is the two halves of a surrogate pair,
    written here as a code point of three bytes each; any other is one
    unit. *)
Definition three_bytes (u : N) : string :=
  String (ascii_of_N (224 + u / 4096))
    (String (ascii_of_N (128 + (u / 64) mod 64))
       (String (ascii_of_N (128 + u mod 64)) EmptyString)).

Definition code_units (point : string) : list string :=
  match point with
  | String b0 (String b1 (String b2 (String b3 EmptyString))) =>
      let v := ((N_of_ascii b0 mod 8) * 262144 + (N_of_ascii b1 mod 64) * 4096
                + (N_of_ascii b2 mod 64) * 64 + N_of_ascii b3 mod 64
                - 65536)%N in
      [three_bytes (55296 + v / 1024); three_bytes (56320 + v mod 1024)]
  | _ => [point]
  end.

Definition units (s : string) : list string := flat_map code_units (chars s).

Definition newline : string := String (ascii_of_nat 10) EmptyString.

(** Decimal numerals, all digits written *)
Definition show_Z (z : Z) : string := NilZero.string_of_int (Z.to_int z).
Definition show_nat (n : nat) : string := NilZero.string_of_uint (Nat.to_uint n).
Definition show_N (n : N) : string := NilZero.string_of_uint (N.to_uint n).

(** A number of JavaScript is a double.  The double nearest to a natural
    number, ties to the even significand; [None] beyond the largest
    double, where the number is [Infinity]. *)
Definition nearest_double (z : Z) : option Z :=
  (if z <? 2 ^ 53 then Some z else
   let e := Z.log2 z - 52 in
   let q := z / 2 ^ e in
   let r := z - q * 2 ^ e in
   let half := 2 ^ (e - 1) in
   let q' := if (half <? r) || ((r =? half) && Z.odd q) then q + 1 else q in
   let d := q' * 2 ^ e in
   if 2 ^ 1024 <=? d then None else Some d)%Z.

Definition reads_as (d c : Z) : bool :=
  ((0 <? c) && match nearest_double c with
               | Some d' => d' =? d
               | None => false
               end)%Z.

(** The decimal with the fewest significant digits that reads back as
    the double [d]: a multiple of the highest power of ten that has one,
    from [10^m] down, and of two such multiples the closer one. *)
Fixpoint shortest (m : nat) (d : Z) : Z * nat :=
  match m with
  | O => (d, O)
  | S m' =>
      let p := (10 ^ Z.of_nat m)%Z in
      let lo := (d / p * p)%Z in
      let hi := (lo + p)%Z in
      match reads_as d lo, reads_as d hi with
      | true, true =>
          if (d - lo <? hi - d)%Z then (lo, m)
          else if (hi - d <? d - lo)%Z then (hi, m)
          else if Z.even (lo / p) then (lo, m) else (hi, m)
      | true, false => (lo, m)
      | false, true => (hi, m)
      | false, false => shortest m' d
      end
  end.

(** [String(d)] for a double from [2^53] on: the shortest decimal, with
    its zeros up to 21 digits and with an exponent beyond. *)
Definition show_double (d : Z) : string :=
  let (c, m) := shortest (String.length (show_Z d)) d in
  let n := String.length (show_Z c) in
  if (n <=? 21)%nat then show_Z c
  else match show_Z (c / 10 ^ Z.of_nat m) with
       | EmptyString => EmptyString
       | String d1 EmptyString => String d1 ("e+" ++ show_nat (n - 1))
       | String d1 rest => String d1 ("." ++ rest ++ "e+" ++ show_nat (n - 1))
       end.

(** [String(z)] for the number an integer literal [z] denotes: all the
    digits of an integer below [2^53], which is its own double. *)
Definition show_number (z : Z) : string :=
  let sign := if (z <? 0)%Z then "-" else "" in
  match nearest_double (Z.abs z) with
  | None => sign ++ "Infinity"
  | Some d => if (d <? 2 ^ 53)%Z then show_Z z else sign ++ show_double d
  end.

End JsString.

Import JsString.

(* ================================================================== *)
(** * JavaScript objects used as maps *)
(* ================================================================== *)

(** An object is the list of its own properties in the order of their
    creation.  Its keys are enumerated as ECMAScript orders own property
    keys: the array indices first, by ascending value, then the other
    names in creation order.  The properties are data properties of the
    object itself; of what it inherits, the accessor [__proto__] of
    [Object.prototype] matters to an assignment. *)

Module JsObject.

(** A canonical numeric string below [2^32 - 1] is an array index. *)
Definition array_index (s : string) : option N :=
  match NilZero.uint_of_string s with
  | Some d =>
      let n := N.of_uint d in
      if String.eqb (show_N n) s && (n <? 4294967295)%N then Some n else None
  | None => None
  end.

Definition is_index (s : string) : bool :=
  match array_index s with Some _ => true | None => false end.

Definition index_value (s : string) : N :=
  match array_index s with Some n => n | None => 0%N end.

Section Order.

Context {A : Type} (key : A -> string).

Fixpoint insert_index (x : A) (l : list A) : list A :=
  match l with
  | [] => [x]
  | y :: tl =>
      if (index_value (key x) <=? index_value (key y))%N
      then x :: y :: tl
      else y :: insert_index x tl
  end.

Fixpoint sort_index (l : list A) : list A :=
  match l with
  | [] => []
  | x :: tl => insert_index x (sort_index tl)
  end.

(** OrdinaryOwnPropertyKeys, on the properties in creation order *)
Definition own_order (l : list A) : list A :=
  (sort_index (filter (fun x => is_index (key x)) l)
   ++ filter (fun x => negb (is_index (key x))) l)%list.

Definition le_index (x y : A) : Prop :=
  (index_value (key x) <= index_value (key y))%N.

(** A list in the order [own_order] gives: either no array index at
    all, or an array index below every later one, then such a list. *)
Inductive own_ordered : list A -> Prop :=
| oo_names l :
    Forall (fun x => is_index (key x) = false) l -> own_ordered l
| oo_index x l :
    is_index (key x) = true ->
    Forall (fun y => is_index (key y) = true -> le_index x y) l ->
    own_ordered l ->
    own_ordered (x :: l).

End Order.

Definition t (A : Type) : Type := list (string * A).

Definition empty {A} : t A := [].

(** [o[k]] for a property of the object itself, [None] when it has none
    of that name *)
Fixpoint get {A} (k : string) (o : t A) : option A :=
  match o with
  | [] => None
  | (k', v) :: tl => if String.eqb k k' then Some v else get k tl
  end.

Definition has {A} (k : string) (o : t A) : bool :=
  match get k o with Some _ => true | None => false end.

(** Writing a property of the object itself: an existing one keeps its
    place, a new one comes last. *)
Fixpoint set_own {A} (k : string) (v : A) (o : t A) : t A :=
  match o with
  | [] => [(k, v)]
  | (k', v') :: tl =>
      if String.eqb k k' then (k', v) :: tl else (k', v') :: set_own k v tl
  end.

(** [o[k] = v] on an object that inherits from [Object.prototype].  An
    assignment to [__proto__] reaches the setter of [Object.prototype],
    unless the object has a property of that name itself: the setter
    changes the prototype (or nothing, for a value that is no object)
    and makes no property. *)
Definition set {A} (k : string) (v : A) (o : t A) : t A :=
  if String.eqb k "__proto__" && negb (has k o) then o else set_own k v o.

(** [Object.entries(o)] and [Object.keys(o)] *)
Definition entries {A} (o : t A) : list (string * A) := own_order fst o.
Definition keys {A} (o : t A) : list string := map fst (entries o).

End JsObject.

(* ================================================================== *)
(** * Exceptions and JavaScript values *)
(* ================================================================== *)

(** What a [throw] carries: an [Error] made by the handler with its
    message, a [TypeError] of the runtime (with a short description, not
    the engine's wording), or whatever the module loader, the file system
    or the YAML parser threw. *)
Inductive exn : Type :=
| Error (message : string)
| TypeError (description : string)
| Foreign (description : string).

Inductive result (A : Type) : Type :=
| Ok (a : A)
| Throw (e : exn).
Arguments Ok {A} a.
Arguments Throw {A} e.

(** The values [yaml.load] returns and the handler passes around as
    [any]: a document tree of scalars, sequences and mappings.  The
    numbers are those of integer literals: [VNumber z] is the double
    nearest to [z].  [undefined] is what an empty document loads to and
    what a missing property reads as. *)
Inductive value : Type :=
| VUndefined
| VNull
| VBool (b : bool)
| VNumber (z : Z)
| VString (s : string)
| VArray (items : list value)
| VObject (props : list (string * value)).

Module JsValue.

(** Truthiness, as [if (v)] and [v ? a : b] test it *)
Definition truthy (v : value) : bool :=
  match v with
  | VUndefined | VNull => false
  | VBool b => b
  | VNumber z => negb (z =? 0)%Z
  | VString s => negb (String.eqb s EmptyString)
  | VArray _ | VObject _ => true
  end.

(** The conversion of a template literal [`${v}`].  An array prints its
    items joined by commas, an empty string for [null] and [undefined];
    a plain object prints as [[object Object]], unless a key of its own
    shadows [toString], which leaves nothing callable to convert it. *)
Fixpoint ToString (v : value) : result string :=
  match v with
  | VUndefined => Ok "undefined"
  | VNull => Ok "null"
  | VBool true => Ok "true"
  | VBool false => Ok "false"
  | VNumber z => Ok (show_number z)
  | VString s => Ok s
  | VArray items =>
      (fix join_items (l : list value) : result string :=
         match l with
         | [] => Ok EmptyString
         | x :: tl =>
             let sx := match x with
                       | VUndefined | VNull => Ok EmptyString
                       | _ => ToString x
                       end in
             match sx, tl with
             | Throw e, _ => Throw e
             | Ok s, [] => Ok s
             | Ok s, _ :: _ =>
                 match join_items tl with
                 | Ok r => Ok (s ++ "," ++ r)
                 | Throw e => Throw e
                 end
             end
         end) items
  | VObject props =>
      if JsObject.has "toString" props
      then Throw (TypeError "cannot convert object to primitive value")
      else Ok "[object Object]"
  end.

(** The method call [v.toString()] *)
Definition toString (v : value) : result string :=
  match v with
  | VUndefined | VNull =>
      Throw (TypeError "cannot read properties of null or undefined")
  | VObject props =>
      if JsObject.has "toString" props
      then Throw (TypeError "toString is not a function")
      else Ok "[object Object]"
  | _ => ToString v
  end.

Definition nth_item {A} (l : list A) (k : string) : option A :=
  match JsObject.array_index k with
  | Some n => nth_error l (N.to_nat n)
  | None => None
  end.

(** The property read [v[k]] (and [v.k]).  Of the inherited members only
    [length] is represented. *)
Definition get (v : value) (k : string) : result value :=
  match v with
  | VUndefined | VNull =>
      Throw (TypeError "cannot read properties of null or undefined")
  | VBool _ | VNumber _ => Ok VUndefined
  | VString s =>
      if String.eqb k "length"
      then Ok (VNumber (Z.of_nat (List.length (units s))))
      else match nth_item (units s) k with
           | Some c => Ok (VString c)
           | None => Ok VUndefined
           end
  | VArray items =>
      if String.eqb k "length" then Ok (VNumber (Z.of_nat (List.length items)))
      else match nth_item items k with
           | Some x => Ok x
           | None => Ok VUndefined
           end
  | VObject props =>
      match JsObject.get k props with
      | Some x => Ok x
      | None => Ok VUndefined
      end
  end.

(** The own enumerable property names, in creation order *)
Definition own_names (v : value) : list string :=
  match v with
  | VString s => map show_nat (seq 0 (List.length (units s)))
  | VArray items => map show_nat (seq 0 (List.length items))
  | VObject props => map fst props
  | _ => []
  end.

(** [Object.keys(v)] *)
Definition Object_keys (v : value) : result (list string) :=
  match v with
  | VUndefined | VNull =>
      Throw (TypeError "cannot convert undefined or null to object")
  | _ => Ok (JsObject.own_order (fun k => k) (own_names v))
  end.

(** The items a [for (const p of v)] loop visits *)
Definition iterate (v : value) : result (list value) :=
  match v with
  | VArray items => Ok items
  | VString s => Ok (map VString (chars s))
  | _ => Throw (TypeError "value is not iterable")
  end.

End JsValue.

(* ================================================================== *)
(** * The runtime around the handler *)
(* ================================================================== *)

(** The child processes the handler spawns, by what they are asked to do:
    - [DockerRmByName n]: [docker ps -a --filter name=^n$ --format
      {{.Names}} | xargs -r docker rm -f], through bash;
    - [DockerPsPorts]: [docker ps --format {{.Names}}:::{{.Ports}}],
      through bash;
    - [DockerComposeUp f d]: [docker compose -f f up -d --build] in the
      directory [d];
    - [DockerPortOf s]: [docker ps --filter name=s --format {{.Names}} |
      xargs -r -I {} docker port {}], through bash. *)
Inductive command : Type :=
| DockerRmByName (name : string)
| DockerPsPorts
| DockerComposeUp (composePath cwd : string)
| DockerPortOf (service : string).

(** What a child process delivers: the [data] events of its two streams
    in the order of their arrival, then [close] with the exit code
    ([None] for the [null] of a process ended by a signal). *)
Inductive chunk : Type :=
| Stdout (data : string)
| Stderr (data : string).

Record completed : Type := { chunks : list chunk; code : option Z }.

Fixpoint stdout_of (cs : list chunk) : string :=
  match cs with
  | [] => EmptyString
  | Stdout d :: tl => d ++ stdout_of tl
  | Stderr _ :: tl => stdout_of tl
  end.

(** The collaborators of the handler: the [path] and [fs] modules, the
    YAML loader ([import('js-yaml')], [readFileSync] and [yaml.load]
    together: a document or the exception of any of the three) and the
    process facility with the container runtime behind it.  A spawned
    process runs to its [close]; it may change the world. *)
Record Runtime : Type := {
  World : Type;
  path_join : string -> string -> string;
  path_basename : string -> string;
  existsSync : World -> string -> bool;
  load_yaml : World -> string -> result value;
  spawn : command -> World -> World * completed;
}.

Record SvcInfo : Type := {
  service : string;
  containerName : value;
  expectedHostPorts : list string;
}.

Record PortBinding : Type := { hostPort : string; containerPort : string }.

Definition Ports : Type := JsObject.t (list PortBinding).

Record Output : Type := { webUrl : string; ports : Ports }.

Record Input : Type := { composeFile : string; workDir : option string }.

(** The calls of [ctx.logger], one message per call site with the values
    it interpolates. *)
Inductive level : Type := Info | Warn | Err.

Inductive message : Type :=
| ComposeFile (composePath : string)
| DetectedServices (serviceNames : list string)
| FailedToParse (err : exn)
| ServiceCleanupInfo (svcInfos : list SvcInfo)
| RemovingByName (containerName : string)
| RM (data : string)
| RM_ERR (data : string)
| CheckingPortConflict (port : string)
| HostPortInUse (port container : string)
| StartingCompose
| DOCKER_OUT (data : string)
| DOCKER_WARN (data : string)
| DOCKER_ERR (data : string)
| ComposeSucceeded
| ComposeExited (code : option Z)
| ExposedPorts (ports : Ports)
| ApplicationAvailable (webUrl : string).

(** What an invocation does, in order: log calls, processes spawned and
    closed, and the values handed to [ctx.output]. *)
Inductive event : Type :=
| Log (lvl : level) (msg : message)
| Spawn (cmd : command)
| Close (cmd : command) (code : option Z)
| OutputPorts (ports : Ports)
| OutputWebUrl (webUrl : string).

(* ================================================================== *)
(** * The pure parts of the handler *)
(* ================================================================== *)

Definition bind_result {A B} (r : result A) (f : A -> result B) : result B :=
  match r with
  | Ok a => f a
  | Throw e => Throw e
  end.

Notation "x <-? r ;; k" := (bind_result r (fun x => k))
  (at level 61, r at next level, right associativity).

(** [parts = p.split(':')] and the test [parts.length >= 2]: the first
    segment, when there are two or more. *)
Definition declaredHostPort (spec : string) : option string :=
  let parts := split spec ":" in
  if (2 <=? List.length parts)%nat then hd_error parts else None.

(** The loop over [def.ports], which pushes onto [expectedHostPorts] *)
Fixpoint pushHostPorts (ps : list value) (acc : list string)
  : result (list string) :=
  match ps with
  | [] => Ok acc
  | p :: tl =>
      s <-? JsValue.toString p ;;
      match declaredHostPort s with
      | Some h => pushHostPorts tl (acc ++ [h])%list
      | None => pushHostPorts tl acc
      end
  end.

(** One turn of the loop that fills [svcInfos] *)
Definition svcInfoOf (composeDirName : string) (composeDoc : value)
    (service : string) : result SvcInfo :=
  services <-? JsValue.get composeDoc "services" ;;
  def <-? JsValue.get services service ;;
  container_name <-? JsValue.get def "container_name" ;;
  let containerName :=
    if JsValue.truthy container_name then container_name
    else VString (composeDirName ++ "_" ++ service ++ "_1") in
  ports <-? JsValue.get def "ports" ;;
  expectedHostPorts <-?
    (if JsValue.truthy ports
     then ps <-? JsValue.iterate ports ;; pushHostPorts ps []
     else Ok []) ;;
  Ok {| service := service;
        containerName := containerName;
        expectedHostPorts := expectedHostPorts |}.

Fixpoint buildSvcInfos (composeDirName : string) (composeDoc : value)
    (serviceNames : list string) : result (list SvcInfo) :=
  match serviceNames with
  | [] => Ok []
  | service :: tl =>
      info <-? svcInfoOf composeDirName composeDoc service ;;
      rest <-? buildSvcInfos composeDirName composeDoc tl ;;
      Ok (info :: rest)
  end.

(** The test on one line of [docker ps --format {{.Names}}:::{{.Ports}}]:
    [[name, ports] = line.split(':::')] and
    [ports && ports.includes(`${port}->`)]. *)
Definition lineName (line : string) : string :=
  hd EmptyString (split line ":::").

Definition linePorts (line : string) : option string :=
  nth_error (split line ":::") 1.

Definition conflicts (port : string) (portsText : string) : bool :=
  negb (String.eqb portsText EmptyString) && includes portsText (port ++ "->").

Definition lineConflicts (port line : string) : bool :=
  match linePorts line with
  | Some portsText => conflicts port portsText
  | None => false
  end.

(** [results] of the [close] callback of the port check *)
Definition conflictingContainers (port out : string) : list string :=
  map lineName (filter (lineConflicts port) (split (trim out) newline)).

(** The longest prefix of characters satisfying [p], and the rest *)
Fixpoint span (p : ascii -> bool) (s : string) : string * string :=
  match s with
  | EmptyString => (EmptyString, EmptyString)
  | String c s' =>
      if p c then let (a, b) := span p s' in (String c a, b)
      else (EmptyString, s)
  end.

Fixpoint strip_prefix (p s : string) : option string :=
  match p, s with
  | EmptyString, _ => Some s
  | String _ _, EmptyString => None
  | String a p', String b s' =>
      if Ascii.eqb a b then strip_prefix p' s' else None
  end.

(** [line.match(/^(\d+)\/tcp -> [^:]+:(\d+)$/)]: the two groups of a
    match.  Each repetition is followed by a character it cannot take, so
    the match, when there is one, takes the longest run at each: digits,
    the literal, characters other than a colon, a colon, and digits to
    the end of the line. *)
Definition matchPortLine (line : string) : option (string * string) :=
  let (g1, r1) := span is_digit line in
  if String.eqb g1 EmptyString then None else
  match strip_prefix "/tcp -> " r1 with
  | None => None
  | Some r2 =>
      let (addr, r3) := span (fun c => negb (is_colon c)) r2 in
      if String.eqb addr EmptyString then None else
      match r3 with
      | String c g2 =>
          if is_colon c && negb (String.eqb g2 EmptyString) && all_digits g2
          then Some (g1, g2) else None
      | EmptyString => None
      end
  end.

(** The body of the [forEach] over the lines of [docker port] *)
Definition parsePortLine (line : string) : option PortBinding :=
  if String.eqb (trim line) EmptyString then None
  else match matchPortLine line with
       | Some (g1, g2) => Some {| hostPort := g2; containerPort := g1 |}
       | None => None
       end.

Fixpoint collect {A B} (f : A -> option B) (l : list A) : list B :=
  match l with
  | [] => []
  | x :: tl =>
      match f x with
      | Some y => y :: collect f tl
      | None => collect f tl
      end
  end.

(** [mappings] of the [close] callback of the port query *)
Definition parseMappings (output : string) : list PortBinding :=
  collect parsePortLine (split output newline).

(** Step 5: the first entry with a mapping gives the URL *)
Fixpoint pickWebUrl (entries : list (string * list PortBinding)) : string :=
  match entries with
  | [] => EmptyString
  | (_, mappings) :: tl =>
      match mappings with
      | first :: _ => "http://localhost:" ++ hostPort first
      | [] => pickWebUrl tl
      end
  end.

(** [`${code}`] *)
Definition showCode (code : option Z) : string :=
  match code with
  | Some n => show_Z n
  | None => "null"
  end.

(* ================================================================== *)
(** * The handler *)
(* ================================================================== *)

Section Handler.

Context (rt : Runtime).

(** A computation of the handler: from the world it finds, the world it
    leaves, the events it caused, and a value or the exception thrown. *)
Definition M (A : Type) : Type :=
  World rt -> World rt * list event * result A.

Definition ret {A} (a : A) : M A := fun w => (w, [], Ok a).

Definition throw {A} (e : exn) : M A := fun w => (w, [], Throw e).

Definition bind {A B} (m : M A) (f : A -> M B) : M B :=
  fun w =>
    match m w with
    | (w1, ev1, Ok a) =>
        match f a w1 with
        | (w2, ev2, r) => (w2, (ev1 ++ ev2)%list, r)
        end
    | (w1, ev1, Throw e) => (w1, ev1, Throw e)
    end.

Notation "x <- m ;; k" := (bind m (fun x => k))
  (at level 61, m at next level, right associativity).
Notation "m ;; k" := (bind m (fun _ => k))
  (at level 61, right associativity).
Notation "' pat <- m ;; k" :=
  (bind m (fun x => match x with pat => k end))
  (at level 61, pat pattern, m at next level, right associativity).

Definition lift {A} (r : result A) : M A := fun w => (w, [], r).

Definition emit (e : event) : M unit := fun w => (w, [e], Ok tt).

(** Looking at the world: a value, or a call that may throw *)
Definition observe {A} (f : World rt -> A) : M A :=
  fun w => (w, [], Ok (f w)).

Definition attempt {A} (f : World rt -> result A) : M A :=
  fun w => (w, [], f w).

(** The process itself, from start to exit *)
Definition exec (cmd : command) : M completed :=
  fun w => let (w', c) := spawn rt cmd w in (w', [], Ok c).

Definition log (lvl : level) (msg : message) : M unit := emit (Log lvl msg).

(** [try { m } catch (err) { h err }] *)
Definition try_catch {A} (m : M A) (h : exn -> M A) : M A :=
  fun w =>
    match m w with
    | (w1, ev1, Throw e) =>
        match h e w1 with
        | (w2, ev2, r) => (w2, (ev1 ++ ev2)%list, r)
        end
    | done => done
    end.

Fixpoint for_each {A} (l : list A) (body : A -> M unit) : M unit :=
  match l with
  | [] => ret tt
  | x :: tl => body x ;; for_each tl body
  end.

(** A child process from [spawn] to [close]: [on_chunk] is what the
    [data] listeners do with each chunk. *)
Definition run (cmd : command) (on_chunk : chunk -> M unit) : M completed :=
  emit (Spawn cmd) ;;
  done <- exec cmd ;;
  for_each (chunks done) on_chunk ;;
  emit (Close cmd (code done)) ;;
  ret done.

(** ** Step 1: the services of the compose file *)

(** The [try] block leaves [serviceNames] and [composeDoc] as they were
    when an exception left it. *)
Definition readManifest (composePath : string) : M (list string * value) :=
  try_catch
    (composeDoc <- attempt (fun w => load_yaml rt w composePath) ;;
     try_catch
       (services <- lift (JsValue.get composeDoc "services") ;;
        if JsValue.truthy services
        then
          serviceNames <- lift (JsValue.Object_keys services) ;;
          log Info (DetectedServices serviceNames) ;;
          ret (serviceNames, composeDoc)
        else ret ([], composeDoc))
       (fun err =>
          log Warn (FailedToParse err) ;;
          ret ([], composeDoc)))
    (fun err =>
       log Warn (FailedToParse err) ;;
       ret ([], VObject [])).

(** ** Step 2: remove containers by name and by port *)

Definition removeContainer (name : value) : M unit :=
  shown <- lift (JsValue.ToString name) ;;
  run (DockerRmByName shown)
      (fun c => match c with
                | Stdout d => log Info (RM d)
                | Stderr d => log Warn (RM_ERR d)
                end) ;;
  ret tt.

Definition removeByName (svcInfos : list SvcInfo) : M unit :=
  for_each svcInfos (fun svc =>
    shown <- lift (JsValue.ToString (containerName svc)) ;;
    log Info (RemovingByName shown) ;;
    removeContainer (containerName svc)).

Definition checkPort (port : string) : M unit :=
  log Info (CheckingPortConflict port) ;;
  done <- run DockerPsPorts (fun _ => ret tt) ;;
  for_each (conflictingContainers port (stdout_of (chunks done)))
    (fun container =>
       log Warn (HostPortInUse port container) ;;
       removeContainer (VString container)).

Definition removeByPort (svcInfos : list SvcInfo) : M unit :=
  for_each svcInfos (fun svc =>
    for_each (expectedHostPorts svc) checkPort).

(** ** Step 3: docker compose up *)

Definition composeUp (composePath cwd : string) : M unit :=
  log Info StartingCompose ;;
  done <- run (DockerComposeUp composePath cwd)
            (fun c => match c with
                      | Stdout d => log Info (DOCKER_OUT d)
                      | Stderr d =>
                          if includes d "Creating" || includes d "Created"
                             || includes d "level=warning"
                          then log Warn (DOCKER_WARN d)
                          else log Warn (DOCKER_ERR d)
                      end) ;;
  match code done with
  | Some 0%Z => log Info ComposeSucceeded
  | other =>
      log Err (ComposeExited other) ;;
      throw (Error ("docker compose up exited with code " ++ showCode other))
  end.

(** ** Step 4: the exposed ports *)

Definition inspectService (service : string) : M (list PortBinding) :=
  done <- run (DockerPortOf service)
            (fun c => match c with
                      | Stdout _ => ret tt
                      | Stderr d => log Warn (DOCKER_WARN d)
                      end) ;;
  ret (parseMappings (stdout_of (chunks done))).

Fixpoint detectPorts (serviceNames : list string) (ports : Ports) : M Ports :=
  match serviceNames with
  | [] => ret ports
  | service :: tl =>
      mappings <- inspectService service ;;
      detectPorts tl (JsObject.set service mappings ports)
  end.

(** ** The handler *)

(** [ctx.input.workDir ?? ctx.workspacePath] and the path of the compose
    file in it *)
Definition cwdOf (input : Input) (workspacePath : string) : string :=
  match workDir input with
  | Some d => d
  | None => workspacePath
  end.

Definition composePathOf (input : Input) (workspacePath : string) : string :=
  path_join rt (cwdOf input workspacePath) (composeFile input).

Definition handler (input : Input) (workspacePath : string) : M Output :=
  let cwd := cwdOf input workspacePath in
  let composePath := composePathOf input workspacePath in
  log Info (ComposeFile composePath) ;;
  found <- observe (fun w => existsSync rt w composePath) ;;
  if negb found
  then throw (Error ("Compose file not found: " ++ composePath))
  else
    '(serviceNames, composeDoc) <- readManifest composePath ;;
    let composeDirName := path_basename rt cwd in
    svcInfos <- lift (buildSvcInfos composeDirName composeDoc serviceNames) ;;
    log Info (ServiceCleanupInfo svcInfos) ;;
    removeByName svcInfos ;;
    removeByPort svcInfos ;;
    composeUp composePath cwd ;;
    ports <- detectPorts serviceNames JsObject.empty ;;
    log Info (ExposedPorts ports) ;;
    let webUrl := pickWebUrl (JsObject.entries ports) in
    emit (OutputPorts ports) ;;
    emit (OutputWebUrl webUrl) ;;
    log Info (ApplicationAvailable webUrl) ;;
    ret {| webUrl := webUrl; ports := ports |}.

End Handler.

Arguments ret {rt A} a.
Arguments throw {rt A} e.
Arguments bind {rt A B} m f.
Arguments lift {rt A} r.
Arguments emit {rt} e.
Arguments log {rt} lvl msg.
Arguments observe {rt A} f.
Arguments attempt {rt A} f.
Arguments try_catch {rt A} m h.
Arguments for_each {rt A} l body.

(* ================================================================== *)
(** * A runtime to run the handler on *)
(* ================================================================== *)

(** A small container runtime for running the handler on examples: the
    world holds what [yaml.load] gives for the compose file (if the file
    exists), the running containers with their port texts, whether a
    removal takes effect, the exit code of [docker compose up] and the
    text [docker port] prints for each service. *)
Module Sim.

Record world : Type := {
  manifest : option (result value);
  running : list (string * string);
  removalWorks : bool;
  upCode : option Z;
  portText : string -> string;
}.

Definition psLine (c : string * string) : string := fst c ++ ":::" ++ snd c.

Definition remove (n : string) (w : world) : world :=
  {| manifest := manifest w;
     running := if removalWorks w
                then filter (fun c => negb (String.eqb (fst c) n)) (running w)
                else running w;
     removalWorks := removalWorks w;
     upCode := upCode w;
     portText := portText w |}.

Definition sim_spawn (cmd : command) (w : world) : world * completed :=
  match cmd with
  | DockerRmByName n =>
      (remove n w,
       {| chunks := if removalWorks w then [] else [Stderr "removal failed"];
          code := Some 0%Z |})
  | DockerPsPorts =>
      (w, {| chunks := [Stdout (join newline (map psLine (running w)) ++ newline)];
             code := Some 0%Z |})
  | DockerComposeUp _ _ => (w, {| chunks := []; code := upCode w |})
  | DockerPortOf s => (w, {| chunks := [Stdout (portText w s)]; code := Some 0%Z |})
  end.

Definition runtime : Runtime := {|
  World := world;
  path_join := fun d f => d ++ "/" ++ f;
  path_basename := fun d => last (split d "/") EmptyString;
  existsSync := fun w _ => match manifest w with Some _ => true | None => false end;
  load_yaml := fun w _ => match manifest w with
                          | Some r => r
                          | None => Throw (Foreign "ENOENT")
                          end;
  spawn := sim_spawn;
|}.

End Sim.

(* ================================================================== *)
(** * Reading a run *)
(* ================================================================== *)

Definition world_of {W A} (x : W * list event * result A) : W := fst (fst x).
Definition events_of {W A} (x : W * list event * result A) : list event :=
  snd (fst x).
Definition outcome_of {W A} (x : W * list event * result A) : result A :=
  snd x.

(** The service list stage 1 hands to the later stages *)
Definition stage1Names (rt : Runtime) (composePath : string) (w : World rt)
  : list string :=
  match outcome_of (readManifest rt composePath w) with
  | Ok (serviceNames, _) => serviceNames
  | Throw _ => []
  end.

(** The names of the removal attempts among some events, in order *)
Fixpoint removals (evs : list event) : list string :=
  match evs with
  | [] => []
  | Spawn (DockerRmByName n) :: tl => n :: removals tl
  | _ :: tl => removals tl
  end.

(** The services queried for their ports among some events, in order *)
Fixpoint portQueries (evs : list event) : list string :=
  match evs with
  | [] => []
  | Spawn (DockerPortOf s) :: tl => s :: portQueries tl
  | _ :: tl => portQueries tl
  end.

(** The removal attempts and port listings of stage 2 *)
Definition isCleanup (cmd : command) : bool :=
  match cmd with
  | DockerRmByName _ | DockerPsPorts => true
  | _ => false
  end.

(** The events of the stages before the launch: log calls and the
    processes of the clean-up *)
Definition beforeLaunch (e : event) : Prop :=
  match e with
  | Log _ _ => True
  | Spawn cmd | Close cmd _ => isCleanup cmd = true
  | _ => False
  end.

(** The events of the stages after the launch: log calls, outputs and
    port queries *)
Definition afterLaunch (e : event) : Prop :=
  match e with
  | Spawn (DockerPortOf _) | Close (DockerPortOf _) _ => True
  | Spawn _ | Close _ _ => False
  | _ => True
  end.

Definition isLog (e : event) : Prop :=
  match e with
  | Log _ _ => True
  | _ => False
  end.

Definition isWarning (e : event) : bool :=
  match e with
  | Log Warn _ => true
  | _ => false
  end.

(** The containers a listing shows with a port text, by the handler's
    own reading of its lines *)
Definition hasPorts (line : string) : bool :=
  match linePorts line with
  | Some portsText => negb (String.eqb portsText EmptyString)
  | None => false
  end.

Definition listedIn (out : string) : list string :=
  map lineName (filter hasPorts (split (trim out) newline)).

Definition listed (rt : Runtime) (w : World rt) : list string :=
  listedIn (stdout_of (chunks (snd (spawn rt DockerPsPorts w)))).

(** What [docker port] would print for a service in a world *)
Definition portOutput (rt : Runtime) (s : string) (w : World rt) : string :=
  stdout_of (chunks (snd (spawn rt (DockerPortOf s) w))).

(* ================================================================== *)
(** * The specification's readings, for comparison *)
(* ================================================================== *)

(** Following the specification's words ("that host port is currently
    forwarded by this container"): the host ports a port text of
    [docker ps] forwards.  The text lists mappings separated by a comma
    and a space; a mapping that forwards reads [address:hostPort->
    containerPort/protocol], and the host port is what stands between
    the last colon before the arrow and the arrow. *)
Definition forwardedHostPort (mapping : string) : option string :=
  match split mapping "->" with
  | host :: _ :: _ => Some (last (split host ":") EmptyString)
  | _ => None
  end.

Definition forwardedHostPorts (portsText : string) : list string :=
  collect forwardedHostPort (split portsText ", ").

Definition forwards (port portsText : string) : bool :=
  existsb (String.eqb port) (forwardedHostPorts portsText).

(** Following the specification's words ("the first service with a
    non-empty mapping sequence contributes ...; if none qualifies,
    [webUrl] is the empty string"), over the stage-1 service list. *)
Definition bindingsOf (ports : Ports) (service : string) : list PortBinding :=
  match JsObject.get service ports with
  | Some mappings => mappings
  | None => []
  end.

Fixpoint firstWebUrl (serviceNames : list string) (ports : Ports) : string :=
  match serviceNames with
  | [] => EmptyString
  | service :: tl =>
      match bindingsOf ports service with
      | firstMapping :: _ => "http://localhost:" ++ hostPort firstMapping
      | [] => firstWebUrl tl ports
      end
  end.

(** Following the specification's words ("manifest cannot be parsed or
    lacks a [services] key"), with the log call step 1 makes for each:
    a warning for what the loader threw; a warning for the [TypeError] of
    reading [services] from a document that is [null] or [undefined];
    nothing when the document has no [services] (or one that is not
    truthy). *)
Inductive withoutServices : result value -> list event -> Prop :=
| unparsed (err : exn) :
    withoutServices (Throw err) [Log Warn (FailedToParse err)]
| emptyDocument (composeDoc : value) (err : exn) :
    JsValue.get composeDoc "services" = Throw err ->
    withoutServices (Ok composeDoc) [Log Warn (FailedToParse err)]
| noServices (composeDoc services : value) :
    JsValue.get composeDoc "services" = Ok services ->
    JsValue.truthy services = false ->
    withoutServices (Ok composeDoc) [].

Definition isMapping (v : value) : bool :=
  match v with
  | VObject _ => true
  | _ => false
  end.

Definition nullish (v : value) : bool :=
  match v with
  | VUndefined | VNull => true
  | _ => false
  end.

(* ================================================================== *)
(** * The stages as equations *)
(* ================================================================== *)

(** The events and results of the stages, written out for the proofs. *)

(** What kind of events a computation causes *)
Definition produces (rt : Runtime) (P : event -> Prop) {A} (m : M rt A)
  : Prop :=
  forall w, Forall P (events_of (m w)).

(** The log calls and the variables the [try] block of step 1 leaves,
    from what the loader gave. *)
Definition manifestReading (loaded : result value)
  : list event * (list string * value) :=
  match loaded with
  | Throw err => ([Log Warn (FailedToParse err)], ([], VObject []))
  | Ok composeDoc =>
      match JsValue.get composeDoc "services" with
      | Throw err => ([Log Warn (FailedToParse err)], ([], composeDoc))
      | Ok services =>
          if JsValue.truthy services
          then match JsValue.Object_keys services with
               | Ok serviceNames =>
                   ([Log Info (DetectedServices serviceNames)],
                    (serviceNames, composeDoc))
               | Throw err =>
                   ([Log Warn (FailedToParse err)], ([], composeDoc))
               end
          else ([], ([], composeDoc))
      end
  end.

(** The log calls of the listeners of each kind of process *)
Definition launchLog (c : chunk) : list event :=
  match c with
  | Stdout d => [Log Info (DOCKER_OUT d)]
  | Stderr d =>
      if includes d "Creating" || includes d "Created"
         || includes d "level=warning"
      then [Log Warn (DOCKER_WARN d)]
      else [Log Warn (DOCKER_ERR d)]
  end.

Definition removalLog (c : chunk) : list event :=
  match c with
  | Stdout d => [Log Info (RM d)]
  | Stderr d => [Log Warn (RM_ERR d)]
  end.

Definition queryLog (c : chunk) : list event :=
  match c with
  | Stdout _ => []
  | Stderr d => [Log Warn (DOCKER_WARN d)]
  end.

(** The last four calls of a successful invocation *)
Definition closing (ports : Ports) : list event :=
  [Log Info (ExposedPorts ports);
   OutputPorts ports;
   OutputWebUrl (pickWebUrl (JsObject.entries ports));
   Log Info (ApplicationAvailable (pickWebUrl (JsObject.entries ports)))].

(** The warning and the removal for one container found in conflict *)
Definition removeFound (rt : Runtime) (port container : string) : M rt unit :=
  bind (log Warn (HostPortInUse port container))
       (fun _ => removeContainer rt (VString container)).

(** The mappings of a service are what one query printed for it. *)
Definition queried (rt : Runtime) (s : string) (m : list PortBinding) : Prop :=
  exists w, m = parseMappings (portOutput rt s w).

(** What the port pass is to attempt, from the listings alone: for each
    requested port in turn, the containers that the listing made at that
    moment shows in conflict, each of which is then removed before the
    next port is looked at. *)
Definition afterRemovals (rt : Runtime) (found : list string) (w : World rt)
  : World rt :=
  fold_left (fun w0 c => fst (spawn rt (DockerRmByName c) w0)) found w.

Fixpoint foundByPort (rt : Runtime) (requested : list string) (w : World rt)
  : list string :=
  match requested with
  | [] => []
  | port :: tl =>
      let listing := spawn rt DockerPsPorts w in
      let found :=
        conflictingContainers port (stdout_of (chunks (snd listing))) in
      (found ++ foundByPort rt tl (afterRemovals rt found (fst listing)))%list
  end.

(** What step 4 is to find, from the queries alone: for each service in
    turn, the mappings of what its query prints, the next query running
    in the world the one before leaves. *)
Fixpoint queriedMappings (rt : Runtime) (serviceNames : list string)
    (w : World rt) : list (list PortBinding) :=
  match serviceNames with
  | [] => []
  | s :: tl =>
      parseMappings (portOutput rt s w)
      :: queriedMappings rt tl (fst (spawn rt (DockerPortOf s) w))
  end.

(** The world in which step 4 starts: the one the two passes of the
    clean-up and then the launch leave. *)
Definition launchedWorld (rt : Runtime) (input : Input)
    (workspacePath : string) (w : World rt) : World rt :=
  let cwd := cwdOf input workspacePath in
  let composePath := composePathOf rt input workspacePath in
  match outcome_of (readManifest rt composePath w) with
  | Ok (serviceNames, composeDoc) =>
      match buildSvcInfos (path_basename rt cwd) composeDoc serviceNames with
      | Ok svcInfos =>
          world_of
            (composeUp rt composePath cwd
               (world_of
                  (removeByPort rt svcInfos
                     (world_of (removeByName rt svcInfos w)))))
      | Throw _ => w
      end
  | Throw _ => w
  end.

(** A stretch of the port pass from [w] to [w'], in a runtime whose
    worlds keep [Inv]: nothing is removed twice, and what is removed was
    listed before and is not after. *)
Definition stretch (rt : Runtime) (Inv : World rt -> Prop)
    (w : World rt) (evs : list event) (w' : World rt) : Prop :=
  Inv w' /\ incl (listed rt w') (listed rt w) /\
  NoDup (removals evs) /\
  forall n, In n (removals evs) ->
            In n (listed rt w) /\ ~ In n (listed rt w').

(* ================================================================== *)
(** * Documents and worlds of the examples *)
(* ================================================================== *)

Definition simWorld (loaded : result value) (upCode : option Z) : Sim.world :=
  {| Sim.manifest := Some loaded;
     Sim.running := [];
     Sim.removalWorks := true;
     Sim.upCode := upCode;
     Sim.portText := fun _ => EmptyString |}.

Definition simInput : Input :=
  {| composeFile := "docker-compose.yml"; workDir := None |}.

(** A compose file whose only service has no body: [services: {web:}]
    loads to a mapping with the value [null] for [web]. *)
Definition nullServiceDoc : value :=
  VObject [("services", VObject [("web", VNull)])].

(** The running container of the example: it forwards host port 8080
    and no other. *)
Definition web8080 : Sim.world :=
  {| Sim.manifest := None;
     Sim.running := [("web", "0.0.0.0:8080->80/tcp")];
     Sim.removalWorks := true;
     Sim.upCode := Some 0%Z;
     Sim.portText := fun _ => EmptyString |}.

(** One container on two requested ports *)
Definition bothPorts : string := "0.0.0.0:8080->80/tcp, 0.0.0.0:9090->90/tcp".

(** A container left from another run holds the two host ports the
    service asks for. *)
Definition oldWorld (removalWorks : bool) : Sim.world :=
  {| Sim.manifest := None;
     Sim.running := [("old", bothPorts)];
     Sim.removalWorks := removalWorks;
     Sim.upCode := Some 0%Z;
     Sim.portText := fun _ => EmptyString |}.

Definition twoPortService : SvcInfo :=
  {| service := "web";
     containerName := VString "proj_web_1";
     expectedHostPorts := ["8080"; "9090"] |}.

(** The worlds of the example: removals work, and the old container
    runs or is gone. *)
Definition oldOrGone (w : Sim.world) : Prop :=
  Sim.removalWorks w = true /\
  (Sim.running w = [("old", bothPorts)] \/ Sim.running w = []).

(** The scenario of two services: [api] publishes a port, [db] has a
    container name of its own and no port. *)
Definition apiDbDoc : value :=
  VObject
    [("services",
      VObject
        [("api", VObject [("ports", VArray [VString "3000:3000"])]);
         ("db", VObject [("container_name", VString "mydb")])])].

Definition apiDbWorld : Sim.world :=
  {| Sim.manifest := Some (Ok apiDbDoc);
     Sim.running := [];
     Sim.removalWorks := true;
     Sim.upCode := Some 0%Z;
     Sim.portText :=
       fun s => if String.eqb s "api"
                then "3000/tcp -> 0.0.0.0:32800" ++ newline
                else EmptyString |}.

(** A compose file whose first service is named [__proto__]: the name is
    a key of the mapping the loader gives, like any other.  Both
    services run, each with one published port. *)
Definition protoDoc : value :=
  VObject
    [("services",
      VObject
        [("__proto__", VObject [("image", VString "nginx")]);
         ("web", VObject [("image", VString "nginx")])])].

Definition protoWorld : Sim.world :=
  {| Sim.manifest := Some (Ok protoDoc);
     Sim.running := [];
     Sim.removalWorks := true;
     Sim.upCode := Some 0%Z;
     Sim.portText :=
       fun s => if String.eqb s "__proto__"
                then "80/tcp -> 0.0.0.0:32800" ++ newline
                else "80/tcp -> 0.0.0.0:32801" ++ newline |}.

Definition protoOut : Output :=
  {| webUrl := "http://localhost:32801";
     ports := [("web", [{| hostPort := "32801"; containerPort := "80" |}])] |}.

(** The same with a launch that ends with code 137 *)
Definition apiDbKilled : Sim.world :=
  {| Sim.manifest := Some (Ok apiDbDoc);
     Sim.running := [];
     Sim.removalWorks := true;
     Sim.upCode := Some 137%Z;
     Sim.portText := Sim.portText apiDbWorld |}.

Definition apiDbOut : Output :=
  {| webUrl := "http://localhost:32800";
     ports := [("api", [{| hostPort := "32800"; containerPort := "3000" |}]);
               ("db", [])] |}.

(* ================================================================== *)
(** * Counting what a run spawns *)
(* ================================================================== *)

(** The listings of running containers among some events *)
Fixpoint listings (evs : list event) : nat :=
  match evs with
  | [] => 0
  | Spawn DockerPsPorts :: tl => S (listings tl)
  | _ :: tl => listings tl
  end.

(** The launches of [docker compose up] among some events *)
Fixpoint launches (evs : list event) : nat :=
  match evs with
  | [] => 0
  | Spawn (DockerComposeUp _ _) :: tl => S (launches tl)
  | _ :: tl => launches tl
  end.

(** Anything but a call of [ctx.logger.error] *)
Definition belowError (e : event) : Prop :=
  match e with
  | Log Err _ => False
  | _ => True
  end.

(** A binding as the pattern of step 4 captures it: two non-empty runs
    of digits *)
Definition digitBinding (b : PortBinding) : Prop :=
  hostPort b <> "" /\ all_digits (hostPort b) = true /\
  containerPort b <> "" /\ all_digits (containerPort b) = true.

Definition isTypeError (e : exn) : Prop :=
  match e with
  | TypeError _ => True
  | _ => False
  end.

(** Induction on values, through the items of arrays and the values of
    the properties of objects *)
Section ValueInduction.

Context (P : value -> Prop).
Context (HUndefined : P VUndefined) (HNull : P VNull).
Context (HBool : forall b, P (VBool b)) (HNumber : forall z, P (VNumber z)).
Context (HString : forall s, P (VString s)).
Context (HArray : forall items, Forall P items -> P (VArray items)).
Context (HObject :
           forall props, Forall (fun kv => P (snd kv)) props ->
                         P (VObject props)).

Fixpoint value_rect_nested (v : value) : P v :=
  match v with
  | VUndefined => HUndefined
  | VNull => HNull
  | VBool b => HBool b
  | VNumber z => HNumber z
  | VString s => HString s
  | VArray items =>
      HArray items
        ((fix all (l : list value) : Forall P l :=
            match l with
            | [] => Forall_nil P
            | x :: tl => Forall_cons x (value_rect_nested x) (all tl)
            end) items)
  | VObject props =>
      HObject props
        ((fix all (l : list (string * value))
            : Forall (fun kv => P (snd kv)) l :=
            match l with
            | [] => Forall_nil _
            | kv :: tl =>
                Forall_cons kv (value_rect_nested (snd kv)) (all tl)
            end) props)
  end.

End ValueInduction.

(* ================================================================== *)
(** * The [shell:run] action *)
(* ================================================================== *)

(** The second action of the file, [createShellRunAction]: it runs one
    command in the workspace of the template. *)
Module ShellRun.

(** [ctx.input], each field present or not *)
Record Input : Type := {
  command : option string;
  args : option (list string);
  cwd : option string;
}.

(** What the handler does: its one log call, and the call of
    [executeShellCommand] with the command, its arguments and the
    working directory *)
Inductive event : Type :=
| Logged (message : string)
| Executed (command : string) (args : list string) (cwd : string).

(** The collaborators: [resolveSafeChildPath], which gives a path in the
    workspace or throws, and [executeShellCommand], which runs the
    command to its end and may throw. *)
Record Backend : Type := {
  State : Type;
  resolveSafeChildPath : string -> string -> result string;
  executeShellCommand :
    string -> list string -> string -> State -> State * result unit;
}.

Definition quote : string := String (ascii_of_nat 34) EmptyString.

(** [`shell:run requires a "command" input`] *)
Definition commandRequired : string :=
  "shell:run requires a " ++ quote ++ "command" ++ quote ++ " input".

(** [ctx.input.cwd ? resolveSafeChildPath(ctx.workspacePath, ctx.input.cwd)
    : ctx.workspacePath] *)
Definition resolveCwd (bk : Backend) (input : Input) (workspacePath : string)
  : result string :=
  match cwd input with
  | Some d =>
      if String.eqb d EmptyString then Ok workspacePath
      else resolveSafeChildPath bk workspacePath d
  | None => Ok workspacePath
  end.

Definition handler (bk : Backend) (input : Input) (workspacePath : string)
    (w : State bk) : State bk * list event * result unit :=
  match option_map trim (command input) with
  | None | Some EmptyString => (w, [], Throw (Error commandRequired))
  | Some cmd =>
      let args := match args input with
                  | Some a => a
                  | None => []
                  end in
      match resolveCwd bk input workspacePath with
      | Throw e => (w, [], Throw e)
      | Ok cwd =>
          let running :=
            Logged ("Running command: " ++ cmd ++ " " ++ join " " args
                    ++ " in " ++ cwd) in
          let (w', r) := executeShellCommand bk cmd args cwd w in
          (w', [running; Executed cmd args cwd], r)
      end
  end.

(** The commands executed among some events *)
Fixpoint executed (evs : list event) : list string :=
  match evs with
  | [] => []
  | Executed cmd _ _ :: tl => cmd :: executed tl
  | _ :: tl => executed tl
  end.

(** A backend to run the handler on: paths that start with a dot are
    refused, and a command succeeds unless it is [false]. *)
Definition sim : Backend := {|
  State := list string;
  resolveSafeChildPath := fun ws d =>
    if starts_with "." d then Throw (Foreign "NotAllowedError")
    else Ok (ws ++ "/" ++ d);
  executeShellCommand := fun cmd _ _ ran =>
    ((ran ++ [cmd])%list,
     if String.eqb cmd "false" then Throw (Foreign "exit code 1") else Ok tt);
|}.

(** A command of white space only, and one with white space around it:
    spaces, a tab and the no-break space U+00A0 *)
Definition nbsp : string :=
  String (ascii_of_nat 194) (String (ascii_of_nat 160) EmptyString).

Definition blanks : string :=
  " " ++ nbsp ++ String (ascii_of_nat 9) EmptyString.

Definition paddedEcho : string := blanks ++ "echo" ++ nbsp ++ " ".

End ShellRun.

(* ================================================================== *)
(** * Facts about strings *)
(* ================================================================== *)

#[local] Arguments Ascii.eqb : simpl never.
#[local] Arguments String.eqb : simpl never.

Section StringFacts.

Lemma append_nil_r (s : string) : s ++ "" = s.
Proof. induction s; simpl; congruence. Qed.

Lemma append_assoc (a b c : string) : (a ++ b) ++ c = a ++ (b ++ c).
Proof. induction a; simpl; congruence. Qed.

Lemma starts_with_refl (s : string) : starts_with s s = true.
Proof.
  induction s as [|a s IH]; simpl; [reflexivity|].
  now rewrite Ascii.eqb_refl, IH.
Qed.

Lemma includes_suffix (a b : string) : includes (a ++ b) b = true.
Proof.
  induction a as [|c a IH]; simpl.
  - destruct b; simpl; [reflexivity|].
    now rewrite Ascii.eqb_refl, starts_with_refl.
  - rewrite IH. apply orb_true_r.
Qed.

(** ** [split] on a colon *)

Lemma split_go_nonempty (sep : string) (k : nat) (s : string) :
  split_go sep k s <> [].
Proof.
  revert k. induction s as [|c s IH]; intros k; simpl; [discriminate|].
  destruct k; [|apply IH].
  destruct (starts_with sep (String c s)); [discriminate|].
  destruct (split_go sep 0 s); discriminate.
Qed.

Lemma split_colon_first (h rest : string) :
  no_colon h = true ->
  split (h ++ ":" ++ rest) ":" = h :: split rest ":".
Proof.
  unfold split, no_colon.
  induction h as [|c h IH]; simpl; intros H; [reflexivity|].
  apply andb_true_iff in H as [Hc Hh].
  unfold is_colon in Hc. rewrite Ascii.eqb_sym in Hc.
  apply negb_true_iff in Hc. rewrite Hc; simpl.
  specialize (IH Hh). simpl in IH. now rewrite IH.
Qed.

Lemma split_no_colon (s : string) :
  no_colon s = true -> split s ":" = [s].
Proof.
  unfold split, no_colon.
  induction s as [|c s IH]; simpl; intros H; [reflexivity|].
  apply andb_true_iff in H as [Hc Hs].
  unfold is_colon in Hc. rewrite Ascii.eqb_sym in Hc.
  apply negb_true_iff in Hc. rewrite Hc; simpl.
  now rewrite (IH Hs).
Qed.

(** The host part of [HOST:CONTAINER] is what is declared; a
    specification without a colon declares nothing. *)
Lemma declaredHostPort_first_segment (h rest : string) :
  no_colon h = true -> declaredHostPort (h ++ ":" ++ rest) = Some h.
Proof.
  intros H. unfold declaredHostPort. rewrite (split_colon_first h rest H).
  unfold split. destruct (split_go ":" 0 rest) eqn:E.
  - now apply split_go_nonempty in E.
  - reflexivity.
Qed.

Lemma declaredHostPort_no_colon (s : string) :
  no_colon s = true -> declaredHostPort s = None.
Proof.
  intros H. unfold declaredHostPort. now rewrite (split_no_colon s H).
Qed.

(** ** [span] and [strip_prefix] *)

Lemma span_app (p : ascii -> bool) (a b : string) :
  all_chars p a = true ->
  match b with EmptyString => true | String c _ => negb (p c) end = true ->
  span p (a ++ b) = (a, b).
Proof.
  intros Ha Hb. induction a as [|c a IH]; simpl in *.
  - destruct b as [|c b]; simpl; [reflexivity|].
    apply negb_true_iff in Hb. now rewrite Hb.
  - apply andb_true_iff in Ha as [Hc Ha]. now rewrite Hc, (IH Ha).
Qed.

Lemma span_inv (p : ascii -> bool) (s a b : string) :
  span p s = (a, b) ->
  s = a ++ b /\ all_chars p a = true /\
  match b with EmptyString => true | String c _ => negb (p c) end = true.
Proof.
  revert a b. induction s as [|c s IH]; simpl; intros a b H.
  - now inversion H.
  - destruct (p c) eqn:Hc.
    + destruct (span p s) as [a' b'] eqn:E. inversion H; subst.
      destruct (IH _ _ eq_refl) as (-> & Ha & Hb).
      simpl. now rewrite Hc, Ha.
    + inversion H; subst. simpl. now rewrite Hc.
Qed.

Lemma strip_prefix_app (p s : string) : strip_prefix p (p ++ s) = Some s.
Proof.
  induction p as [|a p IH]; simpl; [reflexivity|].
  now rewrite Ascii.eqb_refl.
Qed.

Lemma strip_prefix_inv (p s r : string) :
  strip_prefix p s = Some r -> s = p ++ r.
Proof.
  revert s. induction p as [|a p IH]; intros s H; simpl in *.
  - now inversion H.
  - destruct s as [|b s]; [discriminate|].
    destruct (Ascii.eqb a b) eqn:E; [|discriminate].
    apply Ascii.eqb_eq in E; subst. now rewrite (IH _ H).
Qed.

Lemma starts_with_iff (p s : string) :
  starts_with p s = true <-> exists post, s = p ++ post.
Proof.
  revert s. induction p as [|a p IH]; intros s; simpl.
  - split; [now exists s|reflexivity].
  - destruct s as [|b s]; [split; [discriminate|intros [? ?]; discriminate]|].
    rewrite andb_true_iff, Ascii.eqb_eq, IH. split.
    + intros [-> [post ->]]. now exists post.
    + intros [post E]. inversion E. split; [reflexivity|now exists post].
Qed.

Lemma string_length_app (a b : string) :
  String.length (a ++ b) = String.length a + String.length b.
Proof. induction a as [|c a IH]; simpl; [reflexivity|now rewrite IH]. Qed.

(** ** White space and [trim] *)

Lemma is_space_white (c : ascii) :
  is_space c = true -> In (String c "") white_space.
Proof.
  unfold is_space. intros H.
  rewrite <- (ascii_nat_embedding c).
  assert (R : nat_of_ascii c = 9 \/ nat_of_ascii c = 10 \/ nat_of_ascii c = 11
              \/ nat_of_ascii c = 12 \/ nat_of_ascii c = 13
              \/ nat_of_ascii c = 32).
  { apply orb_true_iff in H as [H|H].
    - apply Nat.eqb_eq in H. lia.
    - apply andb_true_iff in H as [H1 H2].
      apply Nat.leb_le in H1. apply Nat.leb_le in H2. lia. }
  destruct R as [R|[R|[R|[R|[R|R]]]]]; rewrite R; simpl; tauto.
Qed.

Lemma is_space2_white (c1 c2 : ascii) :
  is_space2 c1 c2 = true -> In (String c1 (String c2 "")) white_space.
Proof.
  unfold is_space2. intros H.
  apply andb_true_iff in H as [H1 H2].
  apply Nat.eqb_eq in H1. apply Nat.eqb_eq in H2.
  rewrite <- (ascii_nat_embedding c1), <- (ascii_nat_embedding c2), H1, H2.
  simpl. tauto.
Qed.

Lemma is_space3_white (c1 c2 c3 : ascii) :
  is_space3 c1 c2 c3 = true ->
  In (String c1 (String c2 (String c3 ""))) white_space.
Proof.
  unfold is_space3. intros H.
  rewrite <- (ascii_nat_embedding c1), <- (ascii_nat_embedding c2),
    <- (ascii_nat_embedding c3).
  repeat rewrite orb_true_iff in H. repeat rewrite andb_true_iff in H.
  repeat rewrite Nat.eqb_eq in H. repeat rewrite Nat.leb_le in H.
  destruct H as [[[[[[H1 H2] H3]|[[H1 H2] H3]]|[[H1 H2] H3]]
                  |[[H1 H2] H3]]|[[H1 H2] H3]];
    rewrite H1, H2; try (rewrite H3; simpl; tauto).
  assert (R : nat_of_ascii c3 = 128 \/ nat_of_ascii c3 = 129
              \/ nat_of_ascii c3 = 130 \/ nat_of_ascii c3 = 131
              \/ nat_of_ascii c3 = 132 \/ nat_of_ascii c3 = 133
              \/ nat_of_ascii c3 = 134 \/ nat_of_ascii c3 = 135
              \/ nat_of_ascii c3 = 136 \/ nat_of_ascii c3 = 137
              \/ nat_of_ascii c3 = 138 \/ nat_of_ascii c3 = 168
              \/ nat_of_ascii c3 = 169 \/ nat_of_ascii c3 = 175).
  { repeat rewrite orb_true_iff in H3. rewrite andb_true_iff in H3.
    repeat rewrite Nat.eqb_eq in H3. repeat rewrite Nat.leb_le in H3. lia. }
  repeat destruct R as [R|R]; rewrite R; simpl; tauto.
Qed.

Lemma white_nonempty (w : string) : In w white_space -> w <> "".
Proof.
  intros H E. subst w. simpl in H.
  repeat destruct H as [H|H]; try discriminate. exact H.
Qed.

Lemma trim_start_white (w s : string) :
  In w white_space -> trim_start (w ++ s) = trim_start s.
Proof.
  intros H. simpl in H.
  repeat destruct H as [H|H]; try (subst w; reflexivity). destruct H.
Qed.

Lemma trim_start_length (s : string) :
  String.length (trim_start s) <= String.length s.
Proof.
  assert (G : forall n s, String.length s <= n ->
                          String.length (trim_start s) <= String.length s).
  { clear s. induction n as [|n IH]; intros s L.
    - destruct s; [simpl; lia|simpl in L; lia].
    - destruct s as [|c1 r1]; [simpl; lia|].
      cbn [trim_start]. simpl in L.
      destruct (is_space c1).
      { specialize (IH r1 ltac:(lia)). simpl. lia. }
      destruct r1 as [|c2 r2]; [lia|].
      simpl in L.
      destruct (is_space2 c1 c2).
      { specialize (IH r2 ltac:(lia)). simpl. lia. }
      destruct r2 as [|c3 r3]; [lia|].
      simpl in L.
      destruct (is_space3 c1 c2 c3); [|lia].
      specialize (IH r3 ltac:(lia)). simpl. lia. }
  now apply (G (String.length s)).
Qed.

(** What [trimStart] takes off is white space, and what it leaves is a
    text it leaves alone. *)
Lemma trim_start_split (s : string) :
  exists pre, s = pre ++ trim_start s /\ blank pre /\
              trim_start (trim_start s) = trim_start s.
Proof.
  assert (G : forall n s, String.length s <= n ->
            exists pre, s = pre ++ trim_start s /\ blank pre /\
                        trim_start (trim_start s) = trim_start s).
  { clear s. induction n as [|n IH]; intros s L.
    - destruct s; [|simpl in L; lia].
      exists "". repeat split. constructor.
    - destruct s as [|c1 r1]; [exists ""; repeat split; constructor|].
      simpl in L.
      assert (Keep : forall t, trim_start (String c1 r1) = String c1 r1 ->
                t = String c1 r1 ->
                exists pre, t = pre ++ t /\ blank pre).
      { intros t _ _. exists "". split; [reflexivity|constructor]. }
      cbn [trim_start].
      destruct (is_space c1) eqn:E1.
      { destruct (IH r1 ltac:(lia)) as (pre & E & B & F).
        exists (String c1 "" ++ pre). split; [|split; [|exact F]].
        - simpl. now rewrite <- E.
        - apply blank_cons; [now apply is_space_white|exact B]. }
      destruct r1 as [|c2 r2].
      { exists "". split; [reflexivity|]. split; [constructor|].
        cbn [trim_start]. now rewrite E1. }
      simpl in L.
      destruct (is_space2 c1 c2) eqn:E2.
      { destruct (IH r2 ltac:(lia)) as (pre & E & B & F).
        exists (String c1 (String c2 "") ++ pre). split; [|split; [|exact F]].
        - simpl. now rewrite <- E.
        - apply blank_cons; [now apply is_space2_white|exact B]. }
      destruct r2 as [|c3 r3].
      { exists "". split; [reflexivity|]. split; [constructor|].
        cbn [trim_start]. now rewrite E1, E2. }
      simpl in L.
      destruct (is_space3 c1 c2 c3) eqn:E3.
      { destruct (IH r3 ltac:(lia)) as (pre & E & B & F).
        exists (String c1 (String c2 (String c3 "")) ++ pre).
        split; [|split; [|exact F]].
        - simpl. now rewrite <- E.
        - apply blank_cons; [now apply is_space3_white|exact B]. }
      exists "". split; [reflexivity|]. split; [constructor|].
      cbn [trim_start]. now rewrite E1, E2, E3. }
  now apply (G (String.length s)).
Qed.

(** A text [trimStart] leaves alone starts with no white space. *)
Lemma trim_start_kept (t w : string) :
  trim_start t = t -> In w white_space -> starts_with w t = false.
Proof.
  intros F H. destruct (starts_with w t) eqn:E; [|reflexivity].
  apply starts_with_iff in E as [rest ->].
  pose proof (trim_start_length rest) as L.
  rewrite <- (trim_start_white w rest H), F, string_length_app in L.
  pose proof (white_nonempty w H) as N.
  destruct w; [now elim N|]. simpl in L. lia.
Qed.

Lemma blank_trim_start (s : string) : blank s -> trim_start s = "".
Proof.
  induction 1 as [|w s H _ IH]; [reflexivity|].
  now rewrite trim_start_white.
Qed.

Lemma all_space_blank (s : string) : all_space s = true <-> blank s.
Proof.
  unfold all_space. split.
  - intros H. destruct (trim_start_split s) as (pre & E & B & _).
    destruct (trim_start s); [|discriminate].
    rewrite append_nil_r in E. now subst.
  - intros B. now rewrite (blank_trim_start s B).
Qed.

Lemma blank_app (a b : string) : blank a -> blank b -> blank (a ++ b).
Proof.
  induction 1 as [|w s H _ IH]; intros B; [exact B|].
  rewrite append_assoc. apply blank_cons; [exact H|now apply IH].
Qed.

(** What [trimEnd] takes off is white space. *)
Lemma trim_end_split (s : string) :
  exists post, s = trim_end s ++ post /\ blank post.
Proof.
  induction s as [|c s (post & E & B)].
  - exists "". split; [reflexivity|constructor].
  - cbn [trim_end]. destruct (all_space (String c s)) eqn:A.
    + exists (String c s). split; [reflexivity|now apply all_space_blank].
    + exists post. split; [simpl; now rewrite <- E|exact B].
Qed.

(** What [trimEnd] leaves ends with no white space. *)
Lemma trim_end_kept (s a w : string) :
  In w white_space -> trim_end s <> a ++ w.
Proof.
  intros H. revert a. induction s as [|c s IH]; intros a E.
  - simpl in E. destruct a; [|discriminate].
    simpl in E. now apply (white_nonempty w H).
  - cbn [trim_end] in E. destruct (all_space (String c s)) eqn:A.
    + destruct a; [|discriminate]. simpl in E.
      now apply (white_nonempty w H).
    + destruct a as [|c' a].
      * simpl in E.
        destruct (trim_end_split s) as (post & Es & B).
        assert (W : blank (String c s)).
        { rewrite Es.
          change (String c (trim_end s ++ post))
            with (String c (trim_end s) ++ post).
          rewrite E. apply blank_cons; [exact H|exact B]. }
        apply all_space_blank in W. congruence.
      * simpl in E. inversion E. now apply (IH a).
Qed.

Lemma ends_with_inv (p s : string) :
  ends_with p s = true -> exists a, s = a ++ p.
Proof.
  induction s as [|c s IH]; simpl; intros H.
  - rewrite orb_false_r in H. apply String.eqb_eq in H. subst. now exists "".
  - apply orb_true_iff in H as [H|H].
    + apply String.eqb_eq in H. subst. now exists "".
    + destruct (IH H) as [a ->]. now exists (String c a).
Qed.

(** [trim] cuts white space off both ends and leaves none there. *)
Lemma trim_spec (s : string) :
  exists pre post,
    s = pre ++ trim s ++ post /\ blank pre /\ blank post /\
    trimmed (trim s) = true.
Proof.
  unfold trim.
  destruct (trim_start_split s) as (pre & E & B & F).
  destruct (trim_end_split (trim_start s)) as (post & E' & B').
  exists pre, post. split; [|split; [exact B|split; [exact B'|]]].
  - now rewrite <- E'.
  - unfold trimmed. apply forallb_forall. intros w H.
    apply andb_true_iff. split; apply negb_true_iff.
    + destruct (starts_with w (trim_end (trim_start s))) eqn:S; [|reflexivity].
      apply starts_with_iff in S as [rest S].
      rewrite S, append_assoc in E'.
      rewrite <- (trim_start_kept (trim_start s) w F H).
      symmetry. apply starts_with_iff. eexists. exact E'.
    + destruct (ends_with w (trim_end (trim_start s))) eqn:S; [|reflexivity].
      apply ends_with_inv in S as [a S].
      now elim (trim_end_kept (trim_start s) a w H).
Qed.

Lemma trim_blank (s : string) : blank s -> trim s = "".
Proof.
  intros B. unfold trim. now rewrite (blank_trim_start s B).
Qed.

Lemma trim_empty_blank (s : string) : trim s = "" -> blank s.
Proof.
  intros E. destruct (trim_spec s) as (pre & post & Es & B & B' & _).
  rewrite E in Es. simpl in Es. rewrite Es. now apply blank_app.
Qed.

Lemma is_digit_code (c : ascii) :
  is_digit c = true -> 48 <= nat_of_ascii c <= 57.
Proof.
  unfold is_digit. intros H. apply andb_true_iff in H as [H1 H2].
  apply Nat.leb_le in H1. apply Nat.leb_le in H2. lia.
Qed.

Lemma trim_start_digit (c : ascii) (s : string) :
  is_digit c = true -> trim_start (String c s) = String c s.
Proof.
  intros H. apply is_digit_code in H.
  assert (N : forall k, 57 < k -> (nat_of_ascii c =? k)%nat = false).
  { intros k L. apply Nat.eqb_neq. lia. }
  assert (E1 : is_space c = false).
  { unfold is_space. apply orb_false_iff. split.
    - apply Nat.eqb_neq. lia.
    - apply andb_false_iff. right. apply Nat.leb_gt. lia. }
  cbn [trim_start]. rewrite E1.
  destruct s as [|c2 r2]; [reflexivity|].
  unfold is_space2. rewrite (N 194) by lia. cbn [andb].
  destruct r2 as [|c3 r3]; [reflexivity|].
  unfold is_space3.
  rewrite (N 225), (N 226), (N 227), (N 239) by lia. reflexivity.
Qed.

Lemma trim_digit_first (c : ascii) (s : string) :
  is_digit c = true -> trim (String c s) <> "".
Proof.
  intros H. unfold trim. rewrite (trim_start_digit c s H).
  cbn [trim_end]. unfold all_space. rewrite (trim_start_digit c s H).
  discriminate.
Qed.

(** ** Numbers in texts *)

(** An integer below [2^53] prints with all its digits. *)
Lemma show_number_safe (z : Z) :
  (Z.abs z < 2 ^ 53)%Z -> show_number z = show_Z z.
Proof.
  intros H. apply Z.ltb_lt in H. unfold show_number, nearest_double.
  now rewrite H, H.
Qed.

(** Beyond, a number prints as the double it is: [2^53 + 1] is [2^53],
    [2^60] has its sixteen digits and zeros, and from [10^21] on there is
    an exponent. *)
Example show_number_doubles :
  map show_number
    [8080; -1; 9007199254740993; 1152921504606846976; 10 ^ 21;
     123456789012345678901234567890]%Z
  = ["8080"; "-1"; "9007199254740992"; "1152921504606847000"; "1e+21";
     "1.2345678901234568e+29"].
Proof. vm_compute. reflexivity. Qed.

End StringFacts.

(* ================================================================== *)
(** * Facts about objects and the order of their keys *)
(* ================================================================== *)

Module JsObjectFacts.
Import JsObject.

Section Order.

Context {A : Type} (key : A -> string).

#[local] Abbreviation le_index := (le_index key).
#[local] Abbreviation own_ordered := (own_ordered key).

Lemma insert_index_In (x y : A) (l : list A) :
  In y (insert_index key x l) <-> y = x \/ In y l.
Proof.
  induction l as [|z l IH]; simpl.
  - intuition.
  - destruct (index_value (key x) <=? index_value (key z))%N; simpl.
    + intuition.
    + rewrite IH. intuition.
Qed.

Lemma sort_index_In (y : A) (l : list A) :
  In y (sort_index key l) <-> In y l.
Proof.
  induction l as [|z l IH]; simpl; [tauto|].
  rewrite insert_index_In, IH. intuition.
Qed.

Lemma sort_index_Forall (P : A -> Prop) (l : list A) :
  Forall P l -> Forall P (sort_index key l).
Proof.
  rewrite !Forall_forall. intros H y Hy. apply H.
  now apply sort_index_In.
Qed.

Lemma insert_index_least (x : A) (l : list A) :
  Forall (le_index x) l -> insert_index key x l = x :: l.
Proof.
  destruct l as [|z l]; simpl; [reflexivity|].
  intros H. inversion H as [|? ? Hz _]; subst.
  unfold le_index in Hz. apply N.leb_le in Hz. now rewrite Hz.
Qed.

(** What is already in order is left as it is. *)
Lemma own_order_fixed (l : list A) : own_ordered l -> own_order key l = l.
Proof.
  unfold own_order. induction 1 as [l H|x l Hx Hle Hl IH].
  - induction H as [|x l Hx H IH]; simpl; [reflexivity|].
    rewrite Hx; simpl. simpl in IH.
    destruct (sort_index key (filter (fun x => is_index (key x)) l)) eqn:E.
    + simpl in *. now rewrite IH.
    + exfalso.
      assert (Hin : In a (filter (fun x => is_index (key x)) l)).
      { apply sort_index_In. rewrite E. now left. }
      apply filter_In in Hin as [Hin Hidx].
      rewrite Forall_forall in H. rewrite (H _ Hin) in Hidx. discriminate.
  - simpl. rewrite Hx; simpl.
    rewrite insert_index_least.
    + simpl. now rewrite IH.
    + apply Forall_forall. intros y Hy.
      apply sort_index_In, filter_In in Hy as [Hy Hidx].
      rewrite Forall_forall in Hle. now apply Hle.
Qed.

Lemma insert_index_ordered (x : A) (l : list A) :
  is_index (key x) = true ->
  Forall (fun y => is_index (key y) = true) l ->
  own_ordered l -> own_ordered (insert_index key x l).
Proof.
  intros Hx Hall Hl. induction Hl as [l H|z l Hz Hle Hl IH]; simpl.
  - destruct l as [|z l]; simpl.
    + apply oo_index; auto. now apply oo_names.
    + exfalso. inversion Hall; subst. inversion H; subst. congruence.
  - inversion Hall as [|? ? _ Hall']; subst.
    destruct (index_value (key x) <=? index_value (key z))%N eqn:E.
    + apply oo_index; auto.
      * constructor.
        -- intros _. now apply N.leb_le.
        -- rewrite Forall_forall in *. intros y Hy Hyi.
           apply N.leb_le in E. specialize (Hle y Hy Hyi).
           unfold le_index in *. lia.
      * now apply oo_index.
    + apply oo_index; auto.
      apply Forall_forall. intros y Hy Hyi.
      apply insert_index_In in Hy as [->|Hy].
      * apply N.leb_gt in E. unfold le_index. lia.
      * rewrite Forall_forall in Hle. now apply Hle.
Qed.

Lemma sort_index_ordered (l : list A) :
  Forall (fun y => is_index (key y) = true) l ->
  own_ordered (sort_index key l).
Proof.
  induction 1 as [|x l Hx H IH]; simpl.
  - apply oo_names. constructor.
  - apply insert_index_ordered; auto. now apply sort_index_Forall.
Qed.

Lemma own_ordered_app (s b : list A) :
  Forall (fun y => is_index (key y) = true) s ->
  own_ordered s ->
  Forall (fun y => is_index (key y) = false) b ->
  own_ordered (s ++ b).
Proof.
  intros Hs Ho Hb. induction Ho as [l H|x l Hx Hle Hl IH]; simpl.
  - destruct l as [|z l]; simpl; [now apply oo_names|].
    exfalso. inversion Hs; subst. inversion H; subst. congruence.
  - inversion Hs; subst. apply oo_index; auto.
    apply Forall_app. split; [assumption|].
    eapply Forall_impl; [|exact Hb]. simpl. intros y Hy Hy'. congruence.
Qed.

(** The order of own keys is an order in the above sense. *)
Lemma own_order_ordered (l : list A) : own_ordered (own_order key l).
Proof.
  unfold own_order. apply own_ordered_app.
  - apply sort_index_Forall, Forall_forall.
    intros y Hy. now apply filter_In in Hy.
  - apply sort_index_ordered, Forall_forall.
    intros y Hy. now apply filter_In in Hy.
  - apply Forall_forall. intros y Hy. apply filter_In in Hy as [_ Hy].
    now apply negb_true_iff.
Qed.

End Order.

(** Entries are in order as soon as their keys are. *)
Lemma own_ordered_keys {A} (key : A -> string) (l : list A) :
  own_ordered (fun k => k) (map key l) -> own_ordered key l.
Proof.
  remember (map key l) as ks eqn:E. intros H. revert l E.
  induction H as [ks H|k ks Hk Hle Hks IH]; intros l E.
  - apply oo_names. subst. now rewrite Forall_map in H.
  - destruct l as [|x l]; [discriminate|]. simpl in E.
    inversion E; subst. apply oo_index; auto.
    now rewrite Forall_map in Hle.
Qed.

Lemma get_In {A} (k : string) (o : t A) :
  get k o = None <-> ~ In k (map fst o).
Proof.
  induction o as [|[k' v] o IH]; simpl; [tauto|].
  destruct (String.eqb k k') eqn:E.
  - apply String.eqb_eq in E. subst. split; [discriminate|tauto].
  - apply String.eqb_neq in E. rewrite IH. intuition congruence.
Qed.

Lemma set_own_fresh {A} (k : string) (v : A) (o : t A) :
  ~ In k (map fst o) -> set_own k v o = (o ++ [(k, v)])%list.
Proof.
  induction o as [|[k' v'] o IH]; simpl; intros H; [reflexivity|].
  destruct (String.eqb k k') eqn:E.
  - apply String.eqb_eq in E. subst. exfalso. apply H. now left.
  - rewrite IH; [reflexivity|]. intros Hin. apply H. now right.
Qed.

(** A new key is added at the end, unless it is [__proto__]. *)
Lemma set_fresh {A} (k : string) (v : A) (o : t A) :
  k <> "__proto__" ->
  ~ In k (map fst o) -> set k v o = (o ++ [(k, v)])%list.
Proof.
  intros N H. unfold set.
  apply String.eqb_neq in N. rewrite N. cbn [andb].
  now apply set_own_fresh.
Qed.

Lemma set_own_keys {A} (k x : string) (v : A) (o : t A) :
  In x (map fst (set_own k v o)) -> x = k \/ In x (map fst o).
Proof.
  induction o as [|[k' v'] o IH]; simpl.
  - intros [<-|[]]. now left.
  - destruct (String.eqb k k'); simpl; intuition.
Qed.

(** No assignment makes a property named [__proto__]. *)
Lemma set_no_proto {A} (k : string) (v : A) (o : t A) :
  ~ In "__proto__" (map fst o) -> ~ In "__proto__" (map fst (set k v o)).
Proof.
  intros H. unfold set.
  destruct (String.eqb k "__proto__") eqn:E; cbn [andb].
  - apply String.eqb_eq in E. subst k. unfold has.
    apply get_In in H. rewrite H. cbn [negb]. now apply get_In.
  - apply String.eqb_neq in E. intros Hin.
    apply set_own_keys in Hin as [Hin|Hin]; [congruence|contradiction].
Qed.

(** An assignment to [__proto__] leaves the properties as they are. *)
Lemma set_proto {A} (v : A) (o : t A) :
  ~ In "__proto__" (map fst o) -> set "__proto__" v o = o.
Proof.
  intros H. unfold set, has.
  apply get_In in H. now rewrite H.
Qed.

Lemma get_app_fresh {A} (k : string) (o1 o2 : t A) :
  ~ In k (map fst o1) -> get k (o1 ++ o2)%list = get k o2.
Proof.
  induction o1 as [|[k' v'] o1 IH]; simpl; intros H; [reflexivity|].
  destruct (String.eqb k k') eqn:E.
  - apply String.eqb_eq in E. subst. exfalso. apply H. now left.
  - apply IH. intros Hin. apply H. now right.
Qed.

Lemma get_head {A} (k : string) (v : A) (o : t A) :
  get k ((k, v) :: o) = Some v.
Proof. simpl. now rewrite String.eqb_refl. Qed.

End JsObjectFacts.

(* ================================================================== *)
(** * Facts about the stages *)
(* ================================================================== *)

Section StageFacts.

Context (rt : Runtime).

#[local] Abbreviation produces := (produces rt).

Lemma produces_ret P {A} (a : A) : produces P (ret a).
Proof. intros w. constructor. Qed.

Lemma produces_throw P {A} (e : exn) : produces P (@throw rt A e).
Proof. intros w. constructor. Qed.

Lemma produces_lift P {A} (r : result A) : produces P (lift r).
Proof. intros w. constructor. Qed.

Lemma produces_observe P {A} (f : World rt -> A) : produces P (observe f).
Proof. intros w. constructor. Qed.

Lemma produces_attempt P {A} (f : World rt -> result A) :
  produces P (attempt f).
Proof. intros w. constructor. Qed.

Lemma produces_exec P (cmd : command) : produces P (exec rt cmd).
Proof.
  intros w. unfold exec, events_of. destruct (spawn rt cmd w). constructor.
Qed.

Lemma produces_emit (P : event -> Prop) (e : event) :
  P e -> produces P (emit e).
Proof. intros H w. now repeat constructor. Qed.

Lemma produces_bind P {A B} (m : M rt A) (f : A -> M rt B) :
  produces P m -> (forall a, produces P (f a)) -> produces P (bind m f).
Proof.
  intros Hm Hf w. unfold bind, events_of. specialize (Hm w).
  destruct (m w) as [[w1 e1] [a|e]]; [|exact Hm].
  specialize (Hf a w1). destruct (f a w1) as [[w2 e2] r].
  apply Forall_app. now split.
Qed.

Lemma produces_try_catch P {A} (m : M rt A) (h : exn -> M rt A) :
  produces P m -> (forall e, produces P (h e)) -> produces P (try_catch m h).
Proof.
  intros Hm Hh w. unfold try_catch, events_of. specialize (Hm w).
  destruct (m w) as [[w1 e1] [a|e]]; [exact Hm|].
  specialize (Hh e w1). destruct (h e w1) as [[w2 e2] r].
  apply Forall_app. now split.
Qed.

Lemma produces_for_each P {A} (l : list A) (body : A -> M rt unit) :
  (forall x, produces P (body x)) -> produces P (for_each l body).
Proof.
  intros H. induction l as [|x l IH]; simpl.
  - apply produces_ret.
  - apply produces_bind; auto.
Qed.

Lemma produces_run P (cmd : command) (on_chunk : chunk -> M rt unit) :
  P (Spawn cmd) -> (forall c, P (Close cmd c)) ->
  (forall c, produces P (on_chunk c)) ->
  produces P (run rt cmd on_chunk).
Proof.
  intros Hs Hc Hb. unfold run.
  apply produces_bind; [now apply produces_emit|intros _].
  apply produces_bind; [apply produces_exec|intros done].
  apply produces_bind; [now apply produces_for_each|intros _].
  apply produces_bind; [now apply produces_emit|intros _].
  apply produces_ret.
Qed.

Lemma produces_impl (P Q : event -> Prop) {A} (m : M rt A) :
  (forall e, P e -> Q e) -> produces P m -> produces Q m.
Proof. intros H Hm w. eapply Forall_impl; [exact H|apply Hm]. Qed.

End StageFacts.

(** The rules above, applied along the structure of a computation *)
Ltac produces_tac :=
  repeat (intros;
          match goal with
          | |- produces _ _ (log _ _) => apply produces_emit
          | |- produces _ _ (if ?b then _ else _) => destruct b
          | |- produces _ _ (match ?c with Stdout _ => _ | Stderr _ => _ end) =>
              destruct c
          | |- produces _ _ (match ?c with (_, _) => _ end) => destruct c
          | |- produces _ _ _ =>
              first [ apply produces_ret | apply produces_throw
                    | apply produces_lift | apply produces_observe
                    | apply produces_attempt | apply produces_exec
                    | apply produces_emit | apply produces_bind
                    | apply produces_try_catch | apply produces_for_each
                    | apply produces_run ]
          | |- beforeLaunch _ => exact I || reflexivity
          | |- afterLaunch _ => exact I
          | |- isLog _ => exact I
          end).

Section StageEvents.

Context (rt : Runtime).

Lemma readManifest_logs (composePath : string) :
  produces rt isLog (readManifest rt composePath).
Proof. unfold readManifest. produces_tac. Qed.

Lemma removeContainer_cleanup (name : value) :
  produces rt beforeLaunch (removeContainer rt name).
Proof. unfold removeContainer. produces_tac. Qed.

Lemma removeByName_cleanup (svcInfos : list SvcInfo) :
  produces rt beforeLaunch (removeByName rt svcInfos).
Proof.
  unfold removeByName. produces_tac.
Qed.

Lemma removeByPort_cleanup (svcInfos : list SvcInfo) :
  produces rt beforeLaunch (removeByPort rt svcInfos).
Proof.
  unfold removeByPort, checkPort. produces_tac.
Qed.

Lemma detectPorts_queries (serviceNames : list string) (ports : Ports) :
  produces rt afterLaunch (detectPorts rt serviceNames ports).
Proof.
  revert ports. induction serviceNames as [|s tl IH]; intros ports; simpl.
  - apply produces_ret.
  - apply produces_bind; [|intros m; apply IH].
    unfold inspectService. produces_tac.
Qed.

End StageEvents.

Section StageRuns.

Context (rt : Runtime).

(** ** Loops and processes whose listeners only log *)

Lemma for_each_pure {A} (g : A -> list event) (body : A -> M rt unit)
    (l : list A) :
  (forall x w, body x w = (w, g x, Ok tt)) ->
  forall w, for_each l body w = (w, flat_map g l, Ok tt).
Proof.
  intros H. induction l as [|x l IH]; intros w; simpl; [reflexivity|].
  unfold bind. now rewrite H, IH.
Qed.

Lemma run_eq (cmd : command) (on_chunk : chunk -> M rt unit)
    (g : chunk -> list event) :
  (forall c w, on_chunk c w = (w, g c, Ok tt)) ->
  forall w,
    run rt cmd on_chunk w =
    (fst (spawn rt cmd w),
     Spawn cmd :: (flat_map g (chunks (snd (spawn rt cmd w)))
                   ++ [Close cmd (code (snd (spawn rt cmd w)))])%list,
     Ok (snd (spawn rt cmd w))).
Proof.
  intros H w. unfold run, bind, emit, exec, ret.
  destruct (spawn rt cmd w) as [w' done]; simpl.
  rewrite (for_each_pure g on_chunk _ H). reflexivity.
Qed.

(** ** Step 1 never throws and leaves the world alone *)

Lemma readManifest_eq (composePath : string) (w : World rt) :
  readManifest rt composePath w =
  (w, fst (manifestReading (load_yaml rt w composePath)),
   Ok (snd (manifestReading (load_yaml rt w composePath)))).
Proof.
  unfold readManifest, try_catch, bind, attempt, lift, log, emit, ret.
  destruct (load_yaml rt w composePath) as [doc|e]; simpl; [|reflexivity].
  destruct (JsValue.get doc "services") as [services|e]; simpl; [|reflexivity].
  destruct (JsValue.truthy services); simpl; [|reflexivity].
  destruct (JsValue.Object_keys services); reflexivity.
Qed.

Lemma stage1Names_eq (composePath : string) (w : World rt) :
  stage1Names rt composePath w =
  fst (snd (manifestReading (load_yaml rt w composePath))).
Proof.
  unfold stage1Names. rewrite readManifest_eq. simpl.
  now destruct (snd (manifestReading (load_yaml rt w composePath))).
Qed.

(** ** Step 3 *)

Lemma composeUp_eq (composePath cwd : string) (w : World rt) :
  let up := DockerComposeUp composePath cwd in
  let done := snd (spawn rt up w) in
  composeUp rt composePath cwd w =
  (fst (spawn rt up w),
   Log Info StartingCompose
   :: Spawn up
   :: (flat_map launchLog (chunks done)
       ++ Close up (code done)
          :: match code done with
             | Some 0%Z => [Log Info ComposeSucceeded]
             | other => [Log Err (ComposeExited other)]
             end)%list,
   match code done with
   | Some 0%Z => Ok tt
   | other =>
       Throw (Error ("docker compose up exited with code " ++ showCode other))
   end).
Proof.
  intros up done. unfold composeUp.
  unfold bind at 1. unfold log at 1, emit at 1.
  unfold bind at 1.
  rewrite (run_eq _ _ launchLog).
  - fold up. fold done. unfold log, emit, throw, bind.
    destruct (code done) as [[| |]|]; simpl;
      rewrite <- ?app_assoc; simpl; rewrite ?app_nil_r; reflexivity.
  - intros [d|d] w0; simpl; [reflexivity|].
    destruct (includes d "Creating" || includes d "Created"
              || includes d "level=warning"); reflexivity.
Qed.

End StageRuns.

Section HandlerRuns.

Context (rt : Runtime).

(** ** The handler, stage by stage *)

Lemma handler_eq (input : Input) (workspacePath : string) (w : World rt) :
  let cwd := cwdOf input workspacePath in
  let p := composePathOf rt input workspacePath in
  let reading := manifestReading (load_yaml rt w p) in
  let names := fst (snd reading) in
  let doc := snd (snd reading) in
  handler rt input workspacePath w =
  if existsSync rt w p then
    match buildSvcInfos (path_basename rt cwd) doc names with
    | Throw e => (w, Log Info (ComposeFile p) :: fst reading, Throw e)
    | Ok infos =>
        let pre := (Log Info (ComposeFile p) :: fst reading
                    ++ [Log Info (ServiceCleanupInfo infos)])%list in
        match removeByName rt infos w with
        | (w2, ev2, Throw e) => (w2, (pre ++ ev2)%list, Throw e)
        | (w2, ev2, Ok _) =>
            match removeByPort rt infos w2 with
            | (w3, ev3, Throw e) => (w3, (pre ++ ev2 ++ ev3)%list, Throw e)
            | (w3, ev3, Ok _) =>
                match composeUp rt p cwd w3 with
                | (w4, ev4, Throw e) =>
                    (w4, (pre ++ ev2 ++ ev3 ++ ev4)%list, Throw e)
                | (w4, ev4, Ok _) =>
                    match detectPorts rt names JsObject.empty w4 with
                    | (w5, ev5, Throw e) =>
                        (w5, (pre ++ ev2 ++ ev3 ++ ev4 ++ ev5)%list, Throw e)
                    | (w5, ev5, Ok ports) =>
                        (w5,
                         (pre ++ ev2 ++ ev3 ++ ev4 ++ ev5 ++ closing ports)%list,
                         Ok {| webUrl := pickWebUrl (JsObject.entries ports);
                               ports := ports |})
                    end
                end
            end
        end
    end
  else (w, [Log Info (ComposeFile p)],
        Throw (Error ("Compose file not found: " ++ p))).
Proof.
  intros cwd p reading. cbv zeta.
  unfold handler. fold cwd. fold p.
  unfold bind at 1. unfold log at 1, emit at 1.
  unfold bind at 1. unfold observe at 1.
  destruct (existsSync rt w p); simpl; [|reflexivity].
  unfold bind at 1. rewrite readManifest_eq. fold reading.
  destruct (snd reading) as [names doc]. cbn [fst snd].
  unfold bind at 1. unfold lift at 1.
  destruct (buildSvcInfos (path_basename rt cwd) doc names) as [infos|e];
    simpl; [|now rewrite app_nil_r].
  unfold bind at 1. unfold log at 1, emit at 1.
  unfold bind at 1.
  destruct (removeByName rt infos w) as [[w2 ev2] [[]|e]];
    [|simpl; now rewrite <- !app_assoc].
  unfold bind at 1.
  destruct (removeByPort rt infos w2) as [[w3 ev3] [[]|e]];
    [|simpl; now rewrite <- !app_assoc].
  unfold bind at 1.
  destruct (composeUp rt p cwd w3) as [[w4 ev4] [[]|e]];
    [|simpl; now rewrite <- !app_assoc].
  unfold bind at 1.
  destruct (detectPorts rt names JsObject.empty w4) as [[w5 ev5] [ports|e]];
    [|simpl; rewrite <- !app_assoc; simpl; now rewrite ?app_nil_r].
  unfold bind, log, emit, ret, closing. simpl.
  now rewrite <- !app_assoc.
Qed.

End HandlerRuns.

(* ================================================================== *)
(** * Declared host ports (step 2) *)
(* ================================================================== *)

(** C1.  The host port declared by a port specification is the first
    segment of its split on a colon, when there are two segments or
    more: ["8080:80"] declares ["8080"] and ["80"] declares nothing, as
    the specification says; but the IP-bound form ["127.0.0.1:8080:80"]
    yields the address ["127.0.0.1"], not the host port ["8080"] the
    specification names, and this is what a service with that specification gets as
    its expected host port. *)
Theorem declaredHostPort_ip_bound :
  declaredHostPort "8080:80" = Some "8080" /\
  declaredHostPort "80" = None /\
  declaredHostPort "127.0.0.1:8080:80" = Some "127.0.0.1" /\
  svcInfoOf "proj"
    (VObject [("services",
               VObject [("web",
                         VObject [("ports",
                                   VArray [VString "127.0.0.1:8080:80"])])])])
    "web"
  = Ok {| service := "web";
          containerName := VString "proj_web_1";
          expectedHostPorts := ["127.0.0.1"] |}.
Proof. repeat split; reflexivity. Qed.

(* ================================================================== *)
(** * The port conflict test (step 2) *)
(* ================================================================== *)

(** C2.  The conflict test looks for the text ["{port}->"] anywhere in
    the port text, so it also finds it at the end of a longer port
    number: for port ["80"] it flags the text ["0.0.0.0:8080->80/tcp"],
    which forwards host port 8080 only, and the port pass then removes
    that container for a service that asks for host port 80. *)
Theorem conflicts_inside_longer_port :
  conflicts "80" "0.0.0.0:8080->80/tcp" = true /\
  forwardedHostPorts "0.0.0.0:8080->80/tcp" = ["8080"] /\
  forwards "80" "0.0.0.0:8080->80/tcp" = false /\
  removals
    (events_of
       (removeByPort Sim.runtime
          [{| service := "proxy";
              containerName := VString "proj_proxy_1";
              expectedHostPorts := ["80"] |}]
          web8080))
  = ["web"].
Proof. repeat split; reflexivity. Qed.

(* ================================================================== *)
(** * Lines of [docker port] (step 4) *)
(* ================================================================== *)

Lemma collect_In {A B} (f : A -> option B) (l : list A) (y : B) :
  In y (collect f l) <-> exists x, In x l /\ f x = Some y.
Proof.
  induction l as [|a l IH]; simpl.
  - split; [contradiction|intros (x & [] & _)].
  - destruct (f a) as [b|] eqn:E; simpl; rewrite IH; split.
    + intros [<-|(x & Hx & Hf)]; [now exists a; auto|exists x; auto].
    + intros (x & [<-|Hx] & Hf); [left; congruence|right; now exists x].
    + intros (x & Hx & Hf). exists x; auto.
    + intros (x & [<-|Hx] & Hf); [congruence|now exists x].
Qed.

Lemma collect_length {A B} (f : A -> option B) (l : list A) :
  List.length (collect f l) <= List.length l.
Proof.
  induction l as [|a l IH]; simpl; [lia|].
  destruct (f a); simpl; lia.
Qed.

Lemma collect_app {A B} (f : A -> option B) (l1 l2 : list A) :
  collect f (l1 ++ l2)%list = (collect f l1 ++ collect f l2)%list.
Proof.
  induction l1 as [|a l1 IH]; simpl; [reflexivity|].
  destruct (f a); simpl; now rewrite IH.
Qed.

(** The lines of a text followed by a line break and another text are
    the lines of the one, then the lines of the other. *)
Lemma split_lines_app (a b : string) :
  split (a ++ newline ++ b) newline
  = (split a newline ++ split b newline)%list.
Proof.
  unfold split. induction a as [|c a IH].
  - reflexivity.
  - change (String c a ++ newline ++ b) with (String c (a ++ newline ++ b)).
    cbn [split_go].
    assert (S : forall x, starts_with newline (String c x)
                          = Ascii.eqb (ascii_of_nat 10) c).
    { intros x. unfold newline. cbn [starts_with]. apply andb_true_r. }
    rewrite !S. change (String.length newline - 1) with 0.
    rewrite IH. destruct (Ascii.eqb (ascii_of_nat 10) c); [reflexivity|].
    destruct (split_go newline 0 a) as [|h t] eqn:E; [|reflexivity].
    now apply split_go_nonempty in E.
Qed.

(** Whatever parses has the form the pattern describes. *)
Lemma parsePortLine_inv (line : string) (b : PortBinding) :
  parsePortLine line = Some b ->
  exists a,
    line = containerPort b ++ "/tcp -> " ++ a ++ ":" ++ hostPort b /\
    containerPort b <> "" /\ all_digits (containerPort b) = true /\
    a <> "" /\ no_colon a = true /\
    hostPort b <> "" /\ all_digits (hostPort b) = true.
Proof.
  unfold parsePortLine, matchPortLine.
  destruct (String.eqb (trim line) ""); [discriminate|].
  destruct (span is_digit line) as [g1 r1] eqn:E1.
  destruct (String.eqb g1 "") eqn:N1; [discriminate|].
  destruct (strip_prefix "/tcp -> " r1) as [r2|] eqn:E2; [|discriminate].
  destruct (span (fun c => negb (is_colon c)) r2) as [addr r3] eqn:E3.
  destruct (String.eqb addr "") eqn:N2; [discriminate|].
  destruct r3 as [|c g2]; [discriminate|].
  destruct (is_colon c) eqn:Hc; simpl; [|discriminate].
  destruct (String.eqb g2 "") eqn:N3; simpl; [discriminate|].
  destruct (all_digits g2) eqn:D2; [|discriminate].
  intros H. inversion H; subst; clear H. simpl.
  apply span_inv in E1 as (-> & D1 & _).
  apply strip_prefix_inv in E2 as ->.
  apply span_inv in E3 as (-> & NC & _).
  unfold is_colon in Hc. apply Ascii.eqb_eq in Hc. subst c.
  exists addr. split; [reflexivity|].
  repeat split; auto; now apply String.eqb_neq.
Qed.

(** A line of the tcp form with a host address free of colons parses
    into its binding; the same line for [udp] does not parse. *)
Lemma parsePortLine_tcp (c a h : string) :
  c <> "" -> all_digits c = true ->
  a <> "" -> no_colon a = true ->
  h <> "" -> all_digits h = true ->
  parsePortLine (c ++ "/tcp -> " ++ a ++ ":" ++ h)
  = Some {| hostPort := h; containerPort := c |} /\
  parsePortLine (c ++ "/udp -> " ++ a ++ ":" ++ h) = None.
Proof.
  intros Nc Dc Na Ca Nh Dh.
  assert (T : forall rest, String.eqb (trim (c ++ rest)) "" = false).
  { intros rest. apply String.eqb_neq.
    destruct c as [|x c]; [congruence|]. simpl in Dc.
    apply andb_true_iff in Dc as [Dx _]. now apply trim_digit_first. }
  unfold parsePortLine, matchPortLine. rewrite !T.
  rewrite !(span_app is_digit c) by (auto; reflexivity).
  apply String.eqb_neq in Nc. rewrite Nc.
  split; [|reflexivity].
  change ("/tcp -> " ++ a ++ ":" ++ h)
    with ("/tcp -> " ++ (a ++ ":" ++ h)).
  rewrite strip_prefix_app.
  rewrite (span_app _ a (":" ++ h)) by (auto; reflexivity).
  apply String.eqb_neq in Na, Nh. rewrite Na. simpl.
  now rewrite Nh, Dh.
Qed.

(** The mappings of an output are those of its lines of the tcp form. *)
Lemma parseMappings_In (output : string) (b : PortBinding) :
  In b (parseMappings output) <->
  exists a,
    In (containerPort b ++ "/tcp -> " ++ a ++ ":" ++ hostPort b)
       (split output newline) /\
    containerPort b <> "" /\ all_digits (containerPort b) = true /\
    a <> "" /\ no_colon a = true /\
    hostPort b <> "" /\ all_digits (hostPort b) = true.
Proof.
  unfold parseMappings. rewrite collect_In. split.
  - intros (line & Hin & Hp).
    destruct (parsePortLine_inv line b Hp) as (a & -> & F).
    now exists a.
  - intros (a & Hin & Nc & Dc & Na & Ca & Nh & Dh).
    eexists. split; [exact Hin|].
    destruct b as [h c]. simpl in *.
    now apply parsePortLine_tcp.
Qed.

(** C7 (amended).  The mappings read from the output of a port query are
    those of its lines of the form [<digits>/tcp -> <hostAddress>:<digits>]
    whose host address is not empty and has no colon, with the digits
    before [/tcp] as container port and the digits after the colon as
    host port, and of no other line: a line for [udp] and a line with an
    IPv6 host address are skipped.  The lines are read one by one, in
    order: the mappings of an output followed by a line break and more
    output are those of the one, then those of the other; a line of its
    own gives at most one mapping.  So the output of the three lines
    [80/tcp -> 0.0.0.0:32768], [443/udp -> 0.0.0.0:4000] and
    [80/tcp -> :::32768] gives the one mapping of host port 32768 to
    container port 80. *)
Theorem parseMappings_lines :
  (forall (output : string) (b : PortBinding),
     In b (parseMappings output) <->
     exists a,
       In (containerPort b ++ "/tcp -> " ++ a ++ ":" ++ hostPort b)
          (split output newline) /\
       containerPort b <> "" /\ all_digits (containerPort b) = true /\
       a <> "" /\ no_colon a = true /\
       hostPort b <> "" /\ all_digits (hostPort b) = true) /\
  (forall output more : string,
     parseMappings (output ++ newline ++ more)
     = (parseMappings output ++ parseMappings more)%list) /\
  (forall line : string,
     split line newline = [line] ->
     parseMappings line = match parsePortLine line with
                          | Some b => [b]
                          | None => []
                          end) /\
  (forall c rest : string,
     all_digits c = true ->
     parsePortLine (c ++ "/udp -> " ++ rest) = None) /\
  parseMappings ("80/tcp -> 0.0.0.0:32768" ++ newline
                 ++ "443/udp -> 0.0.0.0:4000" ++ newline
                 ++ "80/tcp -> :::32768" ++ newline)
  = [{| hostPort := "32768"; containerPort := "80" |}].
Proof.
  split; [|split; [|split; [|split]]].
  - apply parseMappings_In.
  - intros output more. unfold parseMappings.
    now rewrite split_lines_app, collect_app.
  - intros line E. unfold parseMappings. rewrite E. simpl.
    now destruct (parsePortLine line).
  - intros c rest Dc. unfold parsePortLine, matchPortLine.
    destruct (String.eqb (trim (c ++ "/udp -> " ++ rest)) "");
      [reflexivity|].
    rewrite (span_app is_digit c) by (auto; reflexivity).
    now destruct (String.eqb c "").
  - reflexivity.
Qed.

(** As the specification states it, C7 fails on the line [docker port]
    prints for the IPv6 wildcard address: it has the form
    [<digits>/tcp -> <hostAddress>:<digits>] with the host address [::],
    and it is skipped. *)
Lemma parsePortLine_ipv6_skipped :
  "80/tcp -> :::32768" = "80" ++ "/tcp -> " ++ "::" ++ ":" ++ "32768" /\
  parsePortLine "80/tcp -> :::32768"
  <> Some {| hostPort := "32768"; containerPort := "80" |}.
Proof. split; [reflexivity|discriminate]. Qed.

(* ================================================================== *)
(** * What aborts an invocation *)
(* ================================================================== *)

(** C3.  With the compose file on disk and a service entry that is
    [null], reading [def.container_name] in the loop of step 2 throws a
    [TypeError], outside any [try]: the handler ends with it after the
    two log calls of step 1, before any process is spawned, although
    neither of the two fatal conditions of the specification holds. *)
Theorem handler_throws_on_null_service (rt : Runtime) (input : Input)
    (workspacePath : string) (w : World rt) :
  existsSync rt w (composePathOf rt input workspacePath) = true ->
  load_yaml rt w (composePathOf rt input workspacePath) = Ok nullServiceDoc ->
  handler rt input workspacePath w =
  (w,
   [Log Info (ComposeFile (composePathOf rt input workspacePath));
    Log Info (DetectedServices ["web"])],
   Throw (TypeError "cannot read properties of null or undefined")).
Proof.
  intros He Hl. rewrite handler_eq. cbv zeta. rewrite He, Hl. reflexivity.
Qed.

Lemma handler_throws_on_null_service_witness :
  handler Sim.runtime simInput "/ws" (simWorld (Ok nullServiceDoc) (Some 0%Z)) =
  (simWorld (Ok nullServiceDoc) (Some 0%Z),
   [Log Info (ComposeFile "/ws/docker-compose.yml");
    Log Info (DetectedServices ["web"])],
   Throw (TypeError "cannot read properties of null or undefined")).
Proof.
  apply (handler_throws_on_null_service Sim.runtime simInput "/ws"
           (simWorld (Ok nullServiceDoc) (Some 0%Z))); reflexivity.
Defined.

(** ** The launch *)

Lemma portQueries_app (a b : list event) :
  portQueries (a ++ b) = (portQueries a ++ portQueries b)%list.
Proof.
  induction a as [|e a IH]; simpl; [reflexivity|].
  destruct e as [| [] | | |]; simpl; now rewrite ?IH.
Qed.

Lemma beforeLaunch_no_query (evs : list event) :
  Forall beforeLaunch evs -> portQueries evs = [].
Proof.
  induction 1 as [|e evs He H IH]; simpl; [reflexivity|].
  destruct e as [| [] | | |]; simpl in *; auto; discriminate.
Qed.

Lemma beforeLaunch_no_up (evs : list event) (p d : string) (c : option Z) :
  Forall beforeLaunch evs -> ~ In (Close (DockerComposeUp p d) c) evs.
Proof.
  intros H Hin. rewrite Forall_forall in H. apply H in Hin.
  simpl in Hin. discriminate.
Qed.

Lemma afterLaunch_no_up (evs : list event) (p d : string) (c : option Z) :
  Forall afterLaunch evs -> ~ In (Close (DockerComposeUp p d) c) evs.
Proof.
  intros H Hin. rewrite Forall_forall in H. now apply H in Hin.
Qed.

Lemma launchLog_logs (cs : list chunk) : Forall isLog (flat_map launchLog cs).
Proof.
  induction cs as [|c cs IH]; simpl; [constructor|].
  apply Forall_app. split; [|exact IH].
  destruct c as [d|d]; simpl; [now repeat constructor|].
  destruct (includes d "Creating" || includes d "Created"
            || includes d "level=warning"); now repeat constructor.
Qed.

Lemma isLog_no_query (evs : list event) :
  Forall isLog evs -> portQueries evs = [].
Proof.
  induction 1 as [|e evs He H IH]; simpl; [reflexivity|].
  destruct e; simpl in *; tauto.
Qed.

Lemma manifestReading_logs (loaded : result value) :
  Forall beforeLaunch (fst (manifestReading loaded)).
Proof.
  unfold manifestReading.
  destruct loaded as [doc|e]; [|now repeat constructor].
  destruct (JsValue.get doc "services") as [s|e]; [|now repeat constructor].
  destruct (JsValue.truthy s); [|constructor].
  destruct (JsValue.Object_keys s); now repeat constructor.
Qed.

(** What step 3 causes: its log calls and the one process, closed with
    the code that decides its outcome. *)
Lemma composeUp_events (rt : Runtime) (composePath cwd : string)
    (w w' : World rt) (evs : list event) (r : result unit) :
  composeUp rt composePath cwd w = (w', evs, r) ->
  portQueries evs = [] /\
  forall p d c,
    In (Close (DockerComposeUp p d) c) evs ->
    match r with
    | Ok _ => c = Some 0%Z
    | Throw e =>
        e = Error ("docker compose up exited with code " ++ showCode c)
    end.
Proof.
  rewrite composeUp_eq. cbv zeta.
  set (done := snd (spawn rt (DockerComposeUp composePath cwd) w)).
  intros H. inversion H; subst; clear H. split.
  - simpl. rewrite portQueries_app.
    rewrite (isLog_no_query _ (launchLog_logs _)). simpl.
    now destruct (code done) as [[| |]|].
  - intros p d c [Hin|[Hin|Hin]]; try discriminate.
    apply in_app_or in Hin as [Hin|Hin].
    + pose proof (launchLog_logs (chunks done)) as L.
      rewrite Forall_forall in L. apply L in Hin. contradiction.
    + destruct Hin as [Hin|Hin].
      * inversion Hin; subst.
        now destruct (code done) as [[| |]|].
      * destruct (code done) as [[| |]|]; simpl in Hin;
          destruct Hin as [Hin|[]]; discriminate.
Qed.

Lemma closing_after (ports : Ports) : Forall afterLaunch (closing ports).
Proof. now repeat constructor. Qed.

(** The three ways an invocation goes: it ends before the launch, it
    ends with the launch, or the launch succeeds and the discovery
    follows. *)
Lemma handler_phases (rt : Runtime) (input : Input) (workspacePath : string)
    (w : World rt) :
  let cp := composePathOf rt input workspacePath in
  let cwd := cwdOf input workspacePath in
  let x := handler rt input workspacePath w in
  exists pre,
    Forall beforeLaunch pre /\
    ((events_of x = pre /\ exists e, outcome_of x = Throw e) \/
     (exists w3 w4 ev4 e,
        composeUp rt cp cwd w3 = (w4, ev4, Throw e) /\
        events_of x = (pre ++ ev4)%list /\ outcome_of x = Throw e) \/
     (exists w3 w4 ev4 post,
        composeUp rt cp cwd w3 = (w4, ev4, Ok tt) /\
        Forall afterLaunch post /\
        events_of x = (pre ++ ev4 ++ post)%list)).
Proof.
  intros cp cwd x. subst x. rewrite handler_eq. cbv zeta.
  fold cp. fold cwd.
  set (reading := manifestReading (load_yaml rt w cp)).
  pose proof (manifestReading_logs (load_yaml rt w cp)) as Hread.
  fold reading in Hread.
  destruct (existsSync rt w cp).
  2:{ eexists. split; [|left; split; [reflexivity|eexists; reflexivity]].
      now repeat constructor. }
  destruct (buildSvcInfos (path_basename rt cwd) (snd (snd reading))
              (fst (snd reading))) as [infos|e].
  2:{ eexists. split; [|left; split; [reflexivity|eexists; reflexivity]].
      constructor; [exact I|exact Hread]. }
  cbv zeta.
  set (pre := (Log Info (ComposeFile cp) :: fst reading
               ++ [Log Info (ServiceCleanupInfo infos)])%list).
  assert (Bpre : Forall beforeLaunch pre).
  { constructor; [exact I|].
    apply Forall_app; split; [exact Hread|now repeat constructor]. }
  pose proof (removeByName_cleanup rt infos w) as B2.
  destruct (removeByName rt infos w) as [[w2 ev2] r2].
  unfold events_of in B2; simpl in B2.
  assert (B12 : Forall beforeLaunch (pre ++ ev2)%list)
    by (apply Forall_app; now split).
  destruct r2 as [[]|e].
  2:{ exists (pre ++ ev2)%list. split; [exact B12|].
      left; split; [reflexivity|eexists; reflexivity]. }
  pose proof (removeByPort_cleanup rt infos w2) as B3.
  destruct (removeByPort rt infos w2) as [[w3 ev3] r3].
  unfold events_of in B3; simpl in B3.
  assert (B123 : Forall beforeLaunch (pre ++ ev2 ++ ev3)%list)
    by (apply Forall_app; split; [exact Bpre|apply Forall_app; now split]).
  destruct r3 as [[]|e].
  2:{ exists (pre ++ ev2 ++ ev3)%list. split; [exact B123|].
      left; split; [reflexivity|eexists; reflexivity]. }
  exists (pre ++ ev2 ++ ev3)%list. split; [exact B123|]. right.
  destruct (composeUp rt cp cwd w3) as [[w4 ev4] [[]|e]] eqn:E4.
  2:{ left. exists w3, w4, ev4, e. split; [exact E4|].
      unfold events_of, outcome_of; simpl. split; [|reflexivity].
      now rewrite <- !app_assoc. }
  right.
  pose proof (detectPorts_queries rt (fst (snd reading)) JsObject.empty w4)
    as B5.
  destruct (detectPorts rt (fst (snd reading)) JsObject.empty w4)
    as [[w5 ev5] [ports|e5]]; unfold events_of in B5; simpl in B5.
  - exists w3, w4, ev4, (ev5 ++ closing ports)%list.
    split; [exact E4|]. split.
    + apply Forall_app; split; [exact B5|apply closing_after].
    + unfold events_of; simpl. now rewrite <- !app_assoc.
  - exists w3, w4, ev4, ev5. split; [exact E4|]. split; [exact B5|].
    unfold events_of; simpl. now rewrite <- !app_assoc.
Qed.

(** C4.  When [docker compose up] closes with a code other than 0, the
    handler throws the [Error] whose message is [docker compose up
    exited with code ] followed by the decimal numeral of that code
    ([null] for the close of a process that a signal ended); the message
    contains that numeral, and no port query has been spawned. *)
Theorem composeUp_failure_is_fatal (rt : Runtime) (input : Input)
    (workspacePath : string) (w : World rt)
    (p d : string) (c : option Z) :
  In (Close (DockerComposeUp p d) c)
     (events_of (handler rt input workspacePath w)) ->
  c <> Some 0%Z ->
  let observed := match c with
                  | Some n => show_Z n
                  | None => "null"
                  end in
  outcome_of (handler rt input workspacePath w)
  = Throw (Error ("docker compose up exited with code " ++ observed)) /\
  includes ("docker compose up exited with code " ++ observed) observed
  = true /\
  portQueries (events_of (handler rt input workspacePath w)) = [].
Proof.
  intros Hin Hc observed.
  destruct (handler_phases rt input workspacePath w)
    as (pre & Bpre & [(Hev & _)|[(w3 & w4 & ev4 & e & E4 & Hev & Hout)
                                |(w3 & w4 & ev4 & post & E4 & Bpost & Hev)]]);
    rewrite Hev in *.
  - now apply beforeLaunch_no_up in Hin.
  - apply composeUp_events in E4 as [Q4 U4].
    apply in_app_or in Hin as [Hin|Hin];
      [now apply beforeLaunch_no_up in Hin|].
    apply U4 in Hin. subst e.
    split; [exact Hout|]. split; [apply includes_suffix|].
    now rewrite portQueries_app, Q4, (beforeLaunch_no_query _ Bpre).
  - exfalso. apply composeUp_events in E4 as [Q4 U4].
    apply in_app_or in Hin as [Hin|Hin];
      [now apply beforeLaunch_no_up in Hin|].
    apply in_app_or in Hin as [Hin|Hin];
      [now apply U4 in Hin|].
    now apply afterLaunch_no_up in Hin.
Qed.

Lemma composeUp_failure_is_fatal_witness :
  stage1Names Sim.runtime "/ws/docker-compose.yml" apiDbKilled
  = ["api"; "db"] /\
  outcome_of (handler Sim.runtime simInput "/ws" apiDbKilled)
  = Throw (Error "docker compose up exited with code 137") /\
  includes "docker compose up exited with code 137" "137" = true /\
  portQueries (events_of (handler Sim.runtime simInput "/ws" apiDbKilled))
  = [].
Proof.
  split; [reflexivity|].
  apply (composeUp_failure_is_fatal Sim.runtime simInput "/ws" apiDbKilled
           "/ws/docker-compose.yml" "/ws" (Some 137%Z)).
  - vm_compute. repeat first [left; reflexivity | right].
  - discriminate.
Defined.

(* ================================================================== *)
(** * A manifest without services *)
(* ================================================================== *)

(** C8 (amended).  When the manifest cannot be parsed, or parses to an
    empty document (the root is [null] or [undefined], and reading
    [services] from it throws inside the [try] block), the failure is
    logged as a warning and nothing else; when it parses to another
    document that has no [services], nothing is logged about it.  In all
    these cases the service list is empty: the invocation is the launch
    alone, spawned with the path of the manifest, between the log calls
    of the other steps, and it ends with the empty result or with the
    failure of the launch. *)
Theorem handler_without_services (rt : Runtime) (input : Input)
    (workspacePath : string) (w : World rt) (warned : list event) :
  let cp := composePathOf rt input workspacePath in
  let cwd := cwdOf input workspacePath in
  existsSync rt w cp = true ->
  withoutServices (load_yaml rt w cp) warned ->
  handler rt input workspacePath w =
  (match composeUp rt cp cwd w with
   | (w', launch, Ok _) =>
       (w',
        (Log Info (ComposeFile cp) :: warned
         ++ Log Info (ServiceCleanupInfo []) :: launch
         ++ closing JsObject.empty)%list,
        Ok {| webUrl := ""; ports := JsObject.empty |})
   | (w', launch, Throw e) =>
       (w',
        (Log Info (ComposeFile cp) :: warned
         ++ Log Info (ServiceCleanupInfo []) :: launch)%list,
        Throw e)
   end) /\
  In (Spawn (DockerComposeUp cp cwd)) (events_of (composeUp rt cp cwd w)).
Proof.
  intros cp cwd He Hl. split.
  - rewrite handler_eq. cbv zeta. fold cp. fold cwd. rewrite He.
    assert (R : manifestReading (load_yaml rt w cp)
                = (warned, ([], match load_yaml rt w cp with
                                | Ok doc => doc
                                | Throw _ => VObject []
                                end))).
    { destruct Hl as [err|doc err Hg|doc services Hg Ht]; simpl;
        [reflexivity|now rewrite Hg|now rewrite Hg, Ht]. }
    rewrite R. simpl.
    destruct (composeUp rt cp cwd w) as [[w' launch] [[]|e]]; simpl.
    + now rewrite <- !app_assoc.
    + now rewrite <- !app_assoc.
  - rewrite composeUp_eq. unfold events_of. simpl. right. now left.
Qed.

Lemma handler_without_services_witness :
  handler Sim.runtime simInput "/ws" (simWorld (Ok VUndefined) (Some 0%Z)) =
  (simWorld (Ok VUndefined) (Some 0%Z),
   [Log Info (ComposeFile "/ws/docker-compose.yml");
    Log Warn (FailedToParse
                (TypeError "cannot read properties of null or undefined"));
    Log Info (ServiceCleanupInfo []);
    Log Info StartingCompose;
    Spawn (DockerComposeUp "/ws/docker-compose.yml" "/ws");
    Close (DockerComposeUp "/ws/docker-compose.yml" "/ws") (Some 0%Z);
    Log Info ComposeSucceeded;
    Log Info (ExposedPorts []);
    OutputPorts [];
    OutputWebUrl "";
    Log Info (ApplicationAvailable "")],
   Ok {| webUrl := ""; ports := [] |}).
Proof.
  apply (handler_without_services Sim.runtime simInput "/ws"
           (simWorld (Ok VUndefined) (Some 0%Z))
           [Log Warn (FailedToParse
                        (TypeError
                           "cannot read properties of null or undefined"))]).
  - reflexivity.
  - now apply emptyDocument.
Defined.

(** As the specification states it, C8 fails for a manifest that parses
    and has no [services] key: the invocation logs no warning at all. *)
Lemma no_warning_without_services_key :
  JsObject.get "services" [("version", VString "3")] = None /\
  existsb isWarning
    (events_of (handler Sim.runtime simInput "/ws"
                  (simWorld (Ok (VObject [("version", VString "3")]))
                     (Some 0%Z))))
  = false.
Proof. split; reflexivity. Qed.

(* ================================================================== *)
(** * The manifest reader is total *)
(* ================================================================== *)

(** C10 (amended).  Step 1 never throws and leaves the world as it is.
    When the root of the document is not a mapping the service list is
    empty: for an empty document ([undefined], or [null]) reading
    [.services] throws a [TypeError], which is caught and logged as a
    warning; for a scalar or a sequence the read gives [undefined], no
    exception arises and nothing is logged. *)
Theorem readManifest_non_mapping (rt : Runtime) (composePath : string)
    (w : World rt) (root : value) :
  load_yaml rt w composePath = Ok root ->
  isMapping root = false ->
  readManifest rt composePath w =
  (w,
   (if nullish root
    then [Log Warn
            (FailedToParse
               (TypeError "cannot read properties of null or undefined"))]
    else []),
   Ok ([], root)) /\
  forall (path : string) (w' : World rt),
  exists evs names doc,
    readManifest rt path w' = (w', evs, Ok (names, doc)).
Proof.
  intros Hl Hm. split.
  - rewrite readManifest_eq, Hl.
    destruct root as [| | b | z | s | items | props];
      try discriminate; reflexivity.
  - intros path w'. rewrite readManifest_eq.
    destruct (snd (manifestReading (load_yaml rt w' path))) as [names doc].
    now exists (fst (manifestReading (load_yaml rt w' path))), names, doc.
Qed.

Lemma readManifest_non_mapping_witness :
  readManifest Sim.runtime "/ws/docker-compose.yml"
    (simWorld (Ok VUndefined) (Some 0%Z)) =
  (simWorld (Ok VUndefined) (Some 0%Z),
   [Log Warn
      (FailedToParse
         (TypeError "cannot read properties of null or undefined"))],
   Ok ([], VUndefined)) /\
  forall (path : string) (w' : Sim.world),
  exists evs names doc,
    readManifest Sim.runtime path w' = (w', evs, Ok (names, doc)).
Proof.
  apply (readManifest_non_mapping Sim.runtime "/ws/docker-compose.yml"
           (simWorld (Ok VUndefined) (Some 0%Z)) VUndefined); reflexivity.
Defined.

(** As the specification states it, C10 fails for a bare scalar document:
    its root is not a mapping, and step 1 logs nothing. *)
Lemma no_warning_for_scalar_root :
  isMapping (VString "hello") = false /\
  readManifest Sim.runtime "/ws/docker-compose.yml"
    (simWorld (Ok (VString "hello")) (Some 0%Z))
  = (simWorld (Ok (VString "hello")) (Some 0%Z), [], Ok ([], VString "hello")).
Proof. split; reflexivity. Qed.

(* ================================================================== *)
(** * Removal attempts of the conflict resolver *)
(* ================================================================== *)

Lemma removals_app (a b : list event) :
  removals (a ++ b) = (removals a ++ removals b)%list.
Proof.
  induction a as [|e a IH]; simpl; [reflexivity|].
  destruct e as [| [] | | |]; simpl; now rewrite ?IH.
Qed.

Lemma removalLog_removals (cs : list chunk) :
  removals (flat_map removalLog cs) = [].
Proof.
  induction cs as [|c cs IH]; simpl; [reflexivity|].
  rewrite removals_app, IH. now destruct c.
Qed.

(** One removal: one process, for the name as a template prints it. *)
Lemma removeContainer_eq (rt : Runtime) (name : value) (shown : string)
    (w : World rt) :
  JsValue.ToString name = Ok shown ->
  let rm := DockerRmByName shown in
  removeContainer rt name w =
  (fst (spawn rt rm w),
   Spawn rm :: (flat_map removalLog (chunks (snd (spawn rt rm w)))
                ++ [Close rm (code (snd (spawn rt rm w)))])%list,
   Ok tt).
Proof.
  intros H rm. unfold removeContainer.
  unfold bind at 1. unfold lift at 1. rewrite H.
  unfold bind at 1. rewrite (run_eq rt _ _ removalLog).
  - unfold ret. simpl. now rewrite app_nil_r.
  - now intros [d|d] w0.
Qed.

Lemma removeContainer_removals (rt : Runtime) (name : value) (shown : string)
    (w : World rt) :
  JsValue.ToString name = Ok shown ->
  removals (events_of (removeContainer rt name w)) = [shown].
Proof.
  intros H. rewrite (removeContainer_eq rt name shown w H).
  unfold events_of. simpl. now rewrite removals_app, removalLog_removals.
Qed.

(** Filtering the lines keeps their names distinct. *)
Lemma filter_keeps_distinct {A B} (key : A -> B) (keep : A -> bool) :
  forall xs : list A,
    NoDup (map key xs) -> NoDup (map key (filter keep xs)).
Proof.
  intros xs. induction xs as [|x xs IH]; simpl; intros H; [constructor|].
  inversion H as [|? ? Hx Hxs]; subst.
  destruct (keep x); simpl; [|now apply IH].
  constructor; [|now apply IH].
  intros Hin. apply Hx. apply in_map_iff in Hin as (y & Hy & Hin).
  apply filter_In in Hin as [Hin _]. apply in_map_iff. now exists y.
Qed.

Lemma lineConflicts_hasPorts (port line : string) :
  lineConflicts port line = true -> hasPorts line = true.
Proof.
  unfold lineConflicts, hasPorts, conflicts.
  destruct (linePorts line); [|discriminate].
  intros H. now apply andb_true_iff in H as [H _].
Qed.

Lemma filter_conflicts_listed (port : string) (lines : list string) :
  filter (lineConflicts port) lines
  = filter (lineConflicts port) (filter hasPorts lines).
Proof.
  induction lines as [|l lines IH]; simpl; [reflexivity|].
  destruct (lineConflicts port l) eqn:E.
  - rewrite (lineConflicts_hasPorts _ _ E). simpl. now rewrite E, IH.
  - destruct (hasPorts l); simpl; now rewrite ?E, IH.
Qed.

(** The containers found in conflict are among those the listing shows,
    each as often as the listing shows it. *)
Lemma conflictingContainers_listed (port out : string) :
  incl (conflictingContainers port out) (listedIn out) /\
  (NoDup (listedIn out) -> NoDup (conflictingContainers port out)).
Proof.
  unfold conflictingContainers, listedIn.
  rewrite filter_conflicts_listed. split.
  - intros n Hn. apply in_map_iff in Hn as (l & <- & Hl).
    apply filter_In in Hl as [Hl _]. now apply in_map.
  - apply filter_keeps_distinct.
Qed.

Lemma for_each_cons_ok (rt : Runtime) {A} (body : A -> M rt unit) (x : A)
    (l : list A) (w w1 : World rt) (e1 : list event) :
  body x w = (w1, e1, Ok tt) ->
  for_each (x :: l) body w =
  match for_each l body w1 with
  | (w2, e2, r) => (w2, (e1 ++ e2)%list, r)
  end.
Proof. intros H. simpl. unfold bind. now rewrite H. Qed.

Lemma removeFound_eq (rt : Runtime) (port c : string) (w : World rt) :
  let rm := DockerRmByName c in
  removeFound rt port c w =
  (fst (spawn rt rm w),
   Log Warn (HostPortInUse port c)
   :: Spawn rm :: (flat_map removalLog (chunks (snd (spawn rt rm w)))
                   ++ [Close rm (code (snd (spawn rt rm w)))])%list,
   Ok tt).
Proof.
  intros rm. unfold removeFound, bind, log, emit.
  now rewrite (removeContainer_eq rt (VString c) c w eq_refl).
Qed.

Lemma checkPort_eq (rt : Runtime) (port : string) (w : World rt) :
  let done := snd (spawn rt DockerPsPorts w) in
  checkPort rt port w =
  match for_each (conflictingContainers port (stdout_of (chunks done)))
          (removeFound rt port) (fst (spawn rt DockerPsPorts w)) with
  | (w2, e2, r) =>
      (w2,
       (Log Info (CheckingPortConflict port)
        :: Spawn DockerPsPorts :: Close DockerPsPorts (code done) :: e2)%list,
       r)
  end.
Proof.
  intros done. unfold checkPort.
  unfold bind at 1. unfold log at 1, emit at 1.
  unfold bind at 1. rewrite (run_eq rt _ _ (fun _ => [])) by reflexivity.
  fold done.
  assert (F : forall cs, flat_map (fun _ : chunk => @nil event) cs = []).
  { induction cs; auto. }
  rewrite F. simpl.
  change (fun container : string =>
            bind (log Warn (HostPortInUse port container))
              (fun _ : unit => removeContainer rt (VString container)))
    with (removeFound rt port).
  now destruct (for_each _ (removeFound rt port) _) as [[w2 e2] r].
Qed.

Lemma removeNamed_eq (rt : Runtime) (svc : SvcInfo) (n : string)
    (w : World rt) :
  JsValue.ToString (containerName svc) = Ok n ->
  let rm := DockerRmByName n in
  bind (lift (JsValue.ToString (containerName svc)))
       (fun shown =>
          bind (log Info (RemovingByName shown))
               (fun _ => removeContainer rt (containerName svc))) w =
  (fst (spawn rt rm w),
   Log Info (RemovingByName n)
   :: Spawn rm :: (flat_map removalLog (chunks (snd (spawn rt rm w)))
                   ++ [Close rm (code (snd (spawn rt rm w)))])%list,
   Ok tt).
Proof.
  intros H rm. unfold bind, lift, log, emit. rewrite H.
  now rewrite (removeContainer_eq rt _ n w H).
Qed.

Section Cleanup.

Context (rt : Runtime) (Inv : World rt -> Prop).

(** What the container runtime is taken to do: its worlds keep an
    invariant, under which a listing shows a container once, a listing
    adds no container, and a removal adds none and takes effect, so that
    the container is not listed afterwards. *)
Hypothesis Inv_spawn : forall cmd w, Inv w -> Inv (fst (spawn rt cmd w)).
Hypothesis listed_once : forall w, Inv w -> NoDup (listed rt w).
Hypothesis listing_reads :
  forall w, Inv w ->
    incl (listed rt (fst (spawn rt DockerPsPorts w))) (listed rt w).
Hypothesis removal_works :
  forall n w, Inv w ->
    incl (listed rt (fst (spawn rt (DockerRmByName n) w))) (listed rt w) /\
    ~ In n (listed rt (fst (spawn rt (DockerRmByName n) w))).

#[local] Abbreviation stretch := (stretch rt Inv).

Lemma stretch_nil (w : World rt) : Inv w -> stretch w [] w.
Proof.
  intros H. repeat split; auto using incl_refl; try constructor;
    simpl in *; contradiction.
Qed.

Lemma stretch_app (w w1 w2 : World rt) (e1 e2 : list event) :
  stretch w e1 w1 -> stretch w1 e2 w2 -> stretch w (e1 ++ e2) w2.
Proof.
  intros (I1 & S1 & N1 & R1) (I2 & S2 & N2 & R2).
  split; [exact I2|]. split; [eapply incl_tran; eauto|].
  rewrite removals_app. split.
  - apply NoDup_app; repeat split; auto.
    intros n H1 H2. apply R1 in H1 as [_ H1]. apply R2 in H2 as [H2 _].
    contradiction.
  - intros n Hn. apply in_app_or in Hn as [Hn|Hn].
    + apply R1 in Hn as [Ha Hb]. split; [exact Ha|].
      intros Hc. apply Hb. now apply S2.
    + apply R2 in Hn as [Ha Hb]. split; [now apply S1|exact Hb].
Qed.

Lemma for_each_stretch {A} (l : list A) (body : A -> M rt unit) :
  (forall x w, Inv w ->
     outcome_of (body x w) = Ok tt /\
     stretch w (events_of (body x w)) (world_of (body x w))) ->
  forall w, Inv w ->
    outcome_of (for_each l body w) = Ok tt /\
    stretch w (events_of (for_each l body w)) (world_of (for_each l body w)).
Proof.
  intros H. induction l as [|x l IH]; intros w Hw; simpl.
  - split; [reflexivity|now apply stretch_nil].
  - unfold bind. destruct (H x w Hw) as [Ho Hs].
    destruct (body x w) as [[w1 e1] r1].
    unfold outcome_of, events_of, world_of in *; simpl in *. subst r1.
    destruct Hs as (I1 & Hs).
    destruct (IH w1 I1) as [Ho2 Hs2].
    destruct (for_each l body w1) as [[w2 e2] r2]; simpl in *.
    split; [exact Ho2|].
    apply (stretch_app w w1 w2); [now split|exact Hs2].
Qed.

(** Removing the containers found for one port *)
Lemma remove_found (port : string) (found : list string) :
  NoDup found ->
  forall w, Inv w ->
    match for_each found (removeFound rt port) w with
    | (w', evs, r) =>
        r = Ok tt /\ Inv w' /\
        incl (listed rt w') (listed rt w) /\
        removals evs = found /\
        forall n, In n found -> ~ In n (listed rt w')
    end.
Proof.
  induction 1 as [|c found Hc Hnd IH]; intros w Hw.
  - simpl. repeat split; auto using incl_refl.
  - rewrite (for_each_cons_ok rt (removeFound rt port) c found w _ _
               (removeFound_eq rt port c w)).
    set (w1 := fst (spawn rt (DockerRmByName c) w)).
    assert (I1 : Inv w1) by now apply Inv_spawn.
    destruct (removal_works c w Hw) as [S1 G1]. fold w1 in S1, G1.
    specialize (IH w1 I1).
    destruct (for_each found (removeFound rt port) w1) as [[w2 e2] r2].
    destruct IH as (Ho & I2 & S2 & R2 & G2).
    split; [exact Ho|]. split; [exact I2|].
    split; [eapply incl_tran; eauto|]. split.
    + simpl. rewrite <- app_assoc, removals_app, removalLog_removals. simpl.
      now rewrite R2.
    + intros n [<-|Hn]; [|now apply G2].
      intros Hin. apply G1. now apply S2.
Qed.

Lemma checkPort_stretch (port : string) (w : World rt) :
  Inv w ->
  outcome_of (checkPort rt port w) = Ok tt /\
  stretch w (events_of (checkPort rt port w)) (world_of (checkPort rt port w)).
Proof.
  intros Hw. rewrite checkPort_eq. cbv zeta.
  set (w1 := fst (spawn rt DockerPsPorts w)).
  set (out := stdout_of (chunks (snd (spawn rt DockerPsPorts w)))).
  assert (I1 : Inv w1) by now apply Inv_spawn.
  destruct (conflictingContainers_listed port out) as [Hincl Hnd].
  specialize (Hnd (listed_once w Hw)).
  pose proof (remove_found port _ Hnd w1 I1) as H.
  destruct (for_each (conflictingContainers port out) _ w1) as [[w2 e2] r2].
  unfold stretch, outcome_of, events_of, world_of; simpl.
  destruct H as (Ho & I2 & S2 & R2 & G2).
  split; [exact Ho|]. split; [exact I2|]. split.
  - eapply incl_tran; [exact S2|]. now apply listing_reads.
  - rewrite R2. split; [exact Hnd|].
    intros n Hn. split; [now apply Hincl|now apply G2].
Qed.

Lemma removeByPort_stretch (svcInfos : list SvcInfo) (w : World rt) :
  Inv w ->
  outcome_of (removeByPort rt svcInfos w) = Ok tt /\
  stretch w (events_of (removeByPort rt svcInfos w))
            (world_of (removeByPort rt svcInfos w)).
Proof.
  unfold removeByPort. revert w. apply for_each_stretch.
  intros svc. apply for_each_stretch. intros port w Hw.
  now apply checkPort_stretch.
Qed.

Lemma removeByName_run (svcInfos : list SvcInfo) (names : list string) :
  Forall2 (fun svc n => JsValue.ToString (containerName svc) = Ok n)
          svcInfos names ->
  forall w, Inv w ->
    outcome_of (removeByName rt svcInfos w) = Ok tt /\
    removals (events_of (removeByName rt svcInfos w)) = names /\
    Inv (world_of (removeByName rt svcInfos w)).
Proof.
  unfold removeByName.
  induction 1 as [|svc n svcInfos names Hn H IH]; intros w Hw.
  - simpl. repeat split; auto.
  - rewrite (for_each_cons_ok rt
               (fun svc =>
                  bind (lift (JsValue.ToString (containerName svc)))
                    (fun shown =>
                       bind (log Info (RemovingByName shown))
                         (fun _ => removeContainer rt (containerName svc))))
               svc svcInfos w _ _ (removeNamed_eq rt svc n w Hn)).
    set (w1 := fst (spawn rt (DockerRmByName n) w)).
    assert (I1 : Inv w1) by now apply Inv_spawn.
    specialize (IH w1 I1).
    destruct (for_each svcInfos _ w1) as [[w2 e2] r2].
    unfold outcome_of, events_of, world_of in *; simpl in *.
    destruct IH as (Ho & R2 & I2).
    split; [exact Ho|]. split; [|exact I2].
    rewrite <- app_assoc, removals_app, removalLog_removals. simpl.
    now rewrite R2.
Qed.

(** Where removals take effect, the port pass attempts no container
    twice. *)
Lemma removeByPort_once (svcInfos : list SvcInfo) (w : World rt) :
  Inv w ->
  outcome_of (removeByPort rt svcInfos w) = Ok tt /\
  NoDup (removals (events_of (removeByPort rt svcInfos w))).
Proof.
  intros Hw.
  destruct (removeByPort_stretch svcInfos w Hw) as (Hp & _ & _ & Hnd & _).
  now split.
Qed.

End Cleanup.

(** ** One container on two requested ports *)

Lemma oldOrGone_listed (w : Sim.world) :
  oldOrGone w ->
  (Sim.running w = [("old", bothPorts)] /\ listed Sim.runtime w = ["old"]) \/
  (Sim.running w = [] /\ listed Sim.runtime w = []).
Proof.
  intros [_ [H|H]]; [left|right]; (split; [exact H|]);
    unfold listed; simpl; rewrite H; reflexivity.
Qed.

Lemma oldOrGone_spawn (cmd : command) (w : Sim.world) :
  oldOrGone w -> oldOrGone (fst (Sim.sim_spawn cmd w)).
Proof.
  intros [Hr Hw]. destruct cmd; simpl; try (now split).
  unfold oldOrGone, Sim.remove; simpl.
  split; [exact Hr|]. rewrite Hr.
  destruct Hw as [H|H]; rewrite H; simpl; [|now right].
  destruct (String.eqb "old" name); simpl; auto.
Qed.

Lemma oldOrGone_removal (n : string) (w : Sim.world) :
  oldOrGone w ->
  incl (listed Sim.runtime (fst (Sim.sim_spawn (DockerRmByName n) w)))
       (listed Sim.runtime w) /\
  ~ In n (listed Sim.runtime (fst (Sim.sim_spawn (DockerRmByName n) w))).
Proof.
  intros Hw.
  pose proof (oldOrGone_spawn (DockerRmByName n) w Hw) as Hw'.
  destruct Hw as [Hr Hw].
  assert (Hrun : Sim.running (fst (Sim.sim_spawn (DockerRmByName n) w))
                 = filter (fun c => negb (String.eqb (fst c) n))
                     (Sim.running w))
    by (unfold Sim.remove; simpl; now rewrite Hr).
  destruct (oldOrGone_listed _ Hw') as [[H1 L1]|[H1 L1]]; rewrite L1.
  - rewrite Hrun in H1.
    destruct Hw as [H|H]; rewrite H in H1; simpl in H1; [|discriminate].
    destruct (String.eqb "old" n) eqn:E; simpl in H1; [discriminate|].
    apply String.eqb_neq in E.
    assert (L : listed Sim.runtime w = ["old"])
      by (unfold listed; simpl; rewrite H; reflexivity).
    rewrite L. split; [apply incl_refl|].
    intros [Hin|[]]. congruence.
  - split; [apply incl_nil_l|intros []].
Qed.

(** As the specification states it, C5 fails where a removal does not
    take effect: the container is listed again for the second port and
    attempted a second time. *)
Lemma removal_attempted_twice :
  removals
    (events_of (removeByPort Sim.runtime [twoPortService] (oldWorld false)))
  = ["old"; "old"] /\
  ~ NoDup
      (removals
         (events_of
            (removeByPort Sim.runtime [twoPortService] (oldWorld false)))).
Proof.
  assert (E : removals
                (events_of
                   (removeByPort Sim.runtime [twoPortService] (oldWorld false)))
              = ["old"; "old"]) by reflexivity.
  split; [exact E|]. rewrite E. intros H.
  inversion H as [|? ? Hin _]; subst. apply Hin. now left.
Qed.

(* ================================================================== *)
(** * The ports map and the web URL (steps 4 and 5) *)
(* ================================================================== *)

Lemma inspectService_eq (rt : Runtime) (s : string) (w : World rt) :
  let q := DockerPortOf s in
  inspectService rt s w =
  (fst (spawn rt q w),
   Spawn q :: (flat_map queryLog (chunks (snd (spawn rt q w)))
               ++ [Close q (code (snd (spawn rt q w)))])%list,
   Ok (parseMappings (portOutput rt s w))).
Proof.
  intros q. unfold inspectService, bind.
  rewrite (run_eq rt _ _ queryLog).
  - unfold ret, portOutput. simpl. now rewrite app_nil_r.
  - now intros [d|d] w0.
Qed.

(** Step 4 sets one property per service, in the order of the list. *)
Lemma detectPorts_run (rt : Runtime) (serviceNames : list string) :
  forall (acc : Ports) (w : World rt),
  exists w' evs ms,
    detectPorts rt serviceNames acc w =
    (w', evs,
     Ok (fold_left (fun o sm => JsObject.set (fst sm) (snd sm) o)
           (combine serviceNames ms) acc)) /\
    Forall2 (queried rt) serviceNames ms.
Proof.
  induction serviceNames as [|s tl IH]; intros acc w; simpl.
  - exists w, [], []. split; [reflexivity|constructor].
  - unfold bind. rewrite inspectService_eq. cbv zeta.
    set (w1 := fst (spawn rt (DockerPortOf s) w)).
    set (m := parseMappings (portOutput rt s w)).
    destruct (IH (JsObject.set s m acc) w1) as (w' & evs & ms & E & F).
    rewrite E. eexists w', _, (m :: ms). split; [reflexivity|].
    constructor; [now exists w|exact F].
Qed.

Lemma detectPorts_chain (rt : Runtime) (serviceNames : list string) :
  forall (acc : Ports) (w : World rt),
    outcome_of (detectPorts rt serviceNames acc w)
    = Ok (fold_left (fun o sm => JsObject.set (fst sm) (snd sm) o)
            (combine serviceNames (queriedMappings rt serviceNames w)) acc).
Proof.
  induction serviceNames as [|s tl IH]; intros acc w; simpl; [reflexivity|].
  unfold bind. rewrite inspectService_eq. cbv zeta.
  specialize (IH (JsObject.set s (parseMappings (portOutput rt s w)) acc)
                 (fst (spawn rt (DockerPortOf s) w))).
  now destruct (detectPorts rt tl _ _) as [[w2 e2] r2].
Qed.

Lemma queriedMappings_length (rt : Runtime) (serviceNames : list string) :
  forall w : World rt,
    List.length (queriedMappings rt serviceNames w)
    = List.length serviceNames.
Proof.
  induction serviceNames as [|s tl IH]; intros w; simpl; [reflexivity|].
  now rewrite IH.
Qed.

Lemma set_all_fresh {A} (names : list string) (ms : list A) :
  NoDup names -> ~ In "__proto__" names ->
  List.length ms = List.length names ->
  forall acc : JsObject.t A,
    (forall s, In s names -> ~ In s (map fst acc)) ->
    fold_left (fun o sm => JsObject.set (fst sm) (snd sm) o)
      (combine names ms) acc
    = (acc ++ combine names ms)%list.
Proof.
  intros Hnd. revert ms.
  induction Hnd as [|s names Hs Hnd IH]; intros ms Hp Hlen acc Hacc; simpl.
  - now rewrite app_nil_r.
  - destruct ms as [|m ms]; [discriminate|]. simpl.
    rewrite JsObjectFacts.set_fresh;
      [|intros ->; apply Hp; now left|apply Hacc; now left].
    rewrite IH.
    + now rewrite <- app_assoc.
    + intros Hin. apply Hp. now right.
    + simpl in Hlen. lia.
    + intros s' Hs' Hin. rewrite map_app in Hin.
      apply in_app_or in Hin as [Hin|[<-|[]]].
      * apply (Hacc s'); [now right|exact Hin].
      * contradiction.
Qed.

Lemma map_fst_combine {A B} (l : list A) (l' : list B) :
  List.length l' = List.length l -> map fst (combine l l') = l.
Proof.
  revert l'. induction l as [|x l IH]; intros [|y l'] H; simpl in *;
    try discriminate; [reflexivity|].
  f_equal. apply IH. lia.
Qed.

(** The service list of stage 1 is in the order of own keys. *)
Lemma stage1Names_ordered (rt : Runtime) (composePath : string)
    (w : World rt) :
  JsObject.own_ordered (fun k => k) (stage1Names rt composePath w).
Proof.
  rewrite stage1Names_eq. unfold manifestReading.
  assert (N : JsObject.own_ordered (fun k : string => k) [])
    by (apply JsObject.oo_names; constructor).
  destruct (load_yaml rt w composePath) as [doc|e]; [|exact N].
  destruct (JsValue.get doc "services") as [s|e]; [|exact N].
  destruct (JsValue.truthy s); [|exact N].
  destruct s; simpl; try exact N; apply JsObjectFacts.own_order_ordered.
Qed.

(** The entries of the map in order, for the first with a mapping *)
Lemma pickWebUrl_first (l pre : list (string * list PortBinding)) :
  NoDup (map fst (pre ++ l)) ->
  pickWebUrl l = firstWebUrl (map fst l) (pre ++ l)%list.
Proof.
  revert pre. induction l as [|[k m] l IH]; intros pre Hnd; simpl.
  - reflexivity.
  - assert (Hk : ~ In k (map fst pre)).
    { rewrite map_app in Hnd. simpl in Hnd.
      apply NoDup_remove_2 in Hnd. intros Hin. apply Hnd.
      apply in_or_app. now left. }
    unfold bindingsOf.
    rewrite (JsObjectFacts.get_app_fresh k pre ((k, m) :: l) Hk).
    rewrite JsObjectFacts.get_head.
    destruct m as [|b m]; [|reflexivity].
    change (pre ++ (k, []) :: l)%list with (pre ++ [(k, [])] ++ l)%list.
    rewrite app_assoc. apply IH. now rewrite <- app_assoc.
Qed.

(** What a successful invocation returns: the mappings of the queries,
    one entry per service of stage 1 and in its order, and the URL
    picked from them. *)
Lemma handler_returns (rt : Runtime) (input : Input) (workspacePath : string)
    (w : World rt) (out : Output) :
  let serviceNames :=
    stage1Names rt (composePathOf rt input workspacePath) w in
  outcome_of (handler rt input workspacePath w) = Ok out ->
  NoDup serviceNames ->
  ~ In "__proto__" serviceNames ->
  exists ms,
    Forall2 (queried rt) serviceNames ms /\
    ports out = combine serviceNames ms /\
    JsObject.entries (ports out) = ports out /\
    webUrl out = pickWebUrl (JsObject.entries (ports out)).
Proof.
  intros names. pose proof (stage1Names_ordered rt
                              (composePathOf rt input workspacePath) w) as Ho.
  fold names in Ho. subst names.
  rewrite stage1Names_eq in *. rewrite handler_eq. cbv zeta.
  set (reading := manifestReading
                    (load_yaml rt w (composePathOf rt input workspacePath)))
    in *.
  set (names := fst (snd reading)) in *.
  destruct (existsSync rt w _); [|discriminate].
  destruct (buildSvcInfos _ _ _) as [infos|e]; [|discriminate].
  destruct (removeByName rt infos w) as [[w2 ev2] [[]|e]]; [|discriminate].
  destruct (removeByPort rt infos w2) as [[w3 ev3] [[]|e]]; [|discriminate].
  destruct (composeUp rt _ _ w3) as [[w4 ev4] [[]|e]]; [|discriminate].
  destruct (detectPorts_run rt names JsObject.empty w4)
    as (w5 & ev5 & ms & E & F).
  rewrite E. unfold outcome_of. simpl. intros H Hnd Hp.
  inversion H; subst out; clear H. simpl.
  assert (Hlen : List.length ms = List.length names)
    by (symmetry; eapply Forall2_length; eauto).
  rewrite (set_all_fresh names ms Hnd Hp Hlen JsObject.empty)
    by (intros s _ []).
  simpl. exists ms. split; [exact F|]. split; [reflexivity|].
  split; [|reflexivity].
  apply JsObjectFacts.own_order_fixed, JsObjectFacts.own_ordered_keys.
  now rewrite map_fst_combine.
Qed.

(** The ports map returned is the one step 4 builds in the world the
    launch left. *)
Lemma handler_ports (rt : Runtime) (input : Input) (workspacePath : string)
    (w : World rt) (out : Output) :
  let serviceNames :=
    stage1Names rt (composePathOf rt input workspacePath) w in
  outcome_of (handler rt input workspacePath w) = Ok out ->
  ports out
  = fold_left (fun o sm => JsObject.set (fst sm) (snd sm) o)
      (combine serviceNames
         (queriedMappings rt serviceNames
            (launchedWorld rt input workspacePath w)))
      JsObject.empty.
Proof.
  intros names. subst names. unfold launchedWorld.
  rewrite stage1Names_eq, readManifest_eq, handler_eq. cbv zeta.
  unfold outcome_of at 2. cbn [snd].
  destruct (snd (manifestReading
                   (load_yaml rt w (composePathOf rt input workspacePath))))
    as [names doc]. cbn [fst snd].
  destruct (existsSync rt w _); [|discriminate].
  destruct (buildSvcInfos _ _ _) as [infos|e]; [|discriminate].
  destruct (removeByName rt infos w) as [[w2 ev2] [[]|e]]; [|discriminate].
  unfold world_of at 3. cbn [fst].
  destruct (removeByPort rt infos w2) as [[w3 ev3] [[]|e]]; [|discriminate].
  unfold world_of at 2. cbn [fst].
  destruct (composeUp rt _ _ w3) as [[w4 ev4] [[]|e]]; [|discriminate].
  unfold world_of. cbn [fst].
  pose proof (detectPorts_chain rt names JsObject.empty w4) as Hd.
  destruct (detectPorts rt names JsObject.empty w4) as [[w5 ev5] [ps|e]];
    [|discriminate].
  unfold outcome_of in *. simpl in *. intros H.
  inversion H; subst out; clear H. simpl. now inversion Hd.
Qed.

(** X22.  Unless a service is named [__proto__], the ports map a
    successful invocation returns has the service names of stage 1 as
    its keys, each once and no other: it pairs the services, in order,
    with the mappings of their queries, made one after the other from
    the world the launch left.  Every service has an entry: the mappings
    of the lines of the tcp form that its query printed, which is the
    empty sequence when no line of it parses. *)
Theorem ports_has_every_service (rt : Runtime) (input : Input)
    (workspacePath : string) (w : World rt) (out : Output) :
  let serviceNames :=
    stage1Names rt (composePathOf rt input workspacePath) w in
  outcome_of (handler rt input workspacePath w) = Ok out ->
  NoDup serviceNames ->
  ~ In "__proto__" serviceNames ->
  JsObject.keys (ports out) = serviceNames /\
  ports out
  = combine serviceNames
      (queriedMappings rt serviceNames
         (launchedWorld rt input workspacePath w)) /\
  forall s, In s serviceNames ->
    exists w' m,
      JsObject.get s (ports out) = Some m /\
      m = parseMappings (portOutput rt s w') /\
      (forall b,
         In b m <->
         exists a,
           In (containerPort b ++ "/tcp -> " ++ a ++ ":" ++ hostPort b)
              (split (portOutput rt s w') newline) /\
           containerPort b <> "" /\ all_digits (containerPort b) = true /\
           a <> "" /\ no_colon a = true /\
           hostPort b <> "" /\ all_digits (hostPort b) = true) /\
      ((forall line, In line (split (portOutput rt s w') newline) ->
                     parsePortLine line = None) ->
       m = []).
Proof.
  intros names Hout Hnd Hproto.
  destruct (handler_returns rt input workspacePath w out Hout Hnd Hproto)
    as (ms & F & Hp & He & _).
  fold names in F, Hp.
  assert (Hlen : List.length ms = List.length names)
    by (symmetry; eapply Forall2_length; eauto).
  split; [|split].
  - unfold JsObject.keys. rewrite He, Hp. now apply map_fst_combine.
  - rewrite (handler_ports rt input workspacePath w out Hout).
    fold names.
    rewrite (set_all_fresh names _ Hnd Hproto
               (queriedMappings_length rt names _) JsObject.empty)
      by (intros s _ []).
    reflexivity.
  - rewrite Hp. clear Hp He Hout Hlen Hproto.
    induction F as [|s0 m names' ms' [w' Hm] F IH]; intros s Hs;
      [contradiction|].
    inversion Hnd as [|? ? Hs0 Hnd']; subst. simpl.
    destruct (String.eqb s s0) eqn:E.
    + apply String.eqb_eq in E. subst s0.
      exists w', (parseMappings (portOutput rt s w')).
      split; [reflexivity|]. split; [reflexivity|].
      split; [intros b; apply parseMappings_In|].
      intros Hnone. unfold parseMappings.
      induction (split (portOutput rt s w') newline) as [|l ls IHl];
        [reflexivity|].
      simpl. rewrite (Hnone l) by now left.
      apply IHl. intros l' Hl'. apply Hnone. now right.
    + apply String.eqb_neq in E. destruct Hs as [Hs|Hs]; [congruence|].
      now apply IH.
Qed.

(** X23.  Unless a service is named [__proto__], the entries of the
    returned ports map come in the order of the service list of stage 1,
    and the returned URL is that of the first service with a mapping:
    [http://localhost:] and the host port of its first mapping, or the
    empty string when no service has one. *)
Theorem webUrl_of_first_service (rt : Runtime) (input : Input)
    (workspacePath : string) (w : World rt) (out : Output) :
  let serviceNames :=
    stage1Names rt (composePathOf rt input workspacePath) w in
  outcome_of (handler rt input workspacePath w) = Ok out ->
  NoDup serviceNames ->
  ~ In "__proto__" serviceNames ->
  map fst (JsObject.entries (ports out)) = serviceNames /\
  webUrl out = firstWebUrl serviceNames (ports out).
Proof.
  intros names Hout Hnd Hproto.
  destruct (handler_returns rt input workspacePath w out Hout Hnd Hproto)
    as (ms & F & Hp & He & Hu).
  fold names in F, Hp.
  assert (Hlen : List.length ms = List.length names)
    by (symmetry; eapply Forall2_length; eauto).
  assert (Hk : map fst (ports out) = names)
    by (rewrite Hp; now apply map_fst_combine).
  split; [now rewrite He|].
  rewrite Hu, He, <- Hk.
  apply (pickWebUrl_first (ports out) []). simpl. now rewrite Hk.
Qed.

(** ** The scenario of two services *)

Lemma apiDb_names :
  stage1Names Sim.runtime
    (composePathOf Sim.runtime simInput "/ws") apiDbWorld = ["api"; "db"].
Proof. reflexivity. Qed.

Lemma ports_has_every_service_witness :
  JsObject.keys (ports apiDbOut) = ["api"; "db"] /\
  ports apiDbOut
  = combine ["api"; "db"]
      (queriedMappings Sim.runtime ["api"; "db"]
         (launchedWorld Sim.runtime simInput "/ws" apiDbWorld)) /\
  forall s, In s ["api"; "db"] ->
    exists w' m,
      JsObject.get s (ports apiDbOut) = Some m /\
      m = parseMappings (portOutput Sim.runtime s w') /\
      (forall b,
         In b m <->
         exists a,
           In (containerPort b ++ "/tcp -> " ++ a ++ ":" ++ hostPort b)
              (split (portOutput Sim.runtime s w') newline) /\
           containerPort b <> "" /\ all_digits (containerPort b) = true /\
           a <> "" /\ no_colon a = true /\
           hostPort b <> "" /\ all_digits (hostPort b) = true) /\
      ((forall line, In line (split (portOutput Sim.runtime s w') newline) ->
                     parsePortLine line = None) ->
       m = []).
Proof.
  apply (ports_has_every_service Sim.runtime simInput "/ws" apiDbWorld
           apiDbOut).
  - reflexivity.
  - rewrite apiDb_names. repeat constructor; simpl; intuition discriminate.
  - rewrite apiDb_names. simpl. intuition discriminate.
Defined.

Lemma webUrl_of_first_service_witness :
  map fst (JsObject.entries (ports apiDbOut)) = ["api"; "db"] /\
  webUrl apiDbOut = firstWebUrl ["api"; "db"] (ports apiDbOut).
Proof.
  apply (webUrl_of_first_service Sim.runtime simInput "/ws" apiDbWorld
           apiDbOut).
  - reflexivity.
  - rewrite apiDb_names. repeat constructor; simpl; intuition discriminate.
  - rewrite apiDb_names. simpl. intuition discriminate.
Defined.

(** Of two services, only the second with a mapping: the URL is built
    from the second. *)
Example webUrl_second_service :
  pickWebUrl
    [("db", []);
     ("api", [{| hostPort := "32800"; containerPort := "3000" |}])]
  = "http://localhost:32800" /\
  pickWebUrl [("db", []); ("api", [])] = "".
Proof. split; reflexivity. Qed.

(** Keys that are array indices come first, by value. *)
Example keys_order :
  JsObject.keys [("b", 1); ("2", 2); ("a", 3); ("10", 4); ("1", 5); ("01", 6)]
  = ["1"; "2"; "10"; "b"; "a"; "01"].
Proof. reflexivity. Qed.

(* ================================================================== *)
(** * More about strings *)
(* ================================================================== *)

Lemma includes_iff (s sub : string) :
  includes s sub = true <-> exists pre post, s = pre ++ sub ++ post.
Proof.
  induction s as [|c s IH]; simpl.
  - rewrite orb_false_r, starts_with_iff. split.
    + intros [post H]. now exists "", post.
    + intros (pre & post & H). destruct pre; [now exists post|discriminate].
  - rewrite orb_true_iff, starts_with_iff, IH. split.
    + intros [[post H]|(pre & post & H)].
      * now exists "", post.
      * exists (String c pre), post. simpl. now rewrite H.
    + intros (pre & post & H). destruct pre as [|d pre]; simpl in H.
      * left. now exists post.
      * right. inversion H; subst. now exists pre, post.
Qed.

Lemma first_colon (s : string) :
  no_colon s = true \/
  exists h rest, s = h ++ ":" ++ rest /\ no_colon h = true.
Proof.
  unfold no_colon. induction s as [|c s IH]; simpl; [now left|].
  destruct (is_colon c) eqn:E; simpl.
  - right. unfold is_colon in E. apply Ascii.eqb_eq in E. subst c.
    now exists "", s.
  - destruct IH as [IH|(h & rest & -> & Hh)]; [now left|].
    right. exists (String c h), rest. simpl. now rewrite E, Hh.
Qed.

(** ** [split] and [join] *)

Lemma split_go_skip (sep p rest : string) :
  split_go sep (String.length p) (p ++ rest) = split_go sep 0 rest.
Proof. induction p as [|a p IH]; simpl; [reflexivity|exact IH]. Qed.

Lemma join_cons_char (sep : string) (c : ascii) (h : string)
    (t : list string) :
  join sep (String c h :: t) = String c (join sep (h :: t)).
Proof. destruct t; reflexivity. Qed.

Lemma join_split_bounded (sep : string) (n : nat) :
  sep <> "" ->
  forall s, String.length s <= n -> join sep (split_go sep 0 s) = s.
Proof.
  intros Hsep. induction n as [|n IH]; intros s Hn.
  - destruct s; [reflexivity|simpl in Hn; lia].
  - destruct s as [|c s]; [reflexivity|].
    simpl in Hn. cbn [split_go].
    destruct (starts_with sep (String c s)) eqn:E.
    + apply starts_with_iff in E as [rest E].
      destruct sep as [|a sep']; [congruence|].
      simpl in E. inversion E; subst.
      replace (String.length (String a sep') - 1)
        with (String.length sep') by (simpl; lia).
      rewrite split_go_skip.
      assert (Hr : String.length rest <= n).
      { rewrite string_length_app in Hn. lia. }
      specialize (IH rest Hr).
      destruct (split_go (String a sep') 0 rest) as [|x xs] eqn:Ex.
      * now apply split_go_nonempty in Ex.
      * change (join (String a sep') ("" :: x :: xs))
          with ("" ++ String a sep' ++ join (String a sep') (x :: xs)).
        now rewrite IH.
    + assert (Hs : String.length s <= n) by lia.
      specialize (IH s Hs).
      destruct (split_go sep 0 s) as [|h t] eqn:Ex.
      * now apply split_go_nonempty in Ex.
      * now rewrite join_cons_char, IH.
Qed.

(* ================================================================== *)
(** * Further properties of the pure parts *)
(* ================================================================== *)

(** X1.  A port specification declares a host port exactly when it has
    a colon, and the host port is then the text before its first
    colon. *)
Theorem declaredHostPort_spec (spec h : string) :
  declaredHostPort spec = Some h <->
  no_colon h = true /\ exists rest, spec = h ++ ":" ++ rest.
Proof.
  split.
  - intros H. destruct (first_colon spec) as [N|(h' & rest & -> & N)].
    + rewrite (declaredHostPort_no_colon spec N) in H. discriminate.
    + rewrite (declaredHostPort_first_segment h' rest N) in H.
      inversion H; subst. split; [exact N|now exists rest].
  - intros [N [rest ->]]. now apply declaredHostPort_first_segment.
Qed.

Lemma pushHostPorts_strings (specs acc : list string) :
  pushHostPorts (map VString specs) acc
  = Ok (acc ++ collect declaredHostPort specs)%list.
Proof.
  revert acc. induction specs as [|s specs IH]; intros acc; simpl.
  - now rewrite app_nil_r.
  - destruct (declaredHostPort s) as [h|]; rewrite IH; [|reflexivity].
    now rewrite <- app_assoc.
Qed.

(** X2.  For a service whose entry is a mapping, the container name is
    its [container_name] when that is truthy and the name
    [<directory>_<service>_1] otherwise; its expected host ports are
    those its [ports], a list of strings, declare, in order, and none
    when it has no [ports]. *)
Theorem svcInfoOf_mapping (composeDirName : string)
    (composeDoc services : value) (service : string)
    (props : list (string * value)) :
  JsValue.get composeDoc "services" = Ok services ->
  JsValue.get services service = Ok (VObject props) ->
  let name :=
    match JsObject.get "container_name" props with
    | Some cn =>
        if JsValue.truthy cn then cn
        else VString (composeDirName ++ "_" ++ service ++ "_1")
    | None => VString (composeDirName ++ "_" ++ service ++ "_1")
    end in
  (forall specs,
     JsObject.get "ports" props = Some (VArray (map VString specs)) ->
     svcInfoOf composeDirName composeDoc service
     = Ok {| service := service;
             containerName := name;
             expectedHostPorts := collect declaredHostPort specs |}) /\
  (JsObject.get "ports" props = None ->
   svcInfoOf composeDirName composeDoc service
   = Ok {| service := service;
           containerName := name;
           expectedHostPorts := [] |}).
Proof.
  intros Hs Hd name. unfold svcInfoOf. rewrite Hs. simpl. rewrite Hd. simpl.
  subst name. split.
  - intros specs Hp. rewrite Hp. simpl.
    rewrite pushHostPorts_strings. simpl.
    destruct (JsObject.get "container_name" props) as [cn|]; reflexivity.
  - intros Hp. rewrite Hp. simpl.
    destruct (JsObject.get "container_name" props) as [cn|]; reflexivity.
Qed.

Lemma svcInfoOf_mapping_witness :
  (forall specs,
     JsObject.get "ports" [("ports", VArray [VString "3000:3000"])]
     = Some (VArray (map VString specs)) ->
     svcInfoOf "proj" apiDbDoc "api"
     = Ok {| service := "api";
             containerName := VString "proj_api_1";
             expectedHostPorts := collect declaredHostPort specs |}) /\
  (JsObject.get "ports" [("ports", VArray [VString "3000:3000"])] = None ->
   svcInfoOf "proj" apiDbDoc "api"
   = Ok {| service := "api";
           containerName := VString "proj_api_1";
           expectedHostPorts := [] |}).
Proof.
  apply (svcInfoOf_mapping "proj" apiDbDoc
           (VObject
              [("api", VObject [("ports", VArray [VString "3000:3000"])]);
               ("db", VObject [("container_name", VString "mydb")])])
           "api" [("ports", VArray [VString "3000:3000"])]); reflexivity.
Defined.

Lemma svcInfoOf_service (composeDirName : string) (composeDoc : value)
    (name : string) (info : SvcInfo) :
  svcInfoOf composeDirName composeDoc name = Ok info -> service info = name.
Proof.
  unfold svcInfoOf, bind_result.
  destruct (JsValue.get composeDoc "services") as [s|]; [|discriminate].
  destruct (JsValue.get s name) as [def|]; [|discriminate].
  destruct (JsValue.get def "container_name") as [cn|]; [|discriminate].
  destruct (JsValue.get def "ports") as [ps|]; [|discriminate].
  destruct (if JsValue.truthy ps then _ else _) as [hp|]; [|discriminate].
  intros H. now inversion H.
Qed.

(** X3.  When the loop that fills [svcInfos] ends, there is one entry
    per service name, in the order of the names. *)
Theorem buildSvcInfos_names (composeDirName : string) (composeDoc : value)
    (serviceNames : list string) (svcInfos : list SvcInfo) :
  buildSvcInfos composeDirName composeDoc serviceNames = Ok svcInfos ->
  map service svcInfos = serviceNames.
Proof.
  revert svcInfos.
  induction serviceNames as [|s tl IH]; intros svcInfos; simpl.
  - intros H. now inversion H.
  - unfold bind_result.
    destruct (svcInfoOf composeDirName composeDoc s) as [info|] eqn:E;
      [|discriminate].
    destruct (buildSvcInfos composeDirName composeDoc tl) as [rest|];
      [|discriminate].
    intros H. inversion H; subst. simpl.
    now rewrite (svcInfoOf_service _ _ _ _ E), (IH rest eq_refl).
Qed.

Lemma buildSvcInfos_names_witness :
  map service
    [{| service := "api";
        containerName := VString "proj_api_1";
        expectedHostPorts := ["3000"] |};
     {| service := "db";
        containerName := VString "mydb";
        expectedHostPorts := [] |}]
  = ["api"; "db"].
Proof.
  apply (buildSvcInfos_names "proj" apiDbDoc). reflexivity.
Defined.

Lemma parsePortLine_digits (line : string) (b : PortBinding) :
  parsePortLine line = Some b -> digitBinding b.
Proof.
  intros H. apply parsePortLine_inv in H as (a & _ & H1 & H2 & _ & _ & H3 & H4).
  now repeat split.
Qed.

(** X4.  Every mapping read from the output of [docker port] comes from
    one of its lines and holds two non-empty runs of digits; there are
    no more mappings than lines. *)
Theorem parseMappings_digits (output : string) :
  (forall b, In b (parseMappings output) ->
     digitBinding b /\
     exists line, In line (split output newline) /\
                  parsePortLine line = Some b) /\
  List.length (parseMappings output)
  <= List.length (split output newline).
Proof.
  unfold parseMappings. split; [|apply collect_length].
  intros b Hb. apply collect_In in Hb as (line & Hl & Hp).
  split; [now apply (parsePortLine_digits line)|now exists line].
Qed.

(** X5.  The conflict test holds exactly of the port texts in which the
    requested port is followed by an arrow somewhere. *)
Theorem conflicts_iff (port portsText : string) :
  conflicts port portsText = true <->
  exists pre post, portsText = pre ++ port ++ "->" ++ post.
Proof.
  unfold conflicts. rewrite andb_true_iff, negb_true_iff, includes_iff.
  split.
  - intros [_ (pre & post & ->)]. exists pre, post.
    now rewrite append_assoc.
  - intros (pre & post & ->). split.
    + apply String.eqb_neq. destruct pre; [|discriminate].
      destruct port; discriminate.
    + exists pre, post. now rewrite append_assoc.
Qed.

(** X6.  Joining the pieces of a split with the separator gives the
    string back. *)
Theorem join_split (s sep : string) :
  sep <> "" -> join sep (split s sep) = s.
Proof.
  intros H. unfold split.
  now apply (join_split_bounded sep (String.length s) H).
Qed.

Lemma join_split_witness :
  join ":::" (split "web:::0.0.0.0:8080->80/tcp, :::8080->80/tcp" ":::")
  = "web:::0.0.0.0:8080->80/tcp, :::8080->80/tcp".
Proof.
  apply (join_split "web:::0.0.0.0:8080->80/tcp, :::8080->80/tcp" ":::").
  discriminate.
Defined.

(** X7.  The URL is empty exactly when no entry of the map has a
    mapping. *)
Theorem pickWebUrl_empty (entries : list (string * list PortBinding)) :
  pickWebUrl entries = "" <-> Forall (fun e => snd e = []) entries.
Proof.
  induction entries as [|[k m] l IH]; simpl.
  - split; [constructor|reflexivity].
  - destruct m as [|b m].
    + rewrite IH. split; [now constructor|intros H; now inversion H].
    + split; [discriminate|]. intros H. inversion H; subst. discriminate.
Qed.

(* ================================================================== *)
(** * Further properties of the stages *)
(* ================================================================== *)

Lemma listings_app (a b : list event) :
  listings (a ++ b) = listings a + listings b.
Proof.
  induction a as [|e a IH]; simpl; [reflexivity|].
  destruct e as [| [] | | |]; simpl; now rewrite ?IH.
Qed.

Lemma launches_app (a b : list event) :
  launches (a ++ b) = launches a + launches b.
Proof.
  induction a as [|e a IH]; simpl; [reflexivity|].
  destruct e as [| [] | | |]; simpl; now rewrite ?IH.
Qed.

Lemma removalLog_listings (cs : list chunk) :
  listings (flat_map removalLog cs) = 0.
Proof.
  induction cs as [|c cs IH]; simpl; [reflexivity|].
  rewrite listings_app, IH. now destruct c.
Qed.

(** A loop whose turns never throw: it never throws, and what its turns
    count adds up. *)
Lemma for_each_sum (rt : Runtime) {A} (count : list event -> nat)
    (size : A -> nat) (body : A -> M rt unit) :
  (forall a b, count (a ++ b)%list = count a + count b) ->
  count [] = 0 ->
  (forall x w,
     outcome_of (body x w) = Ok tt /\ count (events_of (body x w)) = size x) ->
  forall l w,
    outcome_of (for_each l body w) = Ok tt /\
    count (events_of (for_each l body w)) = list_sum (map size l).
Proof.
  intros Happ Hnil Hbody. induction l as [|x l IH]; intros w; simpl.
  - now split.
  - unfold bind. destruct (Hbody x w) as [Ho Hc].
    destruct (body x w) as [[w1 e1] r1].
    unfold outcome_of, events_of in *; simpl in *. subst r1.
    destruct (IH w1) as [Ho2 Hc2].
    destruct (for_each l body w1) as [[w2 e2] r2]; simpl in *.
    split; [exact Ho2|]. rewrite Happ. lia.
Qed.

Lemma removeFound_run (rt : Runtime) (port : string) (found : list string) :
  forall w,
    match for_each found (removeFound rt port) w with
    | (_, evs, r) => r = Ok tt /\ removals evs = found /\ listings evs = 0
    end.
Proof.
  induction found as [|c found IH]; intros w.
  - simpl. now repeat split.
  - rewrite (for_each_cons_ok rt (removeFound rt port) c found w _ _
               (removeFound_eq rt port c w)).
    specialize (IH (fst (spawn rt (DockerRmByName c) w))).
    destruct (for_each found (removeFound rt port) _) as [[w2 e2] r2].
    destruct IH as (Ho & Hr & Hl).
    split; [exact Ho|]. simpl.
    rewrite <- app_assoc, removals_app, removalLog_removals.
    rewrite listings_app, removalLog_listings. simpl.
    now rewrite Hr, Hl.
Qed.

(** X9.  The check of one requested port lists the running containers
    once and then attempts the removal of every container the listing
    shows in conflict, each once and in the order of the listing; it
    never throws, whatever the processes report. *)
Theorem checkPort_removes_found (rt : Runtime) (port : string)
    (w : World rt) :
  outcome_of (checkPort rt port w) = Ok tt /\
  listings (events_of (checkPort rt port w)) = 1 /\
  removals (events_of (checkPort rt port w))
  = conflictingContainers port
      (stdout_of (chunks (snd (spawn rt DockerPsPorts w)))).
Proof.
  rewrite checkPort_eq. cbv zeta.
  pose proof (removeFound_run rt port
                (conflictingContainers port
                   (stdout_of (chunks (snd (spawn rt DockerPsPorts w)))))
                (fst (spawn rt DockerPsPorts w))) as H.
  destruct (for_each _ (removeFound rt port) _) as [[w2 e2] r2].
  destruct H as (Ho & Hr & Hl).
  unfold outcome_of, events_of; simpl. now rewrite Hl.
Qed.

Lemma checkPort_counts (rt : Runtime) (port : string) (w : World rt) :
  outcome_of (checkPort rt port w) = Ok tt /\
  listings (events_of (checkPort rt port w)) = 1.
Proof.
  rewrite checkPort_eq. cbv zeta.
  pose proof (removeFound_run rt port
                (conflictingContainers port
                   (stdout_of (chunks (snd (spawn rt DockerPsPorts w)))))
                (fst (spawn rt DockerPsPorts w))) as H.
  destruct (for_each _ (removeFound rt port) _) as [[w2 e2] r2].
  destruct H as (Ho & Hr & Hl).
  unfold outcome_of, events_of; simpl. now rewrite Hl.
Qed.

Lemma list_sum_ones {A} (l : list A) :
  list_sum (map (fun _ => 1) l) = List.length l.
Proof. induction l; simpl; auto. Qed.

Lemma list_sum_lengths {A B} (f : A -> list B) (l : list A) :
  list_sum (map (fun x => List.length (f x)) l)
  = List.length (flat_map f l).
Proof.
  induction l as [|x l IH]; simpl; [reflexivity|].
  now rewrite List.length_app, IH.
Qed.

Lemma removeByPort_counts (rt : Runtime) (svcInfos : list SvcInfo)
    (w : World rt) :
  outcome_of (removeByPort rt svcInfos w) = Ok tt /\
  listings (events_of (removeByPort rt svcInfos w))
  = List.length (flat_map expectedHostPorts svcInfos).
Proof.
  unfold removeByPort. rewrite <- list_sum_lengths.
  apply (for_each_sum rt listings
           (fun svc => List.length (expectedHostPorts svc)));
    [apply listings_app|reflexivity|].
  intros svc w0. rewrite <- list_sum_ones.
  apply (for_each_sum rt listings (fun _ => 1));
    [apply listings_app|reflexivity|].
  intros port w1. apply checkPort_counts.
Qed.

(** X10.  The port pass lists the running containers once for each
    declared host port of each service, never throws, and does nothing
    at all when no service declares a host port. *)
Theorem removeByPort_listings (rt : Runtime) (svcInfos : list SvcInfo)
    (w : World rt) :
  outcome_of (removeByPort rt svcInfos w) = Ok tt /\
  listings (events_of (removeByPort rt svcInfos w))
  = List.length (flat_map expectedHostPorts svcInfos) /\
  (flat_map expectedHostPorts svcInfos = [] ->
   removeByPort rt svcInfos w = (w, [], Ok tt)).
Proof.
  destruct (removeByPort_counts rt svcInfos w) as [Ho Hl].
  split; [exact Ho|]. split; [exact Hl|].
  clear Ho Hl. unfold removeByPort. revert w.
  induction svcInfos as [|svc l IH]; intros w H; simpl; [reflexivity|].
  simpl in H. apply app_eq_nil in H as [H1 H2].
  rewrite H1. simpl. unfold bind, ret. now rewrite (IH w H2).
Qed.

(* ================================================================== *)
(** * The removal attempts of the two passes *)
(* ================================================================== *)

Lemma for_each_app (rt : Runtime) {A} (l1 l2 : list A)
    (body : A -> M rt unit) (w : World rt) :
  for_each (l1 ++ l2)%list body w
  = bind (for_each l1 body) (fun _ => for_each l2 body) w.
Proof.
  revert w. induction l1 as [|x l1 IH]; intros w; simpl.
  - unfold bind, ret. now destruct (for_each l2 body w) as [[w2 e2] r2].
  - unfold bind. destruct (body x w) as [[w1 e1] [[]|e]]; [|reflexivity].
    rewrite IH. unfold bind.
    destruct (for_each l1 body w1) as [[w2 e2] [[]|e]]; [|reflexivity].
    destruct (for_each l2 body w2) as [[w3 e3] r3].
    now rewrite app_assoc.
Qed.

(** A loop in a loop is one loop over all the items. *)
Lemma for_each_flat (rt : Runtime) {A B} (f : A -> list B)
    (body : B -> M rt unit) (l : list A) (w : World rt) :
  for_each l (fun x => for_each (f x) body) w
  = for_each (flat_map f l) body w.
Proof.
  revert w. induction l as [|x l IH]; intros w; simpl; [reflexivity|].
  rewrite for_each_app. unfold bind.
  destruct (for_each (f x) body w) as [[w1 e1] [[]|e]]; [|reflexivity].
  now rewrite IH.
Qed.

Lemma removeFound_world (rt : Runtime) (port : string) (found : list string) :
  forall w,
    world_of (for_each found (removeFound rt port) w)
    = afterRemovals rt found w.
Proof.
  induction found as [|c found IH]; intros w; [reflexivity|].
  rewrite (for_each_cons_ok rt (removeFound rt port) c found w _ _
             (removeFound_eq rt port c w)).
  specialize (IH (fst (spawn rt (DockerRmByName c) w))).
  destruct (for_each found (removeFound rt port) _) as [[w2 e2] r2].
  exact IH.
Qed.

(** One port check, as a whole *)
Lemma checkPort_run (rt : Runtime) (port : string) (w : World rt) :
  let listing := spawn rt DockerPsPorts w in
  let found := conflictingContainers port (stdout_of (chunks (snd listing))) in
  exists evs,
    checkPort rt port w = (afterRemovals rt found (fst listing), evs, Ok tt) /\
    removals evs = found.
Proof.
  intros listing found. rewrite checkPort_eq. cbv zeta.
  fold listing. fold found.
  pose proof (removeFound_run rt port found (fst listing)) as H.
  pose proof (removeFound_world rt port found (fst listing)) as Hw.
  destruct (for_each found (removeFound rt port) (fst listing))
    as [[w2 e2] r2].
  destruct H as (-> & Hr & _). unfold world_of in Hw. simpl in Hw. subst w2.
  eexists. split; [reflexivity|]. exact Hr.
Qed.

Lemma checkPorts_found (rt : Runtime) (requested : list string) :
  forall w,
    removals (events_of (for_each requested (checkPort rt) w))
    = foundByPort rt requested w.
Proof.
  induction requested as [|port tl IH]; intros w; [reflexivity|].
  destruct (checkPort_run rt port w) as (evs & E & Hr).
  rewrite (for_each_cons_ok rt (checkPort rt) port tl w _ _ E).
  specialize (IH (afterRemovals rt
                    (conflictingContainers port
                       (stdout_of (chunks (snd (spawn rt DockerPsPorts w)))))
                    (fst (spawn rt DockerPsPorts w)))).
  destruct (for_each tl (checkPort rt) _) as [[w2 e2] r2].
  unfold events_of in *. simpl in *.
  now rewrite removals_app, Hr, IH.
Qed.

(** The name pass, whatever the processes do *)
Lemma removeByName_attempts (rt : Runtime) (svcInfos : list SvcInfo)
    (names : list string) :
  Forall2 (fun svc n => JsValue.ToString (containerName svc) = Ok n)
          svcInfos names ->
  forall w,
    outcome_of (removeByName rt svcInfos w) = Ok tt /\
    removals (events_of (removeByName rt svcInfos w)) = names /\
    listings (events_of (removeByName rt svcInfos w)) = 0.
Proof.
  unfold removeByName.
  induction 1 as [|svc n svcInfos names Hn H IH]; intros w.
  - simpl. now repeat split.
  - rewrite (for_each_cons_ok rt
               (fun svc =>
                  bind (lift (JsValue.ToString (containerName svc)))
                    (fun shown =>
                       bind (log Info (RemovingByName shown))
                         (fun _ => removeContainer rt (containerName svc))))
               svc svcInfos w _ _ (removeNamed_eq rt svc n w Hn)).
    specialize (IH (fst (spawn rt (DockerRmByName n) w))).
    destruct (for_each svcInfos _ _) as [[w2 e2] r2].
    unfold outcome_of, events_of in *; simpl in *.
    destruct IH as (Ho & R2 & L2).
    split; [exact Ho|].
    rewrite <- app_assoc, removals_app, removalLog_removals.
    rewrite listings_app, removalLog_listings. simpl.
    now rewrite R2, L2.
Qed.

(** C5 (amended).  The name pass issues one removal attempt for each
    service, in order, for the name its container will have, and lists
    nothing.  The port pass lists the running containers anew for each
    requested port, once, and attempts every container that listing
    shows in conflict before it looks at the next port; it never throws
    and keeps no record of its own.  Where a removal takes effect (the
    container is gone from the later listings) and a listing shows each
    container once, no container is attempted twice in the port pass,
    however many requested ports its port text matches. *)
Theorem removal_attempts (rt : Runtime) (svcInfos : list SvcInfo)
    (names : list string) (w : World rt) :
  Forall2 (fun svc n => JsValue.ToString (containerName svc) = Ok n)
          svcInfos names ->
  let byName := removeByName rt svcInfos w in
  let requested := flat_map expectedHostPorts svcInfos in
  let byPort := removeByPort rt svcInfos (world_of byName) in
  (outcome_of byName = Ok tt /\
   removals (events_of byName) = names /\
   listings (events_of byName) = 0) /\
  (outcome_of byPort = Ok tt /\
   listings (events_of byPort) = List.length requested /\
   removals (events_of byPort) = foundByPort rt requested (world_of byName)) /\
  forall Inv : World rt -> Prop,
    (forall cmd w0, Inv w0 -> Inv (fst (spawn rt cmd w0))) ->
    (forall w0, Inv w0 -> NoDup (listed rt w0)) ->
    (forall w0, Inv w0 ->
       incl (listed rt (fst (spawn rt DockerPsPorts w0))) (listed rt w0)) ->
    (forall n w0, Inv w0 ->
       incl (listed rt (fst (spawn rt (DockerRmByName n) w0))) (listed rt w0)
       /\ ~ In n (listed rt (fst (spawn rt (DockerRmByName n) w0)))) ->
    Inv w ->
    NoDup (removals (events_of byPort)).
Proof.
  intros Hn byName requested byPort.
  split; [exact (removeByName_attempts rt svcInfos names Hn w)|].
  split.
  - destruct (removeByPort_counts rt svcInfos (world_of byName)) as [Ho Hl].
    split; [exact Ho|]. split; [exact Hl|].
    unfold byPort, removeByPort.
    change (fun svc : SvcInfo => for_each (expectedHostPorts svc) (checkPort rt))
      with (fun svc : SvcInfo =>
              for_each (expectedHostPorts svc) (fun p => checkPort rt p)).
    rewrite (for_each_flat rt expectedHostPorts (fun p => checkPort rt p)).
    apply checkPorts_found.
  - intros Inv Hspawn Honce Hreads Hworks Hw.
    destruct (removeByName_run rt Inv Hspawn svcInfos names Hn w Hw)
      as (_ & _ & Hi).
    now destruct (removeByPort_once rt Inv Hspawn Honce Hreads Hworks
                    svcInfos (world_of byName) Hi).
Qed.

Lemma removal_attempts_witness :
  let byName := removeByName Sim.runtime [twoPortService] (oldWorld true) in
  let byPort :=
    removeByPort Sim.runtime [twoPortService] (world_of byName) in
  (outcome_of byName = Ok tt /\
   removals (events_of byName) = ["proj_web_1"] /\
   listings (events_of byName) = 0) /\
  (outcome_of byPort = Ok tt /\
   listings (events_of byPort) = 2 /\
   removals (events_of byPort) = ["old"]) /\
  NoDup (removals (events_of byPort)).
Proof.
  destruct (removal_attempts Sim.runtime [twoPortService] ["proj_web_1"]
              (oldWorld true))
    as (Hname & Hport & Honce).
  - repeat constructor.
  - split; [exact Hname|]. split; [exact Hport|].
    apply (Honce oldOrGone).
    + exact oldOrGone_spawn.
    + intros w Hw.
      destruct (oldOrGone_listed w Hw) as [[_ L]|[_ L]]; rewrite L;
        repeat constructor; simpl; tauto.
    + intros w Hw. simpl. apply incl_refl.
    + exact oldOrGone_removal.
    + split; [reflexivity|now left].
Defined.

(* ================================================================== *)
(** * What the handler throws, logs and returns *)
(* ================================================================== *)

(** ** The exceptions of the runtime are [TypeError]s *)

Lemma ToString_TypeError (v : value) :
  forall e, JsValue.ToString v = Throw e -> isTypeError e.
Proof.
  induction v as [ | | b | z | s | items IH | props IH ]
    using value_rect_nested; intros e; try discriminate.
  - destruct b; discriminate.
  - cbn [JsValue.ToString].
    induction IH as [|x tl Hx _ IHtl]; [discriminate|].
    destruct (match x with
              | VUndefined | VNull => Ok ""
              | _ => JsValue.ToString x
              end) as [sx|ex] eqn:Ex.
    + destruct tl as [|y tl']; [discriminate|].
      destruct ((fix join_items (l : list value) : result string :=
                   match l with
                   | [] => Ok ""
                   | x0 :: tl0 =>
                       match
                         match x0 with
                         | VUndefined | VNull => Ok ""
                         | _ => JsValue.ToString x0
                         end, tl0
                       with
                       | Throw e0, _ => Throw e0
                       | Ok s, [] => Ok s
                       | Ok s, _ :: _ =>
                           match join_items tl0 with
                           | Ok r => Ok (s ++ "," ++ r)
                           | Throw e0 => Throw e0
                           end
                       end
                   end) (y :: tl')) as [r|er] eqn:Er.
      * discriminate.
      * intros H. inversion H; subst. now apply IHtl.
    + intros H. inversion H; subst. apply Hx.
      destruct x; try discriminate; exact Ex.
  - cbn [JsValue.ToString].
    destruct (JsObject.has "toString" props); [|discriminate].
    intros H. now inversion H.
Qed.

Lemma toString_TypeError (v : value) (e : exn) :
  JsValue.toString v = Throw e -> isTypeError e.
Proof.
  destruct v; cbn [JsValue.toString];
    try (intros H; now inversion H);
    try apply ToString_TypeError.
  destruct (JsObject.has "toString" props); [|discriminate].
  intros H. now inversion H.
Qed.

Lemma get_TypeError (v : value) (k : string) (e : exn) :
  JsValue.get v k = Throw e -> isTypeError e.
Proof.
  destruct v; cbn [JsValue.get]; try discriminate;
    try (intros H; now inversion H).
  - destruct (String.eqb k "length"); [discriminate|].
    destruct (JsValue.nth_item (units s) k); discriminate.
  - destruct (String.eqb k "length"); [discriminate|].
    destruct (JsValue.nth_item items k); discriminate.
  - destruct (JsObject.get k props); discriminate.
Qed.

Lemma iterate_TypeError (v : value) (e : exn) :
  JsValue.iterate v = Throw e -> isTypeError e.
Proof.
  destruct v; cbn [JsValue.iterate]; try discriminate;
    intros H; now inversion H.
Qed.

Lemma pushHostPorts_TypeError (ps : list value) :
  forall acc e, pushHostPorts ps acc = Throw e -> isTypeError e.
Proof.
  induction ps as [|p ps IH]; intros acc e; simpl; [discriminate|].
  unfold bind_result.
  destruct (JsValue.toString p) as [s|e0] eqn:E.
  - destruct (declaredHostPort s); apply IH.
  - intros H. inversion H; subst. now apply (toString_TypeError p).
Qed.

Lemma svcInfoOf_TypeError (composeDirName : string) (composeDoc : value)
    (name : string) (e : exn) :
  svcInfoOf composeDirName composeDoc name = Throw e -> isTypeError e.
Proof.
  unfold svcInfoOf, bind_result.
  destruct (JsValue.get composeDoc "services") as [s|e0] eqn:E1;
    [|intros H; inversion H; subst; now apply get_TypeError in E1].
  destruct (JsValue.get s name) as [def|e0] eqn:E2;
    [|intros H; inversion H; subst; now apply get_TypeError in E2].
  destruct (JsValue.get def "container_name") as [cn|e0] eqn:E3;
    [|intros H; inversion H; subst; now apply get_TypeError in E3].
  destruct (JsValue.get def "ports") as [ps|e0] eqn:E4;
    [|intros H; inversion H; subst; now apply get_TypeError in E4].
  destruct (JsValue.truthy ps); [|discriminate].
  destruct (JsValue.iterate ps) as [items|e0] eqn:E5;
    [|intros H; inversion H; subst; now apply iterate_TypeError in E5].
  destruct (pushHostPorts items []) as [hp|e0] eqn:E6; [discriminate|].
  intros H. inversion H; subst. now apply pushHostPorts_TypeError in E6.
Qed.

Lemma buildSvcInfos_TypeError (composeDirName : string) (composeDoc : value)
    (serviceNames : list string) (e : exn) :
  buildSvcInfos composeDirName composeDoc serviceNames = Throw e ->
  isTypeError e.
Proof.
  induction serviceNames as [|s tl IH]; simpl; [discriminate|].
  unfold bind_result.
  destruct (svcInfoOf composeDirName composeDoc s) as [info|e0] eqn:E;
    [|intros H; inversion H; subst; now apply svcInfoOf_TypeError in E].
  destruct (buildSvcInfos composeDirName composeDoc tl) as [rest|e0];
    [discriminate|].
  intros H. inversion H; subst. now apply IH.
Qed.

Lemma removeByName_TypeError (rt : Runtime) (svcInfos : list SvcInfo) :
  forall w e,
    outcome_of (removeByName rt svcInfos w) = Throw e -> isTypeError e.
Proof.
  unfold removeByName.
  induction svcInfos as [|svc l IH]; intros w e; [discriminate|].
  destruct (JsValue.ToString (containerName svc)) as [n|e0] eqn:E.
  - rewrite (for_each_cons_ok rt
               (fun svc =>
                  bind (lift (JsValue.ToString (containerName svc)))
                    (fun shown =>
                       bind (log Info (RemovingByName shown))
                         (fun _ => removeContainer rt (containerName svc))))
               svc l w _ _ (removeNamed_eq rt svc n w E)).
    specialize (IH (fst (spawn rt (DockerRmByName n) w)) e).
    destruct (for_each l _ _) as [[w2 e2] r2]. exact IH.
  - simpl. unfold bind at 1. unfold bind at 1. unfold lift at 1.
    rewrite E. unfold outcome_of. simpl.
    intros H. inversion H; subst. now apply ToString_TypeError in E.
Qed.

(** ** Nothing before or after the launch is logged as an error *)

Ltac below_error :=
  repeat (intros;
          match goal with
          | |- produces _ _ (log _ _) => apply produces_emit
          | |- produces _ _ (if ?b then _ else _) => destruct b
          | |- produces _ _ (match ?c with Stdout _ => _ | Stderr _ => _ end) =>
              destruct c
          | |- produces _ _ _ =>
              first [ apply produces_ret | apply produces_throw
                    | apply produces_lift | apply produces_observe
                    | apply produces_attempt | apply produces_exec
                    | apply produces_emit | apply produces_bind
                    | apply produces_try_catch | apply produces_for_each
                    | apply produces_run ]
          | |- belowError _ => exact I
          end).

Lemma removeByName_belowError (rt : Runtime) (svcInfos : list SvcInfo) :
  produces rt belowError (removeByName rt svcInfos).
Proof. unfold removeByName. below_error. Qed.

Lemma removeByPort_belowError (rt : Runtime) (svcInfos : list SvcInfo) :
  produces rt belowError (removeByPort rt svcInfos).
Proof. unfold removeByPort, checkPort. below_error. Qed.

Lemma detectPorts_belowError (rt : Runtime) (serviceNames : list string)
    (ports : Ports) :
  produces rt belowError (detectPorts rt serviceNames ports).
Proof.
  revert ports. induction serviceNames as [|s tl IH]; intros ports; simpl.
  - apply produces_ret.
  - apply produces_bind; [|intros m; apply IH].
    unfold inspectService. below_error.
Qed.

Lemma manifestReading_belowError (loaded : result value) :
  Forall belowError (fst (manifestReading loaded)).
Proof.
  unfold manifestReading.
  destruct loaded as [doc|e]; [|now repeat constructor].
  destruct (JsValue.get doc "services") as [s|e]; [|now repeat constructor].
  destruct (JsValue.truthy s); [|constructor].
  destruct (JsValue.Object_keys s); now repeat constructor.
Qed.

(** ** Step 4 in general *)

Lemma set_Forall {A} (Q : string * A -> Prop) (k : string) (v : A)
    (o : JsObject.t A) :
  Q (k, v) -> Forall Q o -> Forall Q (JsObject.set k v o).
Proof.
  intros Hq Ho. unfold JsObject.set.
  destruct (String.eqb k "__proto__" && negb (JsObject.has k o));
    [exact Ho|].
  induction Ho as [|[k0 v0] o H0 H IH]; simpl.
  - now repeat constructor.
  - destruct (String.eqb k k0) eqn:E.
    + apply String.eqb_eq in E. subst k0. now constructor.
    + now constructor.
Qed.

Lemma detectPorts_general (rt : Runtime) (serviceNames : list string) :
  forall (acc : Ports) (w : World rt),
    match detectPorts rt serviceNames acc w with
    | (_, evs, r) =>
        portQueries evs = serviceNames /\
        exists ports,
          r = Ok ports /\
          (Forall (fun kv => Forall digitBinding (snd kv)) acc ->
           Forall (fun kv => Forall digitBinding (snd kv)) ports)
    end.
Proof.
  induction serviceNames as [|s tl IH]; intros acc w; simpl.
  - split; [reflexivity|]. now exists acc.
  - unfold bind. rewrite inspectService_eq. cbv zeta.
    set (m := parseMappings (portOutput rt s w)).
    specialize (IH (JsObject.set s m acc) (fst (spawn rt (DockerPortOf s) w))).
    destruct (detectPorts rt tl _ _) as [[w2 e2] r2].
    destruct IH as (Hq & ports & -> & Hf).
    split.
    + simpl. rewrite <- app_assoc, portQueries_app.
      assert (F : forall cs, portQueries (flat_map queryLog cs) = []).
      { induction cs as [|c cs IHc]; simpl; [reflexivity|].
        rewrite portQueries_app, IHc. now destruct c. }
      rewrite F. simpl. now rewrite Hq.
    + exists ports. split; [reflexivity|]. intros Hacc. apply Hf.
      apply set_Forall; [|exact Hacc]. simpl.
      apply Forall_forall. intros b Hb.
      apply collect_In in Hb as (line & _ & Hp).
      now apply (parsePortLine_digits line).
Qed.

Lemma own_order_In {A} (key : A -> string) (l : list A) (x : A) :
  In x (JsObject.own_order key l) <-> In x l.
Proof.
  unfold JsObject.own_order.
  rewrite in_app_iff, JsObjectFacts.sort_index_In, !filter_In.
  destruct (JsObject.is_index (key x)); simpl; intuition discriminate.
Qed.

(** ** The ways an invocation ends *)

Lemma composeUp_belowError (rt : Runtime) (composePath cwd : string)
    (w : World rt) :
  code (snd (spawn rt (DockerComposeUp composePath cwd) w)) = Some 0%Z ->
  Forall belowError (events_of (composeUp rt composePath cwd w)) /\
  outcome_of (composeUp rt composePath cwd w) = Ok tt.
Proof.
  intros H. rewrite composeUp_eq. cbv zeta. rewrite H.
  unfold events_of, outcome_of. simpl. split; [|reflexivity].
  constructor; [exact I|]. constructor; [exact I|].
  apply Forall_app. split; [|now repeat constructor].
  induction (chunks (snd (spawn rt (DockerComposeUp composePath cwd) w)))
    as [|c cs IH]; simpl; [constructor|].
  apply Forall_app. split; [|exact IH].
  destruct c as [d|d]; simpl; [now repeat constructor|].
  destruct (includes d "Creating" || includes d "Created"
            || includes d "level=warning"); now repeat constructor.
Qed.

Lemma handler_cases (rt : Runtime) (input : Input) (workspacePath : string)
    (w : World rt) :
  let cp := composePathOf rt input workspacePath in
  let cwd := cwdOf input workspacePath in
  let up := DockerComposeUp cp cwd in
  let x := handler rt input workspacePath w in
  exists pre,
    Forall beforeLaunch pre /\ Forall belowError pre /\
    ((events_of x = pre /\
      exists e, outcome_of x = Throw e /\
                ((existsSync rt w cp = false /\
                  e = Error ("Compose file not found: " ++ cp)) \/
                 (existsSync rt w cp = true /\ isTypeError e))) \/
     (exists w3,
        existsSync rt w cp = true /\
        code (snd (spawn rt up w3)) <> Some 0%Z /\
        events_of x = (pre ++ events_of (composeUp rt cp cwd w3))%list /\
        outcome_of x
        = Throw (Error ("docker compose up exited with code "
                        ++ showCode (code (snd (spawn rt up w3)))))) \/
     (exists w3 w5 ev5 out,
        existsSync rt w cp = true /\
        code (snd (spawn rt up w3)) = Some 0%Z /\
        detectPorts rt (stage1Names rt cp w) JsObject.empty
          (fst (spawn rt up w3)) = (w5, ev5, Ok (ports out)) /\
        webUrl out = pickWebUrl (JsObject.entries (ports out)) /\
        outcome_of x = Ok out /\
        events_of x
        = (pre ++ events_of (composeUp rt cp cwd w3) ++ ev5
           ++ closing (ports out))%list)).
Proof.
  intros cp cwd up x. subst x. rewrite stage1Names_eq, handler_eq. cbv zeta.
  fold cp. fold cwd.
  set (reading := manifestReading (load_yaml rt w cp)).
  pose proof (manifestReading_logs (load_yaml rt w cp)) as Hread.
  pose proof (manifestReading_belowError (load_yaml rt w cp)) as Hbel.
  fold reading in Hread, Hbel.
  destruct (existsSync rt w cp) eqn:Eex.
  2:{ exists [Log Info (ComposeFile cp)].
      split; [now repeat constructor|]. split; [now repeat constructor|].
      left. split; [reflexivity|]. eexists. split; [reflexivity|].
      left. now split. }
  destruct (buildSvcInfos (path_basename rt cwd) (snd (snd reading))
              (fst (snd reading))) as [infos|e] eqn:Eb.
  2:{ exists (Log Info (ComposeFile cp) :: fst reading).
      split; [constructor; [exact I|exact Hread]|].
      split; [constructor; [exact I|exact Hbel]|].
      left. split; [reflexivity|]. exists e. split; [reflexivity|].
      right. split; [reflexivity|]. now apply buildSvcInfos_TypeError in Eb. }
  cbv zeta.
  set (pre := (Log Info (ComposeFile cp) :: fst reading
               ++ [Log Info (ServiceCleanupInfo infos)])%list).
  assert (Bpre : Forall beforeLaunch pre).
  { constructor; [exact I|].
    apply Forall_app; split; [exact Hread|now repeat constructor]. }
  assert (Epre : Forall belowError pre).
  { constructor; [exact I|].
    apply Forall_app; split; [exact Hbel|now repeat constructor]. }
  pose proof (removeByName_cleanup rt infos w) as B2.
  pose proof (removeByName_belowError rt infos w) as E2.
  pose proof (removeByName_TypeError rt infos w) as T2.
  destruct (removeByName rt infos w) as [[w2 ev2] r2].
  unfold events_of, outcome_of in B2, E2, T2; simpl in B2, E2, T2.
  destruct r2 as [[]|e].
  2:{ exists (pre ++ ev2)%list.
      split; [apply Forall_app; now split|].
      split; [apply Forall_app; now split|].
      left. split; [reflexivity|]. exists e. split; [reflexivity|].
      right. split; [reflexivity|]. now apply T2. }
  pose proof (removeByPort_cleanup rt infos w2) as B3.
  pose proof (removeByPort_belowError rt infos w2) as E3.
  destruct (removeByPort_counts rt infos w2) as [O3 _].
  destruct (removeByPort rt infos w2) as [[w3 ev3] r3].
  unfold events_of, outcome_of in B3, E3, O3; simpl in B3, E3, O3.
  subst r3.
  exists (pre ++ ev2 ++ ev3)%list.
  split; [apply Forall_app; split; [exact Bpre|apply Forall_app; now split]|].
  split; [apply Forall_app; split; [exact Epre|apply Forall_app; now split]|].
  right.
  pose proof (composeUp_eq rt cp cwd w3) as Eup. cbv zeta in Eup.
  fold up in Eup.
  destruct (composeUp rt cp cwd w3) as [[w4 ev4] r4] eqn:E4.
  inversion Eup as [[Hw4 Hev4 Hr4]]. clear Eup.
  destruct (code (snd (spawn rt up w3))) as [[| |]|] eqn:Ec; subst w4 ev4 r4.
  - right.
    pose proof (detectPorts_general rt (fst (snd reading)) JsObject.empty
                  (fst (spawn rt up w3))) as Hd.
    destruct (detectPorts rt (fst (snd reading)) JsObject.empty
                (fst (spawn rt up w3))) as [[w5 ev5] r5] eqn:E5.
    destruct Hd as (_ & ports & -> & _).
    exists w3, w5, ev5,
      {| webUrl := pickWebUrl (JsObject.entries ports); ports := ports |}.
    split; [reflexivity|]. split; [exact Ec|].
    split; [exact E5|]. split; [reflexivity|].
    rewrite E4. unfold events_of, outcome_of; simpl.
    split; [reflexivity|]. now rewrite <- !app_assoc.
  - left. exists w3. split; [reflexivity|].
    split; [rewrite Ec; discriminate|]. rewrite Ec, E4.
    unfold events_of, outcome_of; simpl. split; [|reflexivity].
    now rewrite <- !app_assoc.
  - left. exists w3. split; [reflexivity|].
    split; [rewrite Ec; discriminate|]. rewrite Ec, E4.
    unfold events_of, outcome_of; simpl. split; [|reflexivity].
    now rewrite <- !app_assoc.
  - left. exists w3. split; [reflexivity|].
    split; [rewrite Ec; discriminate|]. rewrite Ec, E4.
    unfold events_of, outcome_of; simpl. split; [|reflexivity].
    now rewrite <- !app_assoc.
Qed.

Lemma logs_spawn_nothing (evs : list event) :
  Forall isLog evs ->
  removals evs = [] /\ listings evs = 0 /\ launches evs = 0.
Proof.
  induction 1 as [|e evs He H IH]; simpl; [now repeat split|].
  destruct e; simpl in *; tauto.
Qed.

Lemma afterLaunch_spawn_nothing (evs : list event) :
  Forall afterLaunch evs ->
  removals evs = [] /\ listings evs = 0 /\ launches evs = 0.
Proof.
  induction 1 as [|e evs He H IH]; simpl; [now repeat split|].
  destruct e as [| [] | [] | |]; simpl in *; tauto.
Qed.

Lemma beforeLaunch_no_launch (evs : list event) :
  Forall beforeLaunch evs -> launches evs = 0.
Proof.
  induction 1 as [|e evs He H IH]; simpl; [reflexivity|].
  destruct e as [| [] | | |]; simpl in *; auto; discriminate.
Qed.

Lemma composeUp_spawns (rt : Runtime) (composePath cwd : string)
    (w : World rt) :
  removals (events_of (composeUp rt composePath cwd w)) = [] /\
  listings (events_of (composeUp rt composePath cwd w)) = 0 /\
  launches (events_of (composeUp rt composePath cwd w)) = 1.
Proof.
  rewrite composeUp_eq. cbv zeta. unfold events_of. simpl.
  destruct (logs_spawn_nothing _
              (launchLog_logs
                 (chunks (snd (spawn rt (DockerComposeUp composePath cwd) w)))))
    as (R & L & U).
  rewrite removals_app, listings_app, launches_app, R, L, U. simpl.
  now destruct (code (snd (spawn rt (DockerComposeUp composePath cwd) w)))
    as [[| |]|].
Qed.

Lemma composeUp_no_query (rt : Runtime) (composePath cwd : string)
    (w : World rt) :
  portQueries (events_of (composeUp rt composePath cwd w)) = [].
Proof.
  destruct (composeUp rt composePath cwd w) as [[w' evs] r] eqn:E.
  now apply composeUp_events in E as [Q _].
Qed.

(** X11.  When the compose file is not on disk the handler throws
    [Error("Compose file not found: <path>")] right after logging the
    path: the loader is not called, no process is spawned and the world
    stays as it was. *)
Theorem handler_missing_file (rt : Runtime) (input : Input)
    (workspacePath : string) (w : World rt) :
  existsSync rt w (composePathOf rt input workspacePath) = false ->
  handler rt input workspacePath w =
  (w,
   [Log Info (ComposeFile (composePathOf rt input workspacePath))],
   Throw (Error ("Compose file not found: "
                 ++ composePathOf rt input workspacePath))).
Proof.
  intros H. rewrite handler_eq. cbv zeta. now rewrite H.
Qed.

Lemma handler_missing_file_witness :
  handler Sim.runtime simInput "/ws" web8080 =
  (web8080,
   [Log Info (ComposeFile "/ws/docker-compose.yml")],
   Throw (Error "Compose file not found: /ws/docker-compose.yml")).
Proof.
  apply (handler_missing_file Sim.runtime simInput "/ws" web8080).
  reflexivity.
Defined.

(** X12.  The stages run in order: the events of an invocation split
    into a first part with the removals and listings and no launch or
    port query, and a rest without removal or listing; and
    [docker compose up] is spawned at most once. *)
Theorem handler_sequencing (rt : Runtime) (input : Input)
    (workspacePath : string) (w : World rt) :
  launches (events_of (handler rt input workspacePath w)) <= 1 /\
  exists before rest,
    events_of (handler rt input workspacePath w) = (before ++ rest)%list /\
    launches before = 0 /\ portQueries before = [] /\
    removals rest = [] /\ listings rest = 0.
Proof.
  destruct (handler_cases rt input workspacePath w)
    as (pre & Bpre & _ & [(Hev & _)
                         |[(w3 & _ & _ & Hev & _)
                          |(w3 & w5 & ev5 & out & _ & _ & E5 & _ & _ & Hev)]]);
    rewrite Hev;
    pose proof (beforeLaunch_no_launch _ Bpre) as L0;
    pose proof (beforeLaunch_no_query _ Bpre) as Q0.
  - split; [lia|]. exists pre, []. rewrite app_nil_r. now repeat split.
  - destruct (composeUp_spawns rt (composePathOf rt input workspacePath)
                (cwdOf input workspacePath) w3) as (R & L & U).
    split; [rewrite launches_app; lia|].
    eexists pre, _. now repeat split.
  - destruct (composeUp_spawns rt (composePathOf rt input workspacePath)
                (cwdOf input workspacePath) w3) as (R & L & U).
    pose proof (detectPorts_queries rt
                  (stage1Names rt (composePathOf rt input workspacePath) w)
                  JsObject.empty
                  (fst (spawn rt
                          (DockerComposeUp
                             (composePathOf rt input workspacePath)
                             (cwdOf input workspacePath)) w3))) as A5.
    rewrite E5 in A5. unfold events_of in A5. simpl in A5.
    destruct (afterLaunch_spawn_nothing _ A5) as (R5 & L5 & U5).
    destruct (afterLaunch_spawn_nothing _ (closing_after (ports out)))
      as (R6 & L6 & U6).
    split; [rewrite !launches_app; lia|].
    eexists pre, _. split; [reflexivity|].
    rewrite !removals_app, !listings_app, R, L, R5, L5, R6, L6.
    now repeat split.
Qed.

(** X13.  A successful invocation has seen [docker compose up] close
    with code 0, and it ends with the four calls that report the result:
    the ports map and the URL handed to [ctx.output] are those it
    returns, and the URL is the one picked from that map. *)
Theorem handler_success_report (rt : Runtime) (input : Input)
    (workspacePath : string) (w : World rt) (out : Output) :
  outcome_of (handler rt input workspacePath w) = Ok out ->
  webUrl out = pickWebUrl (JsObject.entries (ports out)) /\
  exists earlier,
    events_of (handler rt input workspacePath w)
    = (earlier
       ++ [Log Info (ExposedPorts (ports out));
           OutputPorts (ports out);
           OutputWebUrl (webUrl out);
           Log Info (ApplicationAvailable (webUrl out))])%list /\
    In (Close (DockerComposeUp (composePathOf rt input workspacePath)
                 (cwdOf input workspacePath)) (Some 0%Z)) earlier.
Proof.
  intros Hout.
  destruct (handler_cases rt input workspacePath w)
    as (pre & _ & _ & [(_ & e & He & _)
                      |[(w3 & _ & _ & _ & He)
                       |(w3 & w5 & ev5 & out' & _ & Ec & _ & Hu & Ho & Hev)]]);
    try (rewrite He in Hout; discriminate).
  rewrite Ho in Hout. inversion Hout; subst out'. clear Hout.
  split; [exact Hu|]. rewrite Hev, Hu.
  exists (pre ++ events_of (composeUp rt (composePathOf rt input workspacePath)
                              (cwdOf input workspacePath) w3) ++ ev5)%list.
  split; [now rewrite <- !app_assoc|].
  apply in_or_app. right. apply in_or_app. left.
  rewrite composeUp_eq. cbv zeta. rewrite Ec. unfold events_of. simpl.
  right. right. apply in_or_app. right. now left.
Qed.

Lemma handler_success_report_witness :
  webUrl apiDbOut = pickWebUrl (JsObject.entries (ports apiDbOut)) /\
  exists earlier,
    events_of (handler Sim.runtime simInput "/ws" apiDbWorld)
    = (earlier
       ++ [Log Info (ExposedPorts (ports apiDbOut));
           OutputPorts (ports apiDbOut);
           OutputWebUrl (webUrl apiDbOut);
           Log Info (ApplicationAvailable (webUrl apiDbOut))])%list /\
    In (Close (DockerComposeUp (composePathOf Sim.runtime simInput "/ws")
                 (cwdOf simInput "/ws")) (Some 0%Z)) earlier.
Proof.
  apply (handler_success_report Sim.runtime simInput "/ws" apiDbWorld
           apiDbOut).
  reflexivity.
Defined.

(** X14.  A successful invocation has queried the ports of each service
    of stage 1 once, in the order of the list, and of nothing else. *)
Theorem handler_queries_each_service (rt : Runtime) (input : Input)
    (workspacePath : string) (w : World rt) (out : Output) :
  outcome_of (handler rt input workspacePath w) = Ok out ->
  portQueries (events_of (handler rt input workspacePath w))
  = stage1Names rt (composePathOf rt input workspacePath) w.
Proof.
  intros Hout.
  destruct (handler_cases rt input workspacePath w)
    as (pre & Bpre & _ & [(_ & e & He & _)
                         |[(w3 & _ & _ & _ & He)
                          |(w3 & w5 & ev5 & out' & _ & Ec & E5 & _ & _ & Hev)]]);
    try (rewrite He in Hout; discriminate).
  rewrite Hev, !portQueries_app, (beforeLaunch_no_query _ Bpre).
  rewrite composeUp_no_query.
  pose proof (detectPorts_general rt
                (stage1Names rt (composePathOf rt input workspacePath) w)
                JsObject.empty
                (fst (spawn rt
                        (DockerComposeUp
                           (composePathOf rt input workspacePath)
                           (cwdOf input workspacePath)) w3))) as Hd.
  rewrite E5 in Hd. destruct Hd as [Q5 _]. rewrite Q5.
  assert (Q6 : portQueries (closing (ports out')) = []) by reflexivity.
  rewrite Q6. simpl. now rewrite app_nil_r.
Qed.

Lemma handler_queries_each_service_witness :
  portQueries (events_of (handler Sim.runtime simInput "/ws" apiDbWorld))
  = stage1Names Sim.runtime (composePathOf Sim.runtime simInput "/ws")
      apiDbWorld.
Proof.
  apply (handler_queries_each_service Sim.runtime simInput "/ws" apiDbWorld
           apiDbOut).
  reflexivity.
Defined.

(* ================================================================== *)
(** * A service named [__proto__] *)
(* ================================================================== *)

Lemma detectPorts_no_proto (rt : Runtime) (serviceNames : list string) :
  forall (acc : Ports) (w : World rt),
    ~ In "__proto__" (map fst acc) ->
    match outcome_of (detectPorts rt serviceNames acc w) with
    | Ok ports => ~ In "__proto__" (map fst ports)
    | Throw _ => True
    end.
Proof.
  induction serviceNames as [|s tl IH]; intros acc w Hacc; simpl.
  - exact Hacc.
  - unfold bind. rewrite inspectService_eq. cbv zeta.
    specialize (IH (JsObject.set s (parseMappings (portOutput rt s w)) acc)
                   (fst (spawn rt (DockerPortOf s) w))
                   (JsObjectFacts.set_no_proto _ _ _ Hacc)).
    now destruct (detectPorts rt tl _ _) as [[w2 e2] r2].
Qed.

(** C9.  A service named [__proto__] is queried for its ports like any
    other, and the ports map a successful invocation returns has no
    entry for it: the assignment of its mappings to [ports[service]]
    makes no property. *)
Theorem ports_omits_proto_service (rt : Runtime) (input : Input)
    (workspacePath : string) (w : World rt) (out : Output) :
  In "__proto__" (stage1Names rt (composePathOf rt input workspacePath) w) ->
  outcome_of (handler rt input workspacePath w) = Ok out ->
  In "__proto__" (portQueries (events_of (handler rt input workspacePath w)))
  /\ ~ In "__proto__" (JsObject.keys (ports out))
  /\ forall mappings,
       ~ In ("__proto__", mappings) (JsObject.entries (ports out)).
Proof.
  intros Hin Hout.
  destruct (handler_cases rt input workspacePath w)
    as (pre & Bpre & _ & [(_ & e & He & _)
                         |[(w3 & _ & _ & _ & He)
                          |(w3 & w5 & ev5 & out' & _ & Ec & E5 & _ & Ho & Hev)]]);
    try (rewrite He in Hout; discriminate).
  rewrite Ho in Hout. inversion Hout; subst out'; clear Hout.
  pose proof (detectPorts_general rt
                (stage1Names rt (composePathOf rt input workspacePath) w)
                JsObject.empty
                (fst (spawn rt
                        (DockerComposeUp
                           (composePathOf rt input workspacePath)
                           (cwdOf input workspacePath)) w3))) as Hd.
  pose proof (detectPorts_no_proto rt
                (stage1Names rt (composePathOf rt input workspacePath) w)
                JsObject.empty
                (fst (spawn rt
                        (DockerComposeUp
                           (composePathOf rt input workspacePath)
                           (cwdOf input workspacePath)) w3))
                (fun H => H)) as Hn.
  rewrite E5 in Hd, Hn. destruct Hd as [Q5 _].
  unfold outcome_of in Hn. simpl in Hn.
  split; [|split].
  - rewrite Hev, !portQueries_app, Q5.
    apply in_or_app. right. apply in_or_app. right.
    apply in_or_app. now left.
  - unfold JsObject.keys, JsObject.entries. intros H.
    apply in_map_iff in H as ([k m] & Hk & H). simpl in Hk. subst k.
    apply own_order_In in H. apply Hn.
    apply in_map_iff. now exists ("__proto__", m).
  - intros m H. apply own_order_In in H. apply Hn.
    apply in_map_iff. now exists ("__proto__", m).
Qed.

Lemma ports_omits_proto_service_witness :
  outcome_of (handler Sim.runtime simInput "/ws" protoWorld) = Ok protoOut /\
  In "__proto__"
     (portQueries (events_of (handler Sim.runtime simInput "/ws" protoWorld)))
  /\ ~ In "__proto__" (JsObject.keys (ports protoOut))
  /\ forall mappings,
       ~ In ("__proto__", mappings) (JsObject.entries (ports protoOut)).
Proof.
  split; [reflexivity|].
  apply (ports_omits_proto_service Sim.runtime simInput "/ws" protoWorld
           protoOut).
  - vm_compute. now left.
  - reflexivity.
Defined.


Lemma get_Some_In {A} (k : string) (v : A) (o : JsObject.t A) :
  JsObject.get k o = Some v -> In (k, v) o.
Proof.
  induction o as [|[k0 v0] o IH]; simpl; [discriminate|].
  destruct (String.eqb k k0) eqn:E.
  - apply String.eqb_eq in E. intros H. inversion H; subst. now left.
  - intros H. right. now apply IH.
Qed.

Lemma pickWebUrl_digits (entries : list (string * list PortBinding)) :
  Forall (fun kv => Forall digitBinding (snd kv)) entries ->
  pickWebUrl entries = "" \/
  exists h, h <> "" /\ all_digits h = true /\
            pickWebUrl entries = "http://localhost:" ++ h.
Proof.
  induction 1 as [|[k m] l Hm H IH]; simpl; [now left|].
  destruct m as [|b m]; [exact IH|].
  right. simpl in Hm. inversion Hm as [|? ? (H1 & H2 & _) _]; subst.
  now exists (hostPort b).
Qed.

(** X15.  In what a successful invocation returns, every mapping of
    every service holds two non-empty runs of digits, and the URL is
    empty or [http://localhost:] followed by a non-empty run of
    digits. *)
Theorem handler_returns_digits (rt : Runtime) (input : Input)
    (workspacePath : string) (w : World rt) (out : Output) :
  outcome_of (handler rt input workspacePath w) = Ok out ->
  (forall service mappings b,
     JsObject.get service (ports out) = Some mappings ->
     In b mappings -> digitBinding b) /\
  (webUrl out = "" \/
   exists h, h <> "" /\ all_digits h = true /\
             webUrl out = "http://localhost:" ++ h).
Proof.
  intros Hout.
  destruct (handler_cases rt input workspacePath w)
    as (pre & _ & _ & [(_ & e & He & _)
                      |[(w3 & _ & _ & _ & He)
                       |(w3 & w5 & ev5 & out' & _ & _ & E5 & Hu & Ho & _)]]);
    try (rewrite He in Hout; discriminate).
  rewrite Ho in Hout. inversion Hout; subst out'. clear Hout.
  pose proof (detectPorts_general rt
                (stage1Names rt (composePathOf rt input workspacePath) w)
                JsObject.empty
                (fst (spawn rt
                        (DockerComposeUp
                           (composePathOf rt input workspacePath)
                           (cwdOf input workspacePath)) w3))) as Hd.
  rewrite E5 in Hd. destruct Hd as (_ & ports' & Hp & Hf).
  inversion Hp; subst ports'. specialize (Hf (Forall_nil _)).
  split.
  - intros s m b Hg Hb. apply get_Some_In in Hg.
    rewrite Forall_forall in Hf. specialize (Hf _ Hg). simpl in Hf.
    rewrite Forall_forall in Hf. now apply Hf.
  - rewrite Hu. apply pickWebUrl_digits.
    apply Forall_forall. intros kv Hkv.
    apply own_order_In in Hkv. rewrite Forall_forall in Hf. now apply Hf.
Qed.

Lemma handler_returns_digits_witness :
  (forall service mappings b,
     JsObject.get service (ports apiDbOut) = Some mappings ->
     In b mappings -> digitBinding b) /\
  (webUrl apiDbOut = "" \/
   exists h, h <> "" /\ all_digits h = true /\
             webUrl apiDbOut = "http://localhost:" ++ h).
Proof.
  apply (handler_returns_digits Sim.runtime simInput "/ws" apiDbWorld
           apiDbOut).
  reflexivity.
Defined.

(** X16.  What the handler throws is the error of the missing compose
    file, a [TypeError] of the runtime, or the error of a launch that
    closed with a code other than 0; what the loader of the manifest
    throws never leaves the handler. *)
Theorem handler_throws_only (rt : Runtime) (input : Input)
    (workspacePath : string) (w : World rt) (e : exn) :
  outcome_of (handler rt input workspacePath w) = Throw e ->
  (e = Error ("Compose file not found: "
              ++ composePathOf rt input workspacePath) \/
   isTypeError e \/
   exists c, c <> Some 0%Z /\
             e = Error ("docker compose up exited with code " ++ showCode c))
  /\ forall description, e <> Foreign description.
Proof.
  intros Hout.
  assert (H : e = Error ("Compose file not found: "
                         ++ composePathOf rt input workspacePath) \/
              isTypeError e \/
              exists c, c <> Some 0%Z /\
                e = Error ("docker compose up exited with code "
                           ++ showCode c)).
  { destruct (handler_cases rt input workspacePath w)
      as (pre & _ & _ & [(_ & e' & He & Hwhy)
                        |[(w3 & _ & Hc & _ & He)
                         |(w3 & w5 & ev5 & out' & _ & _ & _ & _ & Ho & _)]]);
      rewrite ?He, ?Ho in Hout; try discriminate;
      inversion Hout; subst.
    - destruct Hwhy as [[_ ->]|[_ Ht]]; auto.
    - right. right. eexists. split; [exact Hc|reflexivity]. }
  split; [exact H|]. intros d ->.
  destruct H as [H|[H|(c & _ & H)]]; try discriminate. exact H.
Qed.

Lemma handler_throws_only_witness :
  (TypeError "cannot read properties of null or undefined"
   = Error ("Compose file not found: "
            ++ composePathOf Sim.runtime simInput "/ws") \/
   isTypeError (TypeError "cannot read properties of null or undefined") \/
   exists c, c <> Some 0%Z /\
             TypeError "cannot read properties of null or undefined"
             = Error ("docker compose up exited with code " ++ showCode c))
  /\ forall description,
       TypeError "cannot read properties of null or undefined"
       <> Foreign description.
Proof.
  apply (handler_throws_only Sim.runtime simInput "/ws"
           (simWorld (Ok nullServiceDoc) (Some 0%Z))).
  reflexivity.
Defined.

(** X17.  The handler logs at error level only when the launch closed
    with a code other than 0, and then it throws the error with that
    code: the output of the processes is logged as information or as a
    warning. *)
Theorem handler_error_log (rt : Runtime) (input : Input)
    (workspacePath : string) (w : World rt) (msg : message) :
  In (Log Err msg) (events_of (handler rt input workspacePath w)) ->
  exists c,
    c <> Some 0%Z /\ msg = ComposeExited c /\
    outcome_of (handler rt input workspacePath w)
    = Throw (Error ("docker compose up exited with code " ++ showCode c)).
Proof.
  intros Hin.
  destruct (handler_cases rt input workspacePath w)
    as (pre & _ & Epre & [(Hev & _)
                         |[(w3 & _ & Hc & Hev & Ho)
                          |(w3 & w5 & ev5 & out & _ & Ec & E5 & _ & _ & Hev)]]);
    rewrite Hev in Hin.
  - rewrite Forall_forall in Epre. now apply Epre in Hin.
  - apply in_app_or in Hin as [Hin|Hin];
      [rewrite Forall_forall in Epre; now apply Epre in Hin|].
    rewrite composeUp_eq in Hin. cbv zeta in Hin.
    unfold events_of in Hin. simpl in Hin.
    destruct Hin as [Hin|[Hin|Hin]]; try discriminate.
    apply in_app_or in Hin as [Hin|Hin].
    + pose proof (launchLog_logs
                    (chunks (snd (spawn rt
                                    (DockerComposeUp
                                       (composePathOf rt input workspacePath)
                                       (cwdOf input workspacePath)) w3))))
        as L.
      exfalso. clear - Hin.
      induction (chunks _) as [|c cs IH]; simpl in Hin; [contradiction|].
      apply in_app_or in Hin as [Hin|Hin]; [|now apply IH].
      destruct c as [d|d]; simpl in Hin.
      * destruct Hin as [Hin|[]]; discriminate.
      * destruct (includes d "Creating" || includes d "Created"
                  || includes d "level=warning");
          destruct Hin as [Hin|[]]; discriminate.
    + destruct Hin as [Hin|Hin]; [discriminate|].
      exists (code (snd (spawn rt
                           (DockerComposeUp
                              (composePathOf rt input workspacePath)
                              (cwdOf input workspacePath)) w3))).
      split; [exact Hc|]. split; [|exact Ho].
      destruct (code _) as [[| |]|]; simpl in Hin;
        destruct Hin as [Hin|[]]; try discriminate; now inversion Hin.
  - exfalso.
    apply in_app_or in Hin as [Hin|Hin];
      [rewrite Forall_forall in Epre; now apply Epre in Hin|].
    apply in_app_or in Hin as [Hin|Hin].
    + destruct (composeUp_belowError rt _ _ w3 Ec) as [B _].
      rewrite Forall_forall in B. now apply B in Hin.
    + apply in_app_or in Hin as [Hin|Hin].
      * pose proof (detectPorts_belowError rt
                      (stage1Names rt (composePathOf rt input workspacePath) w)
                      JsObject.empty
                      (fst (spawn rt
                              (DockerComposeUp
                                 (composePathOf rt input workspacePath)
                                 (cwdOf input workspacePath)) w3))) as B5.
        rewrite E5 in B5. unfold events_of in B5. simpl in B5.
        rewrite Forall_forall in B5. now apply B5 in Hin.
      * simpl in Hin. intuition discriminate.
Qed.

Lemma handler_error_log_witness :
  exists c,
    c <> Some 0%Z /\ ComposeExited (Some 1%Z) = ComposeExited c /\
    outcome_of (handler Sim.runtime simInput "/ws"
                  (simWorld (Ok (VObject [])) (Some 1%Z)))
    = Throw (Error ("docker compose up exited with code " ++ showCode c)).
Proof.
  apply (handler_error_log Sim.runtime simInput "/ws"
           (simWorld (Ok (VObject [])) (Some 1%Z))
           (ComposeExited (Some 1%Z))).
  vm_compute. do 5 right. now left.
Defined.

(** X18.  When the [services] of the document is a mapping none of
    whose keys is an array index, stage 1 yields its keys in the order
    of the document, logs them, and leaves the world as it is. *)
Theorem readManifest_declaration_order (rt : Runtime) (composePath : string)
    (w : World rt) (composeDoc : value) (props : list (string * value)) :
  load_yaml rt w composePath = Ok composeDoc ->
  JsValue.get composeDoc "services" = Ok (VObject props) ->
  Forall (fun k => JsObject.is_index k = false) (map fst props) ->
  readManifest rt composePath w =
  (w, [Log Info (DetectedServices (map fst props))],
   Ok (map fst props, composeDoc)).
Proof.
  intros Hl Hs Hk. rewrite readManifest_eq, Hl.
  unfold manifestReading. rewrite Hs. simpl.
  now rewrite (JsObjectFacts.own_order_fixed (fun k => k) (map fst props)
                 (JsObject.oo_names _ _ Hk)).
Qed.

Lemma readManifest_declaration_order_witness :
  readManifest Sim.runtime "/ws/docker-compose.yml" apiDbWorld =
  (apiDbWorld, [Log Info (DetectedServices ["api"; "db"])],
   Ok (["api"; "db"], apiDbDoc)).
Proof.
  apply (readManifest_declaration_order Sim.runtime "/ws/docker-compose.yml"
           apiDbWorld apiDbDoc
           [("api", VObject [("ports", VArray [VString "3000:3000"])]);
            ("db", VObject [("container_name", VString "mydb")])]).
  - reflexivity.
  - reflexivity.
  - repeat constructor.
Defined.

(* ================================================================== *)
(** * Properties of the [shell:run] action *)
(* ================================================================== *)

(** X19.  Without a command, or with one of white space only (the
    blanks of ASCII, the no-break space and the other white space of
    ECMAScript), the handler of [shell:run] throws its error at once:
    nothing is logged and nothing is executed. *)
Theorem shell_blank_command (bk : ShellRun.Backend) (input : ShellRun.Input)
    (workspacePath : string) (w : ShellRun.State bk) :
  match ShellRun.command input with
  | Some c => blank c
  | None => True
  end ->
  ShellRun.handler bk input workspacePath w
  = (w, [], Throw (Error ShellRun.commandRequired)).
Proof.
  unfold ShellRun.handler.
  destruct (ShellRun.command input) as [c|]; simpl; [|reflexivity].
  intros H. now rewrite (trim_blank c H).
Qed.

Lemma shell_blank_command_witness :
  ShellRun.handler ShellRun.sim
    {| ShellRun.command := Some ShellRun.blanks;
       ShellRun.args := None;
       ShellRun.cwd := None |} "/ws" []
  = ([], [], Throw (Error ShellRun.commandRequired)).
Proof.
  apply (shell_blank_command ShellRun.sim
           {| ShellRun.command := Some ShellRun.blanks;
              ShellRun.args := None;
              ShellRun.cwd := None |} "/ws" []).
  apply all_space_blank. reflexivity.
Defined.

(** The invocation of [shell:run] with a command that is not blank *)
Lemma shell_run_eq (bk : ShellRun.Backend) (input : ShellRun.Input)
    (workspacePath : string) (w : ShellRun.State bk)
    (c cmd : string) :
  ShellRun.command input = Some c -> trim c = cmd -> cmd <> "" ->
  let args := match ShellRun.args input with Some a => a | None => [] end in
  ShellRun.handler bk input workspacePath w =
  match ShellRun.resolveCwd bk input workspacePath with
  | Throw e => (w, [], Throw e)
  | Ok dir =>
      (fst (ShellRun.executeShellCommand bk cmd args dir w),
       [ShellRun.Logged ("Running command: " ++ cmd ++ " " ++ join " " args
                         ++ " in " ++ dir);
        ShellRun.Executed cmd args dir],
       snd (ShellRun.executeShellCommand bk cmd args dir w))
  end.
Proof.
  intros Hc Ht Hn args. unfold ShellRun.handler. rewrite Hc. simpl.
  rewrite Ht. destruct cmd as [|a t]; [congruence|].
  destruct (ShellRun.resolveCwd bk input workspacePath) as [dir|e];
    [|reflexivity].
  fold args. now destruct (ShellRun.executeShellCommand bk _ args dir w).
Qed.

(** X20.  What [shell:run] executes is the command of the input without
    the white space before and after it, which is not empty and has no
    white space at either end.  The working directory is the workspace
    when the input has no [cwd] or an empty one, and else the path
    [resolveSafeChildPath] gave for the workspace and that [cwd]; the
    arguments are those of the input, none when it has none.  The
    invocation is then the log call naming the three and the one
    execution. *)
Theorem shell_executes (bk : ShellRun.Backend) (input : ShellRun.Input)
    (workspacePath : string) (w : ShellRun.State bk)
    (cmd : string) (args : list string) (dir : string) :
  In (ShellRun.Executed cmd args dir)
     (snd (fst (ShellRun.handler bk input workspacePath w))) ->
  (exists c pre post,
     ShellRun.command input = Some c /\
     c = pre ++ cmd ++ post /\ blank pre /\ blank post) /\
  cmd <> "" /\ trimmed cmd = true /\
  match ShellRun.cwd input with
  | Some (String a d) =>
      ShellRun.resolveSafeChildPath bk workspacePath (String a d) = Ok dir
  | _ => dir = workspacePath
  end /\
  args = match ShellRun.args input with Some a => a | None => [] end /\
  snd (fst (ShellRun.handler bk input workspacePath w))
  = [ShellRun.Logged ("Running command: " ++ cmd ++ " " ++ join " " args
                      ++ " in " ++ dir);
     ShellRun.Executed cmd args dir].
Proof.
  destruct (ShellRun.command input) as [c|] eqn:Hc;
    [|unfold ShellRun.handler; rewrite Hc; intros []].
  destruct (trim_spec c) as (pre & post & Ec & Bpre & Bpost & T).
  destruct (String.eqb (trim c) "") eqn:Hn.
  { apply String.eqb_eq in Hn. unfold ShellRun.handler.
    rewrite Hc. simpl. rewrite Hn. intros []. }
  apply String.eqb_neq in Hn.
  rewrite (shell_run_eq bk input workspacePath w c (trim c) Hc eq_refl Hn).
  cbv zeta. unfold ShellRun.resolveCwd.
  assert (G : forall dir0 w' res,
            In (ShellRun.Executed cmd args dir)
               (snd (fst (w' : ShellRun.State bk,
                          [ShellRun.Logged
                             ("Running command: " ++ trim c ++ " "
                              ++ join " "
                                   match ShellRun.args input with
                                   | Some a => a
                                   | None => []
                                   end ++ " in " ++ dir0);
                           ShellRun.Executed (trim c)
                             match ShellRun.args input with
                             | Some a => a
                             | None => []
                             end dir0],
                          res : result unit))) ->
            cmd = trim c /\ dir = dir0 /\
            args = match ShellRun.args input with
                   | Some a => a
                   | None => []
                   end).
  { intros dir0 w' res [H|[H|[]]]; [discriminate|].
    inversion H; subst. now repeat split. }
  destruct (ShellRun.cwd input) as [[|a0 d]|].
  - intros H. apply G in H as (-> & -> & ->). simpl.
    split; [now exists c, pre, post|]. now repeat split.
  - replace (String.eqb (String a0 d) "") with false by reflexivity.
    destruct (ShellRun.resolveSafeChildPath bk workspacePath (String a0 d))
      as [dir0|e] eqn:Er; [|intros []].
    intros H. apply G in H as (-> & -> & ->). simpl.
    split; [now exists c, pre, post|]. now repeat split.
  - intros H. apply G in H as (-> & -> & ->). simpl.
    split; [now exists c, pre, post|]. now repeat split.
Qed.

Lemma shell_executes_witness :
  let input := {| ShellRun.command := Some ShellRun.paddedEcho;
                  ShellRun.args := Some ["hi"];
                  ShellRun.cwd := Some "sub" |} in
  (exists c pre post,
     ShellRun.command input = Some c /\
     c = pre ++ "echo" ++ post /\ blank pre /\ blank post) /\
  "echo" <> "" /\ trimmed "echo" = true /\
  ShellRun.resolveSafeChildPath ShellRun.sim "/ws" "sub" = Ok "/ws/sub" /\
  ["hi"] = ["hi"] /\
  snd (fst (ShellRun.handler ShellRun.sim input "/ws" []))
  = [ShellRun.Logged "Running command: echo hi in /ws/sub";
     ShellRun.Executed "echo" ["hi"] "/ws/sub"].
Proof.
  apply (shell_executes ShellRun.sim
           {| ShellRun.command := Some ShellRun.paddedEcho;
              ShellRun.args := Some ["hi"];
              ShellRun.cwd := Some "sub" |} "/ws" [] "echo" ["hi"] "/ws/sub").
  vm_compute. right. left. reflexivity.
Defined.

(* ================================================================== *)
(** * Lines of the listing of running containers *)
(* ================================================================== *)

Lemma split_without (sep s : string) :
  includes s sep = false -> split_go sep 0 s = [s].
Proof.
  induction s as [|c s IH]; cbn [includes split_go]; [reflexivity|].
  intros H. apply orb_false_iff in H as [H1 H2].
  rewrite H1, (IH H2). reflexivity.
Qed.

Lemma split_name_first (name text : string) :
  no_colon name = true ->
  split (name ++ ":::" ++ text) ":::" = name :: split text ":::".
Proof.
  unfold split, no_colon.
  induction name as [|c name IH]; intros H.
  - change ("" ++ ":::" ++ text) with (":::" ++ text).
    assert (S : starts_with ":::" (":::" ++ text) = true) by reflexivity.
    change (":::" ++ text) with (String ":" ("::" ++ text)) in *.
    cbn [split_go]. rewrite S.
    change (String.length ":::" - 1) with (String.length "::").
    now rewrite split_go_skip.
  - cbn [all_chars] in H. apply andb_true_iff in H as [Hc Hn].
    change (String c name ++ ":::" ++ text)
      with (String c (name ++ ":::" ++ text)).
    cbn [split_go].
    assert (S : starts_with ":::" (String c (name ++ ":::" ++ text)) = false).
    { cbn [starts_with]. unfold is_colon in Hc.
      rewrite Ascii.eqb_sym. apply negb_true_iff in Hc. now rewrite Hc. }
    rewrite S, (IH Hn). reflexivity.
Qed.

(** X21.  On a line [<name>:::<ports>] of the listing whose name has no
    colon, the name read is that name; and when the port text does not
    itself contain [:::], the line is in conflict for a port exactly
    when the conflict test holds of that port text. *)
Theorem listing_line (port name portsText : string) :
  no_colon name = true ->
  lineName (name ++ ":::" ++ portsText) = name /\
  (includes portsText ":::" = false ->
   lineConflicts port (name ++ ":::" ++ portsText)
   = conflicts port portsText).
Proof.
  intros H. unfold lineName, lineConflicts, linePorts.
  rewrite (split_name_first name portsText H). split; [reflexivity|].
  intros N. unfold split. now rewrite (split_without ":::" portsText N).
Qed.

Lemma listing_line_witness :
  lineName ("web" ++ ":::" ++ "0.0.0.0:8080->80/tcp") = "web" /\
  (includes "0.0.0.0:8080->80/tcp" ":::" = false ->
   lineConflicts "8080" ("web" ++ ":::" ++ "0.0.0.0:8080->80/tcp")
   = conflicts "8080" "0.0.0.0:8080->80/tcp").
Proof.
  apply (listing_line "8080" "web" "0.0.0.0:8080->80/tcp"). reflexivity.
Defined.
